(** * FuturisticAnimations: a shallow embedding of futuristic-animations.js

    The script decorates a page with an overlay (grid, neural network,
    floating shapes, particles) and wires hover and scroll effects.  The
    embedding keeps the DOM as a tree of elements with identities, the
    controller's fields as a record, and the browser's schedulers (timers,
    animation frames, event listeners) as queues, so that every method of
    the class is a function in a state-and-exception monad. *)

From Stdlib Require Import List String Ascii ZArith QArith Lia Bool Arith PrimFloat.
Import ListNotations.
Close Scope Q_scope.
Open Scope string_scope.
Open Scope list_scope.

Set Implicit Arguments.
Set Warnings "-register-all".

(** ** Element identities

    A JavaScript element is an object; what the program can observe of it is
    its identity.  Elements of the served page are numbered by the page;
    elements made with [document.createElement] (or parsed from [innerHTML])
    carry the place in the script that made them and a serial number drawn
    from one global counter. *)

Inductive Site :=
| SStyle        (* document.createElement('style') *)
| SBackground   (* bgContainer *)
| SLayer        (* the three <div>s of bgContainer.innerHTML *)
| SShape        (* createFloatingShapes *)
| SParticle     (* createParticle *)
| SNode         (* createNeuralNetwork *)
| SConnection   (* createNeuralConnections *)
| SRipple.      (* createRippleEffect *)

Inductive NodeId :=
| Static (n : nat)
| Created (site : Site) (serial : nat).

Definition Site_eqb (a b : Site) : bool :=
  match a, b with
  | SStyle, SStyle | SBackground, SBackground | SLayer, SLayer
  | SShape, SShape | SParticle, SParticle | SNode, SNode
  | SConnection, SConnection | SRipple, SRipple => true
  | _, _ => false
  end.

Definition NodeId_eqb (a b : NodeId) : bool :=
  match a, b with
  | Static x, Static y => Nat.eqb x y
  | Created p x, Created q y => Site_eqb p q && Nat.eqb x y
  | _, _ => false
  end.

(** ** Inline style values *)

Inductive CssVal :=
| CssText (s : string)                              (* a literal *)
| CssNum (x : float) (unit : string)                (* x + 'unit' *)
| CssCall (fn : string) (x : float) (unit : string) (* `fn(${x}unit)` *).

Definition css_is_empty (v : CssVal) : bool :=
  match v with
  | CssText s => String.eqb s ""
  | _ => false
  end.

Definition Style := list (string * CssVal).

Definition style_remove (k : string) (st : Style) : Style :=
  filter (fun p => negb (String.eqb (fst p) k)) st.

(** [el.style.k = v]; assigning the empty string removes the declaration. *)
Definition style_set (k : string) (v : CssVal) (st : Style) : Style :=
  if css_is_empty v then style_remove k st
  else style_remove k st ++ [(k, v)].

(** [el.style.k]: the empty string when nothing is declared inline. *)
Definition style_get (k : string) (st : Style) : CssVal :=
  match find (fun p => String.eqb (fst p) k) st with
  | Some p => snd p
  | None => CssText ""
  end.

(** ** Elements and trees *)

Record Elem := mkElem {
  nid : NodeId;
  tagName : string;
  classList : list string;
  style : Style
}.

Inductive Node := El (e : Elem) (kids : list Node).

Definition elem (n : Node) : Elem := match n with El e _ => e end.
Definition kids (n : Node) : list Node := match n with El _ ks => ks end.
Definition leaf (e : Elem) : Node := El e [].

Definition set_className (c : string) (e : Elem) : Elem :=
  mkElem (nid e) (tagName e) [c] (style e).

Definition contains (c : string) (e : Elem) : bool :=
  existsb (String.eqb c) (classList e).

(** [classList.add(c)] *)
Definition classList_add (c : string) (e : Elem) : Elem :=
  if contains c e then e
  else mkElem (nid e) (tagName e) (classList e ++ [c]) (style e).

Definition set_style (k : string) (v : CssVal) (e : Elem) : Elem :=
  mkElem (nid e) (tagName e) (classList e) (style_set k v (style e)).

(** [el.style.cssText = ...] replaces the whole inline style. *)
Definition set_cssText (st : Style) (e : Elem) : Elem :=
  mkElem (nid e) (tagName e) (classList e) st.

(** All nodes of a tree in document order, the root first. *)
Fixpoint subtrees (n : Node) : list Node :=
  match n with
  | El _ ks => n :: flat_map subtrees ks
  end.

Definition descendants (n : Node) : list Node := flat_map subtrees (kids n).
Definition elements (n : Node) : list Elem := map elem (subtrees n).
Definition ids (n : Node) : list NodeId := map nid (elements n).

(** Selectors: the script only uses class and tag selectors, alone or in a
    comma-separated group. *)
Inductive Selector :=
| ByClass (c : string)
| ByTag (t : string).

Definition matches1 (sel : Selector) (e : Elem) : bool :=
  match sel with
  | ByClass c => contains c e
  | ByTag t => String.eqb t (tagName e)
  end.

Definition matches (sels : list Selector) (n : Node) : bool :=
  existsb (fun sel => matches1 sel (elem n)) sels.

Definition querySelectorAll (sels : list Selector) (root : Node) : list Node :=
  filter (matches sels) (descendants root).

Definition querySelector (sels : list Selector) (root : Node) : option Node :=
  hd_error (querySelectorAll sels root).

(** [document.querySelectorAll(sels)]: where [el.querySelectorAll] searches
    under [el], the search of the document has every element of the
    document as a candidate, and so the root of the tree too. *)
Definition document_querySelectorAll (sels : list Selector) (doc : Node) : list Node :=
  filter (matches sels) (subtrees doc).

(** The chain of nodes from [n] down to the element [id], if it is in [n]. *)
Fixpoint path_to (id : NodeId) (n : Node) : option (list Node) :=
  match n with
  | El e ks =>
      if NodeId_eqb (nid e) id then Some [n]
      else
        match
          (fix first (l : list Node) : option (list Node) :=
             match l with
             | [] => None
             | k :: r =>
                 match path_to id k with
                 | Some p => Some p
                 | None => first r
                 end
             end) ks
        with
        | Some p => Some (n :: p)
        | None => None
        end
  end.

(** [el.closest(sels)]: the nearest of the element and its ancestors that
    matches. *)
Definition closest (sels : list Selector) (id : NodeId) (root : Node) : option Node :=
  match path_to id root with
  | Some p => find (matches sels) (rev p)
  | None => None
  end.

(** Mutation through a reference: the element [id] of the tree is replaced
    by [f] of it. *)
Fixpoint update (id : NodeId) (f : Elem -> Elem) (n : Node) : Node :=
  match n with
  | El e ks => El (if NodeId_eqb (nid e) id then f e else e) (map (update id f) ks)
  end.

(** [parent.appendChild(child)] *)
Fixpoint appendChild (parent : NodeId) (child : Node) (n : Node) : Node :=
  match n with
  | El e ks =>
      let ks' := map (appendChild parent child) ks in
      El e (if NodeId_eqb (nid e) parent then ks' ++ [child] else ks')
  end.

(** [parent.innerHTML = ''] *)
Fixpoint clearChildren (parent : NodeId) (n : Node) {struct n} : Node :=
  match n with
  | El e ks =>
      let ks' := map (clearChildren parent) ks in
      El e (if NodeId_eqb (nid e) parent then [] else ks')
  end.

(** [el.remove()], seen from a tree that may hold the element. *)
Fixpoint removeNode (id : NodeId) (n : Node) : Node :=
  match n with
  | El e ks =>
      El e ((fix keep (l : list Node) : list Node :=
               match l with
               | [] => []
               | k :: r =>
                   if NodeId_eqb (nid (elem k)) id then keep r
                   else removeNode id k :: keep r
               end) ks)
  end.

(** ** Style sheets in [document.head] *)

Inductive DeclVal :=
| DText (s : string)
| DMs (q : Q).      (* a time in milliseconds *)

Record Declaration := mkDecl {
  property : string;
  value : DeclVal;
  important : bool
}.

Inductive CssRule :=
| Rule (selectors : list string) (decls : list Declaration)
| Keyframes (name : string) (frames : list (string * list Declaration)).

Record StyleElement := mkStyleElement {
  styleId : NodeId;
  textContent : list CssRule
}.

(** ** The page as served *)

(** The page is given from [<body>] down: the root of the markup is
    [<body>], and [id] is the identity of the element it stands for. *)
Inductive Markup :=
| Tag (id : nat) (tag : string) (classes : list string) (inline : Style)
      (children : list Markup).

Fixpoint load (m : Markup) : Node :=
  match m with
  | Tag i t cs st ch => El (mkElem (Static i) t cs st) (map load ch)
  end.

(** ** Controller fields and browser state *)

(** An entry of [this.neuralNodes]: [{ element: node, x, y }]. *)
Record NeuralNode := mkNeuralNode {
  element : NodeId;
  node_x : float;
  node_y : float
}.

Inductive EventType := mouseenter | mouseleave | animationend.

Definition EventType_eqb (a b : EventType) : bool :=
  match a, b with
  | mouseenter, mouseenter | mouseleave, mouseleave
  | animationend, animationend => true
  | _, _ => false
  end.

(** The functions the script registers as listeners.  The arrow function of
    [createParticle] closes over its particle. *)
Inductive Handler :=
| OnButtonHover
| OnButtonLeave
| OnCardMouseMove
| OnCardMouseLeave
| OnParticleEnd (particle : NodeId).

Record Listener := mkListener {
  l_target : NodeId;
  l_type : EventType;
  l_handler : Handler
}.

(** [element.getBoundingClientRect()] *)
Record DOMRect := mkRect {
  rect_left : float;
  rect_top : float;
  rect_width : float;
  rect_height : float
}.

(** A DOM event as the handlers read it; [ev_rect] is the layout box of the
    target at the time of the event. *)
Record Event := mkEvent {
  ev_type : EventType;
  ev_target : NodeId;
  clientX : float;
  clientY : float;
  ev_rect : DOMRect
}.

(** The callbacks handed to [setTimeout]. *)
Inductive Task :=
| RevealSibling (sibling : NodeId)   (* sibling.classList.add('in-view') *)
| RemoveRipple (ripple : NodeId)     (* ripple.remove() *)
| ResizeDebounced.                   (* futuristicAnimations.handleResize() *)

Record Timer := mkTimer {
  timerId : nat;
  due : Z;
  task : Task
}.

Record State := mkState {
  (* this.* *)
  particles : list NodeId;
  neuralNodes : list NeuralNode;
  isReducedMotion : bool;
  animationFrameId : option nat;
  lastTime : float;
  bgContainer : option Node;
  (* document *)
  body : Node;
  attached : bool;              (* bgContainer is the first child of body *)
  headStyles : list StyleElement;
  (* window *)
  innerWidth : Z;
  prefersReducedMotion : bool;
  observed : list NodeId;       (* targets of the IntersectionObserver *)
  listeners : list Listener;
  timers : list Timer;
  nextTimer : nat;
  resizeTimeout : option nat;
  clock : Z;                    (* milliseconds *)
  rafPending : list nat;        (* handles whose callback is [animate] *)
  nextRaf : nat;
  nextSerial : nat;
  randomCalls : nat
}.

Definition set_neuralNodes v s :=
  mkState (particles s) v (isReducedMotion s) (animationFrameId s) (lastTime s)
    (bgContainer s) (body s) (attached s) (headStyles s) (innerWidth s)
    (prefersReducedMotion s) (observed s) (listeners s) (timers s) (nextTimer s)
    (resizeTimeout s) (clock s) (rafPending s) (nextRaf s) (nextSerial s)
    (randomCalls s).

Definition set_controller ps nn rm af lt s :=
  mkState ps nn rm af lt
    (bgContainer s) (body s) (attached s) (headStyles s) (innerWidth s)
    (prefersReducedMotion s) (observed s) (listeners s) (timers s) (nextTimer s)
    (resizeTimeout s) (clock s) (rafPending s) (nextRaf s) (nextSerial s)
    (randomCalls s).

Definition set_animationFrameId v s :=
  mkState (particles s) (neuralNodes s) (isReducedMotion s) v (lastTime s)
    (bgContainer s) (body s) (attached s) (headStyles s) (innerWidth s)
    (prefersReducedMotion s) (observed s) (listeners s) (timers s) (nextTimer s)
    (resizeTimeout s) (clock s) (rafPending s) (nextRaf s) (nextSerial s)
    (randomCalls s).

Definition set_lastTime v s :=
  mkState (particles s) (neuralNodes s) (isReducedMotion s) (animationFrameId s) v
    (bgContainer s) (body s) (attached s) (headStyles s) (innerWidth s)
    (prefersReducedMotion s) (observed s) (listeners s) (timers s) (nextTimer s)
    (resizeTimeout s) (clock s) (rafPending s) (nextRaf s) (nextSerial s)
    (randomCalls s).

Definition set_bgContainer v s :=
  mkState (particles s) (neuralNodes s) (isReducedMotion s) (animationFrameId s)
    (lastTime s) v (body s) (attached s) (headStyles s) (innerWidth s)
    (prefersReducedMotion s) (observed s) (listeners s) (timers s) (nextTimer s)
    (resizeTimeout s) (clock s) (rafPending s) (nextRaf s) (nextSerial s)
    (randomCalls s).

Definition set_trees bg bd s :=
  mkState (particles s) (neuralNodes s) (isReducedMotion s) (animationFrameId s)
    (lastTime s) bg bd (attached s) (headStyles s) (innerWidth s)
    (prefersReducedMotion s) (observed s) (listeners s) (timers s) (nextTimer s)
    (resizeTimeout s) (clock s) (rafPending s) (nextRaf s) (nextSerial s)
    (randomCalls s).

Definition set_attached v s :=
  mkState (particles s) (neuralNodes s) (isReducedMotion s) (animationFrameId s)
    (lastTime s) (bgContainer s) (body s) v (headStyles s) (innerWidth s)
    (prefersReducedMotion s) (observed s) (listeners s) (timers s) (nextTimer s)
    (resizeTimeout s) (clock s) (rafPending s) (nextRaf s) (nextSerial s)
    (randomCalls s).

Definition set_headStyles v s :=
  mkState (particles s) (neuralNodes s) (isReducedMotion s) (animationFrameId s)
    (lastTime s) (bgContainer s) (body s) (attached s) v (innerWidth s)
    (prefersReducedMotion s) (observed s) (listeners s) (timers s) (nextTimer s)
    (resizeTimeout s) (clock s) (rafPending s) (nextRaf s) (nextSerial s)
    (randomCalls s).

Definition set_innerWidth v s :=
  mkState (particles s) (neuralNodes s) (isReducedMotion s) (animationFrameId s)
    (lastTime s) (bgContainer s) (body s) (attached s) (headStyles s) v
    (prefersReducedMotion s) (observed s) (listeners s) (timers s) (nextTimer s)
    (resizeTimeout s) (clock s) (rafPending s) (nextRaf s) (nextSerial s)
    (randomCalls s).

Definition set_observed v s :=
  mkState (particles s) (neuralNodes s) (isReducedMotion s) (animationFrameId s)
    (lastTime s) (bgContainer s) (body s) (attached s) (headStyles s) (innerWidth s)
    (prefersReducedMotion s) v (listeners s) (timers s) (nextTimer s)
    (resizeTimeout s) (clock s) (rafPending s) (nextRaf s) (nextSerial s)
    (randomCalls s).

Definition set_listeners v s :=
  mkState (particles s) (neuralNodes s) (isReducedMotion s) (animationFrameId s)
    (lastTime s) (bgContainer s) (body s) (attached s) (headStyles s) (innerWidth s)
    (prefersReducedMotion s) (observed s) v (timers s) (nextTimer s)
    (resizeTimeout s) (clock s) (rafPending s) (nextRaf s) (nextSerial s)
    (randomCalls s).

Definition set_timers v n s :=
  mkState (particles s) (neuralNodes s) (isReducedMotion s) (animationFrameId s)
    (lastTime s) (bgContainer s) (body s) (attached s) (headStyles s) (innerWidth s)
    (prefersReducedMotion s) (observed s) (listeners s) v n
    (resizeTimeout s) (clock s) (rafPending s) (nextRaf s) (nextSerial s)
    (randomCalls s).

Definition set_resizeTimeout v s :=
  mkState (particles s) (neuralNodes s) (isReducedMotion s) (animationFrameId s)
    (lastTime s) (bgContainer s) (body s) (attached s) (headStyles s) (innerWidth s)
    (prefersReducedMotion s) (observed s) (listeners s) (timers s) (nextTimer s)
    v (clock s) (rafPending s) (nextRaf s) (nextSerial s)
    (randomCalls s).

Definition set_clock v s :=
  mkState (particles s) (neuralNodes s) (isReducedMotion s) (animationFrameId s)
    (lastTime s) (bgContainer s) (body s) (attached s) (headStyles s) (innerWidth s)
    (prefersReducedMotion s) (observed s) (listeners s) (timers s) (nextTimer s)
    (resizeTimeout s) v (rafPending s) (nextRaf s) (nextSerial s)
    (randomCalls s).

Definition set_raf v n s :=
  mkState (particles s) (neuralNodes s) (isReducedMotion s) (animationFrameId s)
    (lastTime s) (bgContainer s) (body s) (attached s) (headStyles s) (innerWidth s)
    (prefersReducedMotion s) (observed s) (listeners s) (timers s) (nextTimer s)
    (resizeTimeout s) (clock s) v n (nextSerial s)
    (randomCalls s).

Definition set_nextSerial v s :=
  mkState (particles s) (neuralNodes s) (isReducedMotion s) (animationFrameId s)
    (lastTime s) (bgContainer s) (body s) (attached s) (headStyles s) (innerWidth s)
    (prefersReducedMotion s) (observed s) (listeners s) (timers s) (nextTimer s)
    (resizeTimeout s) (clock s) (rafPending s) (nextRaf s) v
    (randomCalls s).

Definition set_randomCalls v s :=
  mkState (particles s) (neuralNodes s) (isReducedMotion s) (animationFrameId s)
    (lastTime s) (bgContainer s) (body s) (attached s) (headStyles s) (innerWidth s)
    (prefersReducedMotion s) (observed s) (listeners s) (timers s) (nextTimer s)
    (resizeTimeout s) (clock s) (rafPending s) (nextRaf s) (nextSerial s)
    v.

(** The document as a query sees it: the overlay, while attached, is the
    first child of [body]. *)
Definition document (s : State) : Node :=
  match body s, bgContainer s, attached s with
  | El e ks, Some bg, true => El e (bg :: ks)
  | b, _, _ => b
  end.

(** A mutation through an element reference reaches the element wherever it
    is: under [body], or in the overlay the controller holds. *)
Definition onDom (f : Node -> Node) (s : State) : State :=
  set_trees (option_map f (bgContainer s)) (f (body s)) s.

Definition connected (id : NodeId) (s : State) : bool :=
  existsb (NodeId_eqb id) (ids (document s)).

(** ** The monad of the script: state, and [None] for an uncaught exception *)

Definition M (A : Type) : Type := State -> option (A * State).

Definition ret {A} (a : A) : M A := fun s => Some (a, s).

Definition bind {A B} (m : M A) (k : A -> M B) : M B :=
  fun s => match m s with
           | Some (a, s') => k a s'
           | None => None
           end.

Definition throw {A} : M A := fun _ => None.
Definition gets {A} (f : State -> A) : M A := fun s => Some (f s, s).
Definition modify (f : State -> State) : M unit := fun s => Some (tt, f s).

Declare Scope js_scope.
Delimit Scope js_scope with js.
Notation "x <- m ;; k" := (bind m (fun x => k))
  (at level 61, m at next level, right associativity) : js_scope.
Notation "m ;; k" := (bind m (fun _ => k))
  (at level 61, right associativity) : js_scope.
Open Scope js_scope.

(** [for (let i = 0; i < n; i++) body] *)
Fixpoint for_from (n i : nat) (body : nat -> M unit) : M unit :=
  match n with
  | 0 => ret tt
  | S n' => body i ;; for_from n' (S i) body
  end.

Definition for_loop (n : nat) (body : nat -> M unit) : M unit := for_from n 0 body.

(** [array.forEach((item, index) => ...)] *)
Fixpoint forEach_from {A} (l : list A) (index : nat) (f : A -> nat -> M unit) : M unit :=
  match l with
  | [] => ret tt
  | a :: r => f a index ;; forEach_from r (S index) f
  end.

Definition forEach {A} (l : list A) (f : A -> nat -> M unit) : M unit :=
  forEach_from l 0 f.

(** ** Pieces of the JavaScript library the script calls *)

(** [s.replace(pat, rep)] with a string pattern: the first occurrence only. *)
Fixpoint replace (pat rep s : string) {struct s} : string :=
  if String.prefix pat s
  then rep ++ substring (String.length pat) (String.length s - String.length pat) s
  else match s with
       | EmptyString => s
       | String c r => String c (replace pat rep r)
       end.

Definition is_nan (a : float) : bool := negb (a =? a)%float.

(** [Math.max(a, b)]: NaN if either is NaN, and +0 is larger than -0. *)
Definition Math_max (a b : float) : float :=
  if is_nan a || is_nan b then nan
  else if (a <? b)%float then b
  else match classify a, classify b with
       | FloatClass.NZero, FloatClass.PZero => b
       | _, _ => a
       end.

Definition addEventListener (tgt : NodeId) (ty : EventType) (h : Handler) : M unit :=
  modify (fun s => set_listeners (listeners s ++ [mkListener tgt ty h]) s).

(** [document.createElement(tag)]: a fresh, detached element. *)
Definition createElement (site : Site) (tag : string) : M Elem :=
  fun s => Some (mkElem (Created site (nextSerial s)) tag [] [],
                 set_nextSerial (S (nextSerial s)) s).

(** [container.appendChild(child)] and [container.innerHTML = ''] where
    [container] is the result of a [querySelector]: a [TypeError] on null. *)
Definition appendChildTo (container : option Node) (child : Node) : M unit :=
  match container with
  | Some c => modify (onDom (appendChild (nid (elem c)) child))
  | None => throw
  end.

Definition clearInnerHTML (container : option Node) : M unit :=
  match container with
  | Some c => modify (onDom (clearChildren (nid (elem c))))
  | None => throw
  end.

(** [el.remove()] *)
Definition element_remove (id : NodeId) : M unit :=
  modify (fun s =>
    let s1 := onDom (removeNode id) s in
    match bgContainer s with
    | Some bg => if NodeId_eqb (nid (elem bg)) id then set_attached false s1 else s1
    | None => s1
    end).

(** Reading an element through a reference. *)
Definition deref (id : NodeId) : M Elem :=
  fun s =>
    let all := elements (body s) ++
               match bgContainer s with Some bg => elements bg | None => [] end in
    match find (fun e => NodeId_eqb (nid e) id) all with
    | Some e => Some (e, s)
    | None => None
    end.

(** [this.bgContainer], used as an object. *)
Definition this_bgContainer : M Node :=
  fun s => match bgContainer s with
           | Some bg => Some (bg, s)
           | None => None
           end.

(** [setTimeout(task, delay)] and [clearTimeout(id)] *)
Definition setTimeout (t : Task) (delay : Z) : M nat :=
  fun s => Some (nextTimer s,
                 set_timers (timers s ++ [mkTimer (nextTimer s) (clock s + delay) t])
                            (S (nextTimer s)) s).

Definition clearTimeout (id : option nat) : M unit :=
  match id with
  | Some i => modify (fun s =>
      set_timers (filter (fun tm => negb (Nat.eqb (timerId tm) i)) (timers s))
                 (nextTimer s) s)
  | None => ret tt
  end.

(** [requestAnimationFrame(animate)] and [cancelAnimationFrame(handle)] *)
Definition requestAnimationFrame : M nat :=
  fun s => Some (nextRaf s,
                 set_raf (rafPending s ++ [nextRaf s]) (S (nextRaf s)) s).

Definition cancelAnimationFrame (h : nat) : M unit :=
  modify (fun s =>
    set_raf (filter (fun h' => negb (Nat.eqb h' h)) (rafPending s)) (nextRaf s) s).

(** ** The class FuturisticAnimations *)

Section FuturisticAnimations.

(** What the JavaScript engine supplies: the values [Math.random()] returns,
    call after call, and the implementation-approximated functions. *)
Variable random_value : nat -> float.
Variable Math_sqrt : float -> float.
Variable Math_pow : float -> float -> float.
Variable Math_atan2 : float -> float -> float.

Definition Math_random : M float :=
  fun s => Some (random_value (randomCalls s),
                 set_randomCalls (S (randomCalls s)) s).

Definition createFloatingShapes : M unit :=
  bg <- this_bgContainer ;;
  let shapesContainer := querySelector [ByClass "floating-shapes"] bg in
  w <- gets innerWidth ;;
  let shapeCount := if (w <? 768)%Z then 8 else 15 in
  for_loop shapeCount (fun i =>
    shape <- createElement SShape "div" ;;
    let shape := set_className "hex-shape" shape in
    r <- Math_random ;;
    let shape := set_style "left" (CssNum (r * 100) "%") shape in
    r <- Math_random ;;
    let shape := set_style "top" (CssNum (r * 100) "%") shape in
    r <- Math_random ;;
    let shape := set_style "animationDelay" (CssNum (r * 8) "s") shape in
    r <- Math_random ;;
    let shape := set_style "animationDuration" (CssNum (8 + r * 4) "s") shape in
    appendChildTo shapesContainer (leaf shape)).

Definition createFuturisticBackground : M unit :=
  bgContainer <- createElement SBackground "div" ;;
  let bgContainer := set_className "futuristic-bg" bgContainer in
  grid <- createElement SLayer "div" ;;
  network <- createElement SLayer "div" ;;
  shapes <- createElement SLayer "div" ;;
  let bgContainer :=
    El bgContainer [leaf (set_className "digital-grid" grid);
                    leaf (set_className "neural-network" network);
                    leaf (set_className "floating-shapes" shapes)] in
  (* body.insertBefore(bgContainer, body.firstChild); this.bgContainer = bgContainer *)
  modify (set_attached true) ;;
  modify (set_bgContainer (Some bgContainer)) ;;
  createFloatingShapes.

Definition createParticle : M unit :=
  particle <- createElement SParticle "div" ;;
  let particle := set_className "particle" particle in
  r <- Math_random ;;
  let particle := set_style "left" (CssNum (r * 100) "vw") particle in
  r <- Math_random ;;
  let particle := set_style "animationDelay" (CssNum (r * 15) "s") particle in
  r <- Math_random ;;
  let particle := set_style "animationDuration" (CssNum (15 + r * 10) "s") particle in
  bg <- this_bgContainer ;;
  modify (onDom (appendChild (nid (elem bg)) (leaf particle))) ;;
  addEventListener (nid particle) animationend (OnParticleEnd (nid particle)).

Definition initParticleSystem : M unit :=
  w <- gets innerWidth ;;
  let particleCount := if (w <? 768)%Z then 20 else 40 in
  for_loop particleCount (fun i => createParticle).

Definition createNeuralConnections (container : option Node) : M unit :=
  nodes <- gets neuralNodes ;;
  forEach nodes (fun node index =>
    nodes <- gets neuralNodes ;;
    forEach (skipn (index + 1) nodes) (fun otherNode _ =>
      let distance :=
        Math_sqrt (Math_pow (node_x node - node_x otherNode) 2 +
                   Math_pow (node_y node - node_y otherNode) 2) in
      if (distance <? 30)%float then
        connection <- createElement SConnection "div" ;;
        let connection := set_className "neural-connection" connection in
        let angle := Math_atan2 (node_y otherNode - node_y node)
                                (node_x otherNode - node_x node) in
        let connection := set_style "left" (CssNum (node_x node) "%") connection in
        let connection := set_style "top" (CssNum (node_y node) "%") connection in
        let connection := set_style "width" (CssNum distance "%") connection in
        let connection := set_style "transform" (CssCall "rotate" angle "rad") connection in
        r <- Math_random ;;
        let connection := set_style "animationDelay" (CssNum (r * 4) "s") connection in
        appendChildTo container (leaf connection)
      else ret tt)).

Definition createNeuralNetwork : M unit :=
  bg <- this_bgContainer ;;
  let networkContainer := querySelector [ByClass "neural-network"] bg in
  w <- gets innerWidth ;;
  let nodeCount := if (w <? 768)%Z then 12 else 20 in
  for_loop nodeCount (fun i =>
    node <- createElement SNode "div" ;;
    let node := set_className "neural-node" node in
    rx <- Math_random ;;
    let x := (rx * 100)%float in
    ry <- Math_random ;;
    let y := (ry * 100)%float in
    let node := set_style "left" (CssNum x "%") node in
    let node := set_style "top" (CssNum y "%") node in
    r <- Math_random ;;
    let node := set_style "animationDelay" (CssNum (r * 3) "s") node in
    appendChildTo networkContainer (leaf node) ;;
    modify (fun s => set_neuralNodes (neuralNodes s ++ [mkNeuralNode (nid node) x y]) s)) ;;
  createNeuralConnections networkContainer.

(** The callback of the IntersectionObserver; an entry is its target and
    [isIntersecting]. *)
Definition observerCallback (entries : list (NodeId * bool)) : M unit :=
  forEach entries (fun entry _ =>
    if snd entry then
      doc <- gets document ;;
      match closest [ByClass "hero-cta"; ByClass "grid"] (fst entry) doc with
      | Some container =>
          let siblings := querySelectorAll [ByClass "fade-in-element"] container in
          forEach siblings (fun sibling index =>
            setTimeout (RevealSibling (nid (elem sibling))) (Z.of_nat index * 200) ;;
            ret tt)
      | None =>
          modify (onDom (update (fst entry) (classList_add "in-view")))
      end
    else ret tt).

Definition setupScrollAnimations : M unit :=
  doc <- gets document ;;
  let animatedElements :=
    document_querySelectorAll
      [ByClass "fade-in-element"; ByClass "portal-card"; ByClass "hero-cta"] doc in
  forEach animatedElements (fun el index =>
    modify (fun s => set_observed (observed s ++ [nid (elem el)]) s)).

(** [triggerElementAnimation(element)]: nothing in the script calls it. *)
Definition triggerElementAnimation (element : NodeId) : M unit :=
  el <- deref element ;;
  if contains "portal-card" el
  then modify (onDom (update element (classList_add "animate-slide-up")))
  else if contains "hero-cta" el
  then modify (onDom (update element (classList_add "animate-slide-up")))
  else ret tt.

Definition setupInteractiveElements : M unit :=
  doc <- gets document ;;
  let buttons :=
    document_querySelectorAll [ByClass "btn-primary"; ByClass "btn-secondary"] doc in
  forEach buttons (fun button _ =>
    addEventListener (nid (elem button)) mouseenter OnButtonHover ;;
    addEventListener (nid (elem button)) mouseleave OnButtonLeave) ;;
  doc <- gets document ;;
  let portalCards := document_querySelectorAll [ByClass "portal-card"] doc in
  forEach portalCards (fun card _ =>
    addEventListener (nid (elem card)) mouseenter OnCardMouseMove ;;
    addEventListener (nid (elem card)) mouseleave OnCardMouseLeave) ;;
  doc <- gets document ;;
  let icons := document_querySelectorAll [ByTag "svg"] doc in
  forEach icons (fun icon _ =>
    modify (onDom (update (nid (elem icon)) (classList_add "icon-bounce")))).

Definition createRippleEffect (element : NodeId) (event : Event) : M unit :=
  let rect := ev_rect event in
  let size := Math_max (rect_width rect) (rect_height rect) in
  let x := (clientX event - rect_left rect - size / 2)%float in
  let y := (clientY event - rect_top rect - size / 2)%float in
  ripple <- createElement SRipple "div" ;;
  let ripple := set_cssText
    [("position", CssText "absolute");
     ("width", CssNum size "px");
     ("height", CssNum size "px");
     ("left", CssNum x "px");
     ("top", CssNum y "px");
     ("background", CssText "radial-gradient(circle, rgba(6, 182, 212, 0.6) 0%, transparent 70%)");
     ("border-radius", CssText "50%");
     ("transform", CssText "scale(0)");
     ("animation", CssText "ripple 0.6s ease-out forwards");
     ("pointer-events", CssText "none");
     ("z-index", CssText "0")] ripple in
  modify (onDom (update element (set_style "position" (CssText "relative")))) ;;
  modify (onDom (update element (set_style "overflow" (CssText "hidden")))) ;;
  modify (onDom (appendChild element (leaf ripple))) ;;
  setTimeout (RemoveRipple (nid ripple)) 600 ;;
  ret tt.

Definition onButtonHover (event : Event) : M unit :=
  let button := ev_target event in
  modify (onDom (update button (set_style "transform" (CssText "translateY(-4px)")))) ;;
  createRippleEffect button event.

Definition onButtonLeave (event : Event) : M unit :=
  let button := ev_target event in
  modify (onDom (update button (set_style "transform" (CssText "")))).

Definition onCardMouseMove (currentTarget : NodeId) (event : Event) : M unit :=
  card <- deref currentTarget ;;
  let cardType :=
    if contains "student-portal" card then "cyan"
    else if contains "examiner-portal" card then "blue" else "amber" in
  let shadowColor := "rgba(6, 182, 212, 0.25)" in
  let shadowColor :=
    if String.eqb cardType "blue" then "rgba(59, 130, 246, 0.25)" else shadowColor in
  let shadowColor :=
    if String.eqb cardType "amber" then "rgba(245, 158, 11, 0.25)" else shadowColor in
  modify (onDom (update currentTarget
            (set_style "transform" (CssText "translateY(-4px)")))) ;;
  modify (onDom (update currentTarget
            (set_style "boxShadow"
               (CssText ("0 8px 25px " ++ shadowColor ++ ", 0 0 20px "
                         ++ replace "0.25" "0.1" shadowColor))))) ;;
  modify (onDom (update currentTarget
            (set_style "transition" (CssText "all 0.3s cubic-bezier(0.25, 0.8, 0.25, 1)")))).

Definition onCardMouseLeave (currentTarget : NodeId) (event : Event) : M unit :=
  modify (onDom (update currentTarget (set_style "transform" (CssText "")))).

Definition updateAnimations : M unit := ret tt.

(** The closure [animate] of [startAnimationLoop]. *)
Definition animate (currentTime : float) : M unit :=
  lt <- gets lastTime ;;
  (if (16 <=? currentTime - lt)%float
   then updateAnimations ;; modify (set_lastTime currentTime)
   else ret tt) ;;
  h <- requestAnimationFrame ;;
  modify (set_animationFrameId (Some h)).

Definition startAnimationLoop : M unit :=
  h <- requestAnimationFrame ;;
  modify (set_animationFrameId (Some h)).

Definition disableAnimations : M unit :=
  st <- createElement SStyle "style" ;;
  let sheet := mkStyleElement (nid st)
    [Rule ["*"; "*::before"; "*::after"]
       [mkDecl "animation-duration" (DMs (1 # 100)) true;
        mkDecl "animation-iteration-count" (DText "1") true;
        mkDecl "transition-duration" (DMs (1 # 100)) true]] in
  modify (fun s => set_headStyles (headStyles s ++ [sheet]) s).

Definition init : M unit :=
  createFuturisticBackground ;;
  setupScrollAnimations ;;
  initParticleSystem ;;
  createNeuralNetwork ;;
  setupInteractiveElements ;;
  startAnimationLoop ;;
  reduced <- gets isReducedMotion ;;
  if reduced then disableAnimations else ret tt.

Definition constructor : M unit :=
  reduced <- gets prefersReducedMotion ;;
  modify (set_controller [] [] reduced None 0%float) ;;
  init.

Definition destroy : M unit :=
  id <- gets animationFrameId ;;
  match id with
  | Some h => if Nat.eqb h 0 then ret tt else cancelAnimationFrame h
  | None => ret tt
  end ;;
  bg <- gets bgContainer ;;
  match bg with
  | Some b => element_remove (nid (elem b))
  | None => ret tt
  end.

Definition handleResize : M unit :=
  bg <- this_bgContainer ;;
  let shapesContainer := querySelector [ByClass "floating-shapes"] bg in
  clearInnerHTML shapesContainer ;;
  createFloatingShapes ;;
  bg <- this_bgContainer ;;
  let networkContainer := querySelector [ByClass "neural-network"] bg in
  clearInnerHTML networkContainer ;;
  modify (set_neuralNodes []) ;;
  createNeuralNetwork.

(** ** The script's top level and the browser's event loop *)

(** Top level: the ripple keyframes go to [document.head]; on
    DOMContentLoaded the controller is built.  The resize listener it
    installs there is [on_resize] below. *)
Definition script : M unit :=
  rippleStyle <- createElement SStyle "style" ;;
  let sheet := mkStyleElement (nid rippleStyle)
    [Keyframes "ripple"
       [("to", [mkDecl "transform" (DText "scale(2)") false;
                mkDecl "opacity" (DText "0") false])]] in
  modify (fun s => set_headStyles (headStyles s ++ [sheet]) s) ;;
  constructor.

Definition on_resize : M unit :=
  id <- gets resizeTimeout ;;
  clearTimeout id ;;
  id <- setTimeout ResizeDebounced 250 ;;
  modify (set_resizeTimeout (Some id)).

(** Calling a registered listener; [this] of the listener's element is
    [event.currentTarget]. *)
Definition invoke (l : Listener) (event : Event) : M unit :=
  match l_handler l with
  | OnButtonHover => onButtonHover event
  | OnButtonLeave => onButtonLeave event
  | OnCardMouseMove => onCardMouseMove (l_target l) event
  | OnCardMouseLeave => onCardMouseLeave (l_target l) event
  | OnParticleEnd particle => element_remove particle ;; createParticle
  end.

(** The browser delivers [mouseenter], [mouseleave] and [animationend] to
    elements that are in the document, and calls the listeners registered
    on the target for that type, in registration order. *)
Definition dispatchEvent (event : Event) : M unit :=
  live <- gets (connected (ev_target event)) ;;
  if live then
    ls <- gets listeners ;;
    forEach
      (filter (fun l => NodeId_eqb (l_target l) (ev_target event)
                        && EventType_eqb (l_type l) (ev_type event)) ls)
      (fun l _ => invoke l event)
  else ret tt.

Definition run_task (t : Task) : M unit :=
  match t with
  | RevealSibling sibling => modify (onDom (update sibling (classList_add "in-view")))
  | RemoveRipple ripple => element_remove ripple
  | ResizeDebounced => handleResize
  end.

Fixpoint insert_by_due (tm : Timer) (l : list Timer) : list Timer :=
  match l with
  | [] => [tm]
  | h :: r => if (due tm <=? due h)%Z then tm :: l else h :: insert_by_due tm r
  end.

(** Timers fire by due time, and by registration order among equals. *)
Definition sort_by_due (l : list Timer) : list Timer := fold_right insert_by_due [] l.

(** The clock reaches [t]: every timer due by then fires. *)
Definition elapse (t : Z) : M unit :=
  tms <- gets timers ;;
  n <- gets nextTimer ;;
  modify (set_timers (filter (fun tm => negb (due tm <=? t)%Z) tms) n) ;;
  modify (fun s => set_clock (Z.max (clock s) t) s) ;;
  forEach (sort_by_due (filter (fun tm => (due tm <=? t)%Z) tms))
    (fun tm _ => run_task (task tm)).

(** One animation frame: the callbacks requested before the frame run. *)
Definition frame (time : float) : M unit :=
  pending <- gets rafPending ;;
  n <- gets nextRaf ;;
  modify (set_raf [] n) ;;
  forEach pending (fun _ _ => animate time).

Inductive Stimulus :=
| Frame (time : float)
| Dispatch (event : Event)
| Intersect (entries : list (NodeId * bool))
| WindowResize (w : Z)
| Elapse (t : Z)
| Destroy.

Definition step (st : Stimulus) : M unit :=
  match st with
  | Frame time => frame time
  | Dispatch event => dispatchEvent event
  | Intersect entries =>
      obs <- gets observed ;;
      s <- gets (fun s => s) ;;
      observerCallback
        (filter (fun en => existsb (NodeId_eqb (fst en)) obs && connected (fst en) s)
                entries)
  | WindowResize w => modify (set_innerWidth w) ;; on_resize
  | Elapse t => elapse t
  | Destroy => destroy
  end.

Fixpoint run (trace : list Stimulus) : M unit :=
  match trace with
  | [] => ret tt
  | st :: rest => step st ;; run rest
  end.

(** The browser before the script runs. *)
Definition blank (page : Markup) (width : Z) (reduced : bool) : State :=
  mkState [] [] false None 0%float None
          (load page) false []
          width reduced [] [] [] 1 None 0%Z [] 1 0 0.

Definition boot (page : Markup) (width : Z) (reduced : bool) : option (unit * State) :=
  script (blank page width reduced).

(** A session: the script runs on the page as served, then the browser
    delivers the stimuli of [trace]. *)
Definition session (page : Markup) (width : Z) (reduced : bool) (trace : list Stimulus)
  : option (unit * State) :=
  (script ;; run trace) (blank page width reduced).

End FuturisticAnimations.


(** * What is observed of a state, and the invariant of the running page *)

(** The elements of the overlay that carry a class. *)
Definition in_overlay (cls : string) (s : State) : list Node :=
  match bgContainer s with
  | Some bg => querySelectorAll [ByClass cls] bg
  | None => []
  end.

Definition count_in_overlay (cls : string) (s : State) : nat :=
  List.length (in_overlay cls s).

(** Reading an element through its identity: the first in document
    order. *)
Definition lookup_in (id : NodeId) (n : Node) : option Node :=
  find (fun k => NodeId_eqb (nid (elem k)) id) (subtrees n).

Definition lookup (id : NodeId) (s : State) : option Node :=
  lookup_in id (document s).

(** [el.style.prop] of the element [id] of the document. *)
Definition style_of (prop : string) (id : NodeId) (s : State) : option CssVal :=
  option_map (fun n => style_get prop (style (elem n))) (lookup id s).

(** [el.lastChild] *)
Definition lastChild (id : NodeId) (s : State) : option Node :=
  match lookup id s with
  | Some n => hd_error (rev (kids n))
  | None => None
  end.

(** Some element [id] of the document carries the class. *)
Definition has_class (cls : string) (id : NodeId) (s : State) : bool :=
  existsb (fun e => NodeId_eqb (nid e) id && contains cls e) (elements (document s)).

Definition serial_of (id : NodeId) : nat :=
  match id with
  | Static n => n
  | Created _ k => k
  end.

(** The overlay after [createFuturisticBackground]: the background element
    holds the grid, the network layer, the shapes layer, and then the
    particles appended to it. *)
Definition bgElem : Elem := mkElem (Created SBackground 1) "div" ["futuristic-bg"] [].
Definition gridElem : Elem := mkElem (Created SLayer 2) "div" ["digital-grid"] [].
Definition networkElem : Elem := mkElem (Created SLayer 3) "div" ["neural-network"] [].
Definition shapesElem : Elem := mkElem (Created SLayer 4) "div" ["floating-shapes"] [].

Definition overlay (nk sk ps : list Elem) : Node :=
  El bgElem (leaf gridElem :: El networkElem (map leaf nk)
             :: El shapesElem (map leaf sk) :: map leaf ps).

Definition made_by (site : Site) (cls : string) (e : Elem) : Prop :=
  (exists k, nid e = Created site k) /\ tagName e = "div" /\ classList e = [cls].

Definition net_kid (e : Elem) : Prop :=
  made_by SNode "neural-node" e \/ made_by SConnection "neural-connection" e.

(** Identities of the page side of the document: served elements and
    ripples. *)
Definition page_id (id : NodeId) : bool :=
  match id with
  | Static _ => true
  | Created SRipple _ => true
  | Created _ _ => false
  end.

Definition listener_ok (n : nat) (l : Listener) : Prop :=
  match l_handler l with
  | OnParticleEnd p =>
      l_target l = p /\ l_type l = animationend /\
      exists k, p = Created SParticle k /\ k < n
  | _ => page_id (l_target l) = true /\ l_type l <> animationend
  end.

Definition particle_targets (ls : list Listener) : list NodeId :=
  map l_target (filter (fun l => EventType_eqb (l_type l) animationend) ls).

Definition timer_ok (tm : Timer) : Prop :=
  match task tm with
  | RevealSibling id => page_id id = true
  | RemoveRipple id => page_id id = true
  | ResizeDebounced => True
  end.

Definition geometry (e : Elem) : CssVal * CssVal * CssVal * CssVal :=
  (style_get "left" (style e), style_get "top" (style e),
   style_get "width" (style e), style_get "transform" (style e)).

Section Invariant.

Variable Math_sqrt : float -> float.
Variable Math_pow : float -> float -> float.
Variable Math_atan2 : float -> float -> float.

(** The distance the script computes for a pair of nodes, and the line it
    draws from the first to the second. *)
Definition distance (a b : NeuralNode) : float :=
  Math_sqrt (Math_pow (node_x a - node_x b) 2 + Math_pow (node_y a - node_y b) 2).

Definition near (a b : NeuralNode) : bool := (distance a b <? 30)%float.

Definition line (a b : NeuralNode) : CssVal * CssVal * CssVal * CssVal :=
  (CssNum (node_x a) "%", CssNum (node_y a) "%", CssNum (distance a b) "%",
   CssCall "rotate" (Math_atan2 (node_y b - node_y a) (node_x b - node_x a)) "rad").

Definition line_of_pair (nodes : list NeuralNode) (p : nat * nat)
  : option (CssVal * CssVal * CssVal * CssVal) :=
  match nth_error nodes (fst p), nth_error nodes (snd p) with
  | Some a, Some b => Some (line a b)
  | _, _ => None
  end.

(** [pairs] lists, once each, the pairs of positions [i < j] of [nodes]
    whose nodes are near. *)
Definition near_pairs (nodes : list NeuralNode) (pairs : list (nat * nat)) : Prop :=
  NoDup pairs /\
  forall i j, In (i, j) pairs <->
    i < j /\ exists a b, nth_error nodes i = Some a /\ nth_error nodes j = Some b /\
                         near a b = true.

(** The children of the network layer: the node elements of
    [this.neuralNodes], then one connection for each near pair. *)
Definition network_ok (nodes : list NeuralNode) (nk : list Elem) : Prop :=
  exists ne ce pairs,
    nk = ne ++ ce /\
    Forall (made_by SNode "neural-node") ne /\
    map nid ne = map element nodes /\
    Forall (made_by SConnection "neural-connection") ce /\
    near_pairs nodes pairs /\
    map (fun e => Some (geometry e)) ce = map (line_of_pair nodes) pairs.

(** The overlay and the page side of the document.  [N] is the particle
    population. *)
Record Overlay_ok (N : nat) (s : State) (nk sk ps : list Elem) : Prop := {
  ov_bg : bgContainer s = Some (overlay nk sk ps);
  ov_net : Forall net_kid nk;
  ov_shapes : Forall (made_by SShape "hex-shape") sk;
  ov_particles : Forall (made_by SParticle "particle") ps;
  ov_serials : Forall (fun e => serial_of (nid e) < nextSerial s) (nk ++ sk ++ ps);
  ov_nodup : NoDup (map nid ps);
  ov_count : List.length ps = N;
  ov_listening :
    Forall (fun e => In (mkListener (nid e) animationend (OnParticleEnd (nid e)))
                        (listeners s)) ps
}.

Record Dom (N : nat) (s : State) : Prop := {
  dom_overlay : exists nk sk ps, Overlay_ok N s nk sk ps;
  dom_root : exists i, nid (elem (body s)) = Static i;
  dom_body : Forall (fun id => page_id id = true) (ids (body s));
  dom_listeners : Forall (listener_ok (nextSerial s)) (listeners s);
  dom_targets : NoDup (particle_targets (listeners s));
  dom_timers : Forall timer_ok (timers s);
  dom_observed : Forall (fun id => page_id id = true) (observed s)
}.

(** The frame loop.  [frozen] is set once [destroy] has been called and
    holds the controller's frame fields as it left them. *)
Record Raf (frozen : option (float * option nat)) (s : State) : Prop := {
  raf_handle : exists h, animationFrameId s = Some h /\ h <> 0 /\
                         (rafPending s = [h] \/ rafPending s = []);
  raf_next : nextRaf s <> 0;
  raf_frozen :
    match frozen with
    | Some (lt, af) =>
        rafPending s = [] /\ attached s = false /\
        lastTime s = lt /\ animationFrameId s = af
    | None => True
    end
}.

Definition Net (s : State) : Prop :=
  forall nk sk ps, bgContainer s = Some (overlay nk sk ps) ->
                   network_ok (neuralNodes s) nk.

(** The invariant of every state the page reaches once the script has
    run. *)
Definition Inv (N : nat) (frozen : option (float * option nat)) (s : State) : Prop :=
  Dom N s /\ Raf frozen s /\ Net s.

End Invariant.

(** Total correctness of a computation of the script: from a state in [P]
    it does not throw and ends in [Q]. *)
Definition total {A} (P : State -> Prop) (m : M A) (Q : A -> State -> Prop) : Prop :=
  forall s, P s -> exists a s', m s = Some (a, s') /\ Q a s'.

(** [s'] differs from [s] at most in what building the overlay writes:
    the overlay, [this.neuralNodes], the listeners, and the counters of
    created elements and of random draws. *)
Definition overlay_write (s s' : State) : Prop :=
  s' = mkState (particles s) (neuralNodes s') (isReducedMotion s)
         (animationFrameId s) (lastTime s) (bgContainer s') (body s) (attached s)
         (headStyles s) (innerWidth s) (prefersReducedMotion s) (observed s)
         (listeners s') (timers s) (nextTimer s) (resizeTimeout s) (clock s)
         (rafPending s) (nextRaf s) (nextSerial s') (randomCalls s').

(** ... and at most in what the page-side handlers write: the page, the
    timers, and the counter of created elements. *)
Definition page_write (s s' : State) : Prop :=
  s' = mkState (particles s) (neuralNodes s) (isReducedMotion s)
         (animationFrameId s) (lastTime s) (bgContainer s) (body s') (attached s)
         (headStyles s) (innerWidth s) (prefersReducedMotion s) (observed s)
         (listeners s) (timers s') (nextTimer s') (resizeTimeout s) (clock s)
         (rafPending s) (nextRaf s) (nextSerial s') (randomCalls s).

(** * Vocabulary of the statements *)

(** A sheet that holds every animation and transition to [0.01ms] at most:
    a rule for every element and pseudo-element whose two duration
    declarations are [!important]. *)
Definition collapses_durations (sheet : StyleElement) : Prop :=
  exists decls,
    In (Rule ["*"; "*::before"; "*::after"] decls) (textContent sheet) /\
    forall prop, prop = "animation-duration" \/ prop = "transition-duration" ->
      exists q, In (mkDecl prop (DMs q) true) decls /\ (q <= 1 # 100)%Q.

Definition node_id (n : Node) : NodeId := nid (elem n).

(** The glow of a card, by the class that gives its type: cyan for a
    student portal, blue for an examiner portal, amber for any other. *)
Definition card_glow (card : Elem) : string :=
  if contains "student-portal" card
  then "0 8px 25px rgba(6, 182, 212, 0.25), 0 0 20px rgba(6, 182, 212, 0.1)"
  else if contains "examiner-portal" card
  then "0 8px 25px rgba(59, 130, 246, 0.25), 0 0 20px rgba(59, 130, 246, 0.1)"
  else "0 8px 25px rgba(245, 158, 11, 0.25), 0 0 20px rgba(245, 158, 11, 0.1)".

Definition card_transition : string := "all 0.3s cubic-bezier(0.25, 0.8, 0.25, 1)".

(** ** A page and an engine to run the script on *)

Fixpoint float_of_nat (n : nat) : float :=
  match n with
  | 0 => 0%float
  | S m => (1 + float_of_nat m)%float
  end.

(** A fixed sequence in [0, 1) for [Math.random]. *)
Definition sample_random (n : nat) : float :=
  (float_of_nat ((n * 37) mod 100) / 100)%float.

(** [Math.pow] at the only exponent the script uses, and a stand-in for
    [Math.atan2]. *)
Definition sample_pow (x y : float) : float := (x * x)%float.
Definition sample_atan2 (y x : float) : float := (y / x)%float.

Definition sample_grid : Markup :=
  Tag 5 "div" ["grid"] []
    [ Tag 6 "div" ["portal-card"; "student-portal"; "fade-in-element"] [] [];
      Tag 7 "div" ["portal-card"; "examiner-portal"; "fade-in-element"] [] [];
      Tag 8 "div" ["portal-card"; "fade-in-element"] [] [] ].

Definition sample_page : Markup :=
  Tag 0 "body" [] []
    [ Tag 1 "div" ["hero-cta"] []
        [ Tag 2 "a" ["btn-primary"; "fade-in-element"] [] [Tag 3 "svg" [] [] []];
          Tag 4 "a" ["btn-secondary"; "fade-in-element"] [] [] ];
      sample_grid;
      Tag 9 "p" ["fade-in-element"] [] [] ].

Definition sample_session (trace : list Stimulus) : option (unit * State) :=
  session sample_random PrimFloat.sqrt sample_pow sample_atan2
          sample_page 1024 false trace.

(** The state the script leaves on the sample page. *)
Definition sample_state : State :=
  match sample_session [] with
  | Some (_, s) => s
  | None => blank sample_page 1024 false
  end.


Definition sample_enter (target : NodeId) : Event :=
  mkEvent mouseenter target 50 20 (mkRect 10 10 120 40).

Definition sample_leave (target : NodeId) : Event :=
  mkEvent mouseleave target 200 200 (mkRect 10 10 120 40).
(** * The vocabulary of the proofs *)

(** The predicates, relations and values the lemmas and the properties
    below are stated with. *)

Unset Implicit Arguments.

(** ** The overlay *)

(** The site of the script that created an element, if it did. *)
Definition site_of (id : NodeId) : option Site :=
  match id with
  | Static _ => None
  | Created st _ => Some st
  end.

(** The three layers of the overlay hold what the script put there. *)
Record Kids (nk sk ps : list Elem) : Prop := {
  kids_net : Forall net_kid nk;
  kids_shapes : Forall (made_by SShape "hex-shape") sk;
  kids_particles : Forall (made_by SParticle "particle") ps
}.

(** Whether a selector of a group selects the elements of class [cls]
    that the script makes (all of them [div]s). *)
Definition sel_hits (cls : string) (sel : Selector) : bool :=
  match sel with
  | ByClass c => String.eqb c cls
  | ByTag t => String.eqb t "div"
  end.

(** The children of the network layer that a class selects: the nodes for
    [neural-node], the connections for [neural-connection]. *)
Definition is_made_by (site : Site) (e : Elem) : bool :=
  match site_of (nid e) with
  | Some st => Site_eqb st site
  | None => false
  end.

(** ** What a method leaves alone *)

(** [keeps R m]: whenever [m] returns, the states before and after are
    related by [R]. *)
Definition keeps {A} (R : State -> State -> Prop) (m : M A) : Prop :=
  forall s a s', m s = Some (a, s') -> R s s'.

(** The relations that compose along a sequence of calls. *)
Class FrameRel (R : State -> State -> Prop) : Prop := {
  rel_refl : forall s, R s s;
  rel_trans : forall a b c, R a b -> R b c -> R a c
}.

(** A pending run of the debounced resize handler. *)
Definition is_debounced (tm : Timer) : bool :=
  match task tm with
  | ResizeDebounced => true
  | _ => false
  end.

(** The listeners of the pointer events, and the pending runs of the
    resize handler. *)
Definition pointer_listeners (s : State) : list Listener :=
  filter (fun l => negb (EventType_eqb (l_type l) animationend)) (listeners s).

Definition debounced (s : State) : list Timer := filter is_debounced (timers s).

(** What the event handlers and the timers' callbacks leave alone: the
    fields the set-up wrote once, the mouse listeners, the debounce of
    the resize handler, the frame loop, the width and the clock. *)
Definition Quiet (s s' : State) : Prop :=
  particles s' = particles s /\ isReducedMotion s' = isReducedMotion s /\
  headStyles s' = headStyles s /\ prefersReducedMotion s' = prefersReducedMotion s /\
  observed s' = observed s /\ pointer_listeners s' = pointer_listeners s /\
  resizeTimeout s' = resizeTimeout s /\ debounced s' = debounced s /\
  animationFrameId s' = animationFrameId s /\ rafPending s' = rafPending s /\
  nextRaf s' = nextRaf s /\ lastTime s' = lastTime s /\
  innerWidth s' = innerWidth s /\ clock s' = clock s.

(** ** The elements the methods make *)

Section MethodsVocabulary.

Variable rv : nat -> float.
Variable sq : float -> float.
Variable pw : float -> float -> float.
Variable at2 : float -> float -> float.

(** The counts of the two buckets of the viewport. *)
Definition shapeCount (w : Z) : nat := if (w <? 768)%Z then 8 else 15.

Definition particleCount (w : Z) : nat := if (w <? 768)%Z then 20 else 40.

Definition nodeCount (w : Z) : nat := if (w <? 768)%Z then 12 else 20.

(** The shape the loop of [createFloatingShapes] makes in state [s]. *)
Definition new_shape (s : State) : Elem :=
  set_style "animationDuration" (CssNum (8 + rv (S (S (S (randomCalls s)))) * 4) "s")
    (set_style "animationDelay" (CssNum (rv (S (S (randomCalls s))) * 8) "s")
       (set_style "top" (CssNum (rv (S (randomCalls s)) * 100) "%")
          (set_style "left" (CssNum (rv (randomCalls s) * 100) "%")
             (set_className "hex-shape"
                (mkElem (Created SShape (nextSerial s)) "div" [] []))))).

(** The particle [createParticle] makes in state [s]. *)
Definition new_particle (s : State) : Elem :=
  set_style "animationDuration" (CssNum (15 + rv (S (S (randomCalls s))) * 10) "s")
    (set_style "animationDelay" (CssNum (rv (S (randomCalls s)) * 15) "s")
       (set_style "left" (CssNum (rv (randomCalls s) * 100) "vw")
          (set_className "particle"
             (mkElem (Created SParticle (nextSerial s)) "div" [] [])))).

(** The node the loop of [createNeuralNetwork] makes in state [s], and its
    entry in [this.neuralNodes]. *)
Definition new_node (s : State) : Elem :=
  set_style "animationDelay" (CssNum (rv (S (S (randomCalls s))) * 3) "s")
    (set_style "top" (CssNum (rv (S (randomCalls s)) * 100) "%")
       (set_style "left" (CssNum (rv (randomCalls s) * 100) "%")
          (set_className "neural-node"
             (mkElem (Created SNode (nextSerial s)) "div" [] [])))).

Definition new_entry (s : State) : NeuralNode :=
  mkNeuralNode (Created SNode (nextSerial s))
               (rv (randomCalls s) * 100) (rv (S (randomCalls s)) * 100).

(** The connection [createNeuralConnections] makes in state [s] for the
    pair [a], [b]. *)
Definition new_connection (s : State) (a b : NeuralNode) : Elem :=
  set_style "animationDelay" (CssNum (rv (randomCalls s) * 4) "s")
    (set_style "transform"
       (CssCall "rotate" (at2 (node_y b - node_y a) (node_x b - node_x a)) "rad")
       (set_style "width" (CssNum (distance sq pw a b) "%")
          (set_style "top" (CssNum (node_y a) "%")
             (set_style "left" (CssNum (node_x a) "%")
                (set_className "neural-connection"
                   (mkElem (Created SConnection (nextSerial s)) "div" [] [])))))).

(** [pairs] lists, once each, the near pairs [(i, j)], [i < j], that the
    two loops have visited when the outer one is at [bi] and the inner one
    at [bj]. *)
Definition covered (nodes : list NeuralNode) (bi bj : nat) (pairs : list (nat * nat)) : Prop :=
  NoDup pairs /\
  forall i j, In (i, j) pairs <->
    i < j /\ (i < bi \/ (i = bi /\ j < bj)) /\
    exists a b, nth_error nodes i = Some a /\ nth_error nodes j = Some b /\
                near sq pw a b = true.

Section ConnectionsVocabulary.

Variable N : nat.
Variable s0 : State.
Variables ne sk ps : list Elem.
Variable nodes : list NeuralNode.
Variable container : Node.

(** The invariant of the two loops of [createNeuralConnections]. *)
Definition ConnInv (bi bj : nat) (s : State) : Prop :=
  exists ce pairs,
    Dom N s /\ Overlay_ok N s (ne ++ ce) sk ps /\
    overlay_write s0 s /\ listeners s = listeners s0 /\
    neuralNodes s = nodes /\
    Forall (made_by SConnection "neural-connection") ce /\
    map (fun e => Some (geometry e)) ce = map (line_of_pair sq pw at2 nodes) pairs /\
    covered nodes bi bj pairs /\
    nextSerial s0 <= nextSerial s /\
    Forall (fun e => nextSerial s0 <= serial_of (nid e)) ce.

(** The body of the inner loop of [createNeuralConnections]. *)
Definition connect (node otherNode : NeuralNode) : M unit :=
  let distance :=
    sq (pw (node_x node - node_x otherNode) 2 +
        pw (node_y node - node_y otherNode) 2) in
  if (distance <? 30)%float then
    connection <- createElement SConnection "div" ;;
    let connection := set_className "neural-connection" connection in
    let angle := at2 (node_y otherNode - node_y node)
                     (node_x otherNode - node_x node) in
    let connection := set_style "left" (CssNum (node_x node) "%") connection in
    let connection := set_style "top" (CssNum (node_y node) "%") connection in
    let connection := set_style "width" (CssNum distance "%") connection in
    let connection := set_style "transform" (CssCall "rotate" angle "rad") connection in
    r <- Math_random rv ;;
    let connection := set_style "animationDelay" (CssNum (r * 4) "s") connection in
    appendChildTo (Some container) (leaf connection)
  else ret tt.

End ConnectionsVocabulary.

End MethodsVocabulary.

(** ** What the set-up wires *)

(** The handlers of the pointer events. *)
Definition is_mouse_handler (h : Handler) : bool :=
  match h with
  | OnParticleEnd _ => false
  | _ => true
  end.

(** The listeners on a button and on a card. *)
Definition button_listeners (b : Node) : list Listener :=
  [mkListener (node_id b) mouseenter OnButtonHover;
   mkListener (node_id b) mouseleave OnButtonLeave].

Definition card_listeners (c : Node) : list Listener :=
  [mkListener (node_id c) mouseenter OnCardMouseMove;
   mkListener (node_id c) mouseleave OnCardMouseLeave].

(** The page once the icons have their class. *)
Definition bounce (icons : list Node) (b : Node) : Node :=
  fold_left (fun b icon => update (node_id icon) (classList_add "icon-bounce") b) icons b.

Definition bounce_state (icons : list Node) (s : State) : State :=
  fold_left (fun s icon => onDom (update (node_id icon) (classList_add "icon-bounce")) s)
            icons s.

(** The sheet with the keyframes of the ripple. *)
Definition rippleSheet : StyleElement :=
  mkStyleElement (Created SStyle 0)
    [Keyframes "ripple"
       [("to", [mkDecl "transform" (DText "scale(2)") false;
                mkDecl "opacity" (DText "0") false])]].

(** What holds of the fields the set-up does not write. *)
Record Booting (w : Z) (reduced : bool) (s : State) : Prop := {
  bt_width : innerWidth s = w;
  bt_reduced : isReducedMotion s = reduced;
  bt_head : headStyles s = [rippleSheet];
  bt_pending : rafPending s = [];
  bt_nextRaf : nextRaf s = 1;
  bt_attached : attached s = true;
  bt_timers : timers s = []
}.

(** The state while [init] runs: the page invariant, the overlay built so
    far, and the fields the set-up has not written yet. *)
Record Setup (w : Z) (reduced : bool) (N : nat) (nk sk ps : list Elem)
       (nn : list NeuralNode) (s : State) : Prop := {
  st_dom : Dom N s;
  st_bg : bgContainer s = Some (overlay nk sk ps);
  st_boot : Booting w reduced s;
  st_nodes : neuralNodes s = nn;
  st_frame : animationFrameId s = None
}.

(** What the set-up wires on a page: the targets of the observer, the
    pointer listeners, and the page with its icons marked. *)
Definition watched (page : Markup) : list NodeId :=
  map node_id
    (document_querySelectorAll
       [ByClass "fade-in-element"; ByClass "portal-card"; ByClass "hero-cta"]
       (load page)).

Definition wired (page : Markup) : list Listener :=
  flat_map button_listeners
    (document_querySelectorAll [ByClass "btn-primary"; ByClass "btn-secondary"] (load page)) ++
  flat_map card_listeners (document_querySelectorAll [ByClass "portal-card"] (load page)).

Definition served (page : Markup) : Node :=
  bounce (document_querySelectorAll [ByTag "svg"] (load page)) (load page).

(** The fields the set-up of the page has written. *)
Record Wired (bd : Node) (obs : list NodeId) (ptr : list Listener) (s : State)
  : Prop := {
  wd_particles : particles s = [];
  wd_resize : resizeTimeout s = None;
  wd_body : body s = bd;
  wd_observed : observed s = obs;
  wd_pointer : pointer_listeners s = ptr
}.

Section BootVocabulary.

Variable sq : float -> float.
Variable pw : float -> float -> float.
Variable at2 : float -> float -> float.

Local Abbreviation Inv := (Inv sq pw at2).

(** The sheet [disableAnimations] installs. *)
Definition reducedMotionSheet (serial : nat) : StyleElement :=
  mkStyleElement (Created SStyle serial)
    [Rule ["*"; "*::before"; "*::after"]
       [mkDecl "animation-duration" (DMs (1 # 100)) true;
        mkDecl "animation-iteration-count" (DText "1") true;
        mkDecl "transition-duration" (DMs (1 # 100)) true]].

(** The state the script leaves: the invariant, the counts of the bucket of
    the viewport, the network, the style sheets and a requested frame. *)
Record Booted (page : Markup) (w : Z) (reduced : bool) (s : State) : Prop := {
  bd_inv : Inv (particleCount w) None s;
  bd_shapes : count_in_overlay "hex-shape" s = shapeCount w;
  bd_particles : count_in_overlay "particle" s = particleCount w;
  bd_nodes : count_in_overlay "neural-node" s = nodeCount w;
  bd_entries : List.length (neuralNodes s) = nodeCount w;
  bd_head : exists serial,
      headStyles s = rippleSheet :: (if reduced then [reducedMotionSheet serial] else []);
  bd_pending : rafPending s = [1];
  bd_attached : attached s = true;
  bd_width : innerWidth s = w;
  bd_reduced : isReducedMotion s = reduced;
  bd_wired : Wired (served page) (watched page) (wired page) s;
  bd_timers : timers s = []
}.

End BootVocabulary.

(** ** Ripples, reveals and timers *)

(** The ripple [createRippleEffect] makes for [event] in state [s]. *)
Definition new_ripple (event : Event) (s : State) : Elem :=
  let rect := ev_rect event in
  let size := Math_max (rect_width rect) (rect_height rect) in
  let x := (clientX event - rect_left rect - size / 2)%float in
  let y := (clientY event - rect_top rect - size / 2)%float in
  set_cssText
    [("position", CssText "absolute");
     ("width", CssNum size "px");
     ("height", CssNum size "px");
     ("left", CssNum x "px");
     ("top", CssNum y "px");
     ("background", CssText "radial-gradient(circle, rgba(6, 182, 212, 0.6) 0%, transparent 70%)");
     ("border-radius", CssText "50%");
     ("transform", CssText "scale(0)");
     ("animation", CssText "ripple 0.6s ease-out forwards");
     ("pointer-events", CssText "none");
     ("z-index", CssText "0")]
    (mkElem (Created SRipple (nextSerial s)) "div" [] []).

(** Some element [id] of the tree carries the class. *)
Definition classed (cls : string) (id : NodeId) (n : Node) : bool :=
  existsb (fun e => NodeId_eqb (nid e) id && contains cls e) (elements n).

(** The timers [observerCallback] sets for the siblings of a group, from
    the index [index] on. *)
Fixpoint stagger (siblings : list Node) (index id : nat) (now : Z) : list Timer :=
  match siblings with
  | [] => []
  | sibling :: rest =>
      mkTimer id (now + Z.of_nat index * 200) (RevealSibling (nid (elem sibling)))
      :: stagger rest (S index) (S id) now
  end.

(** ** What a session keeps *)

(** The fields the set-up wrote once, and the pointer listeners. *)
Definition Still (s s' : State) : Prop :=
  particles s' = particles s /\ isReducedMotion s' = isReducedMotion s /\
  headStyles s' = headStyles s /\ prefersReducedMotion s' = prefersReducedMotion s /\
  observed s' = observed s /\ pointer_listeners s' = pointer_listeners s.

(** The frame loop's fields. *)
Definition Looping (s s' : State) : Prop :=
  animationFrameId s' = animationFrameId s /\ rafPending s' = rafPending s /\
  nextRaf s' = nextRaf s /\ lastTime s' = lastTime s.

(** The debounce of the resize handler. *)
Definition Debounce (s s' : State) : Prop :=
  resizeTimeout s' = resizeTimeout s /\ debounced s' = debounced s.

(** The traces in which the page is not torn down. *)
Definition no_destroy (trace : list Stimulus) : bool :=
  forallb (fun st => match st with Destroy => false | _ => true end) trace.

(** One callback is pending, and the controller holds its handle. *)
Definition Live (s : State) : Prop :=
  exists h, animationFrameId s = Some h /\ rafPending s = [h].

(** At most one run of the resize handler is pending, and it is the one
    [resizeTimeout] names. *)
Definition Debounced (s : State) : Prop :=
  List.length (debounced s) <= 1 /\
  forall tm, In tm (debounced s) -> resizeTimeout s = Some (timerId tm).

(** The pairs of positions [i < j < n], for counting. *)
Fixpoint all_pairs (n : nat) : list (nat * nat) :=
  match n with
  | 0 => []
  | S m => all_pairs m ++ map (fun i => (i, m)) (seq 0 m)
  end.

(** Every element [id] of the tree carries the class. *)
Definition all_classed (cls : string) (id : NodeId) (n : Node) : Prop :=
  Forall (fun e => nid e = id -> contains cls e = true) (elements n).

(** The removal of the ripple [x] is scheduled, at most 600ms ahead. *)
Definition ripple_pending (x : NodeId) (s : State) : Prop :=
  exists tm, In tm (timers s) /\ task tm = RemoveRipple x /\
             (due tm <= clock s + 600)%Z.

(** What a handler of the page may do to the timers and to the page:
    add timers under new identifiers, and add elements whose removal it
    schedules. *)
Definition Page (s s' : State) : Prop :=
  nextTimer s <= nextTimer s' /\
  resizeTimeout s' = resizeTimeout s /\
  clock s' = clock s /\
  incl (timers s) (timers s') /\
  (forall tm, In tm (timers s') ->
     In tm (timers s) \/ nextTimer s <= timerId tm < nextTimer s') /\
  (forall x, In x (ids (body s')) -> In x (ids (body s)) \/ ripple_pending x s').

(** The schedulers, untouched. *)
Definition Sched (s s' : State) : Prop :=
  timers s' = timers s /\ nextTimer s' = nextTimer s /\
  resizeTimeout s' = resizeTimeout s /\ clock s' = clock s.

(** The timers have identifiers of their own, [resizeTimeout] names a
    run of the resize handler only, and every ripple of the page has its
    removal scheduled. *)
Definition Hygiene (s : State) : Prop :=
  (forall tm, In tm (timers s) -> timerId tm < nextTimer s) /\
  (forall id, resizeTimeout s = Some id ->
     id < nextTimer s /\
     forall tm, In tm (timers s) -> timerId tm = id -> is_debounced tm = true) /\
  (forall k, In (Created SRipple k) (ids (body s)) ->
     ripple_pending (Created SRipple k) s).

(** ** A hidden element *)

(** The element [x] is without [in-view], and no reveal of it is due
    before [T]. *)
Definition Hidden (x : NodeId) (T : Z) (s : State) : Prop :=
  has_class "in-view" x s = false /\
  forall tm, In tm (timers s) -> task tm = RevealSibling x -> (T <= due tm)%Z.

(** What leaves a hidden element hidden: [x] gets no [in-view], and no
    reveal of [x] is scheduled. *)
Definition Veil (x : NodeId) (s s' : State) : Prop :=
  (classed "in-view" x (body s) = false -> classed "in-view" x (body s') = false) /\
  (forall tm, In tm (timers s') -> task tm = RevealSibling x -> In tm (timers s)).

(** The traces in which the observer reports no intersection and the
    clock stays before [T]. *)
Definition untriggered (T : Z) (trace : list Stimulus) : bool :=
  forallb (fun st =>
             match st with
             | Intersect entries => forallb (fun en => negb (snd en)) entries
             | Elapse t => (t <? T)%Z
             | _ => true
             end) trace.
(** * Reasoning about trees *)

Lemma Site_eqb_eq (a b : Site) : Site_eqb a b = true <-> a = b.
Proof. destruct a, b; simpl; split; intro H; try reflexivity; discriminate H. Qed.

Lemma NodeId_eqb_eq (a b : NodeId) : NodeId_eqb a b = true <-> a = b.
Proof.
  destruct a as [x|p x], b as [y|q y]; simpl; split; intro H; try discriminate H.
  - apply Nat.eqb_eq in H. now subst.
  - injection H as ->. apply Nat.eqb_refl.
  - apply andb_true_iff in H. destruct H as [H1 H2].
    apply Site_eqb_eq in H1. apply Nat.eqb_eq in H2. now subst.
  - injection H as -> ->. apply andb_true_iff. split.
    + now apply Site_eqb_eq.
    + apply Nat.eqb_refl.
Qed.

Lemma NodeId_eqb_refl (a : NodeId) : NodeId_eqb a a = true.
Proof. now apply NodeId_eqb_eq. Qed.

Lemma NodeId_eqb_neq (a b : NodeId) : NodeId_eqb a b = false <-> a <> b.
Proof.
  split.
  - intros H E. apply NodeId_eqb_eq in E. congruence.
  - intro H. destruct (NodeId_eqb a b) eqn:E; [|reflexivity].
    apply NodeId_eqb_eq in E. contradiction.
Qed.

Lemma NodeId_eqb_sym (a b : NodeId) : NodeId_eqb a b = NodeId_eqb b a.
Proof.
  destruct (NodeId_eqb b a) eqn:E.
  - apply NodeId_eqb_eq in E. subst. apply NodeId_eqb_refl.
  - apply NodeId_eqb_neq in E. apply NodeId_eqb_neq. congruence.
Qed.

(** Induction on a tree with the hypothesis for every child. *)
Lemma Node_induction (P : Node -> Prop) :
  (forall e ks, Forall P ks -> P (El e ks)) -> forall n, P n.
Proof.
  intro H.
  fix IH 1.
  intros [e ks]. apply H.
  induction ks as [|k ks IHks]; constructor.
  - apply IH.
  - exact IHks.
Qed.

Lemma ids_El e ks : ids (El e ks) = nid e :: flat_map ids ks.
Proof.
  unfold ids, elements. simpl. f_equal.
  induction ks as [|k ks IH]; simpl; [reflexivity|].
  rewrite !map_app, IH. reflexivity.
Qed.

Lemma map_same {A} (f : A -> A) (l : list A) :
  Forall (fun a => f a = a) l -> map f l = l.
Proof. induction 1; simpl; congruence. Qed.

Lemma not_in_flat_map {A B} (f : A -> list B) (b : B) (l : list A) :
  ~ In b (flat_map f l) -> Forall (fun a => ~ In b (f a)) l.
Proof.
  induction l as [|a l IH]; simpl; intro H; constructor.
  - intro Hin. apply H. apply in_or_app. now left.
  - apply IH. intro Hin. apply H. apply in_or_app. now right.
Qed.

Lemma absent_children id e ks :
  ~ In id (ids (El e ks)) ->
  NodeId_eqb (nid e) id = false /\ Forall (fun k => ~ In id (ids k)) ks.
Proof.
  rewrite ids_El. simpl. intro H. split.
  - apply NodeId_eqb_neq. intro E. apply H. now left.
  - apply not_in_flat_map. intro Hin. apply H. now right.
Qed.

Lemma Forall_impl_Forall {A} (P Q : A -> Prop) (l : list A) :
  Forall (fun a => P a -> Q a) l -> Forall P l -> Forall Q l.
Proof.
  induction 1; intro H1; inversion H1; subst; constructor; auto.
Qed.

Lemma update_absent id f n : ~ In id (ids n) -> update id f n = n.
Proof.
  induction n as [e ks IH] using Node_induction. intro H.
  apply absent_children in H. destruct H as [He Hks].
  simpl. rewrite He. f_equal. apply map_same.
  exact (@Forall_impl_Forall _ _ _ _ IH Hks).
Qed.

Lemma appendChild_absent id c n : ~ In id (ids n) -> appendChild id c n = n.
Proof.
  induction n as [e ks IH] using Node_induction. intro H.
  apply absent_children in H. destruct H as [He Hks].
  simpl. rewrite He. f_equal. apply map_same.
  exact (@Forall_impl_Forall _ _ _ _ IH Hks).
Qed.

Lemma clearChildren_absent id n : ~ In id (ids n) -> clearChildren id n = n.
Proof.
  induction n as [e ks IH] using Node_induction. intro H.
  apply absent_children in H. destruct H as [He Hks].
  simpl. rewrite He. f_equal. apply map_same.
  exact (@Forall_impl_Forall _ _ _ _ IH Hks).
Qed.

(** [removeNode] drops the children with the identity and descends into
    the others. *)
Lemma removeNode_El id e ks :
  removeNode id (El e ks) =
  El e (map (removeNode id)
          (filter (fun k => negb (NodeId_eqb (nid (elem k)) id)) ks)).
Proof.
  simpl. f_equal.
  induction ks as [|k ks IH]; simpl; [reflexivity|].
  destruct (NodeId_eqb (nid (elem k)) id); simpl; congruence.
Qed.

Lemma in_ids_root n : In (nid (elem n)) (ids n).
Proof. destruct n as [e ks]. rewrite ids_El. now left. Qed.

Lemma removeNode_absent id n : ~ In id (ids n) -> removeNode id n = n.
Proof.
  induction n as [e ks IH] using Node_induction. intro H.
  apply absent_children in H. destruct H as [He Hks].
  rewrite removeNode_El. f_equal.
  assert (Hf : filter (fun k => negb (NodeId_eqb (nid (elem k)) id)) ks = ks).
  { clear IH. induction Hks as [|k ks Hk Hks IHks]; simpl; [reflexivity|].
    assert (Hn : NodeId_eqb (nid (elem k)) id = false).
    { apply NodeId_eqb_neq. intro E. apply Hk. rewrite <- E. apply in_ids_root. }
    rewrite Hn. simpl. congruence. }
  rewrite Hf. apply map_same.
  exact (@Forall_impl_Forall _ _ _ _ IH Hks).
Qed.

Lemma path_to_absent id n : ~ In id (ids n) -> path_to id n = None.
Proof.
  induction n as [e ks IH] using Node_induction. intro H.
  apply absent_children in H. destruct H as [He Hks].
  simpl. rewrite He.
  assert (Hf : forall l, Forall (fun k => path_to id k = None) l ->
     (fix first (l : list Node) : option (list Node) :=
        match l with
        | [] => None
        | k :: r => match path_to id k with
                    | Some p => Some p
                    | None => first r
                    end
        end) l = None).
  { induction 1 as [|k l Hk Hl IHl]; [reflexivity|]. now rewrite Hk. }
  rewrite Hf; [reflexivity|].
  exact (@Forall_impl_Forall _ _ _ _ IH Hks).
Qed.

(** Identities survive a mutation that keeps them. *)
Lemma elements_update id f n :
  elements (update id f n) =
  map (fun e => if NodeId_eqb (nid e) id then f e else e) (elements n).
Proof.
  induction n as [e ks IH] using Node_induction.
  unfold elements in *. simpl. f_equal.
  induction IH as [|k ks Hk Hks IHks]; simpl; [reflexivity|].
  rewrite !map_app, Hk, IHks. reflexivity.
Qed.

Lemma ids_update id f n :
  (forall e, nid (f e) = nid e) -> ids (update id f n) = ids n.
Proof.
  intro Hf. unfold ids. rewrite elements_update, map_map.
  apply map_ext. intro e. destruct (NodeId_eqb (nid e) id); auto.
Qed.

Lemma leaves_subtrees (l : list Elem) : flat_map subtrees (map leaf l) = map leaf l.
Proof. induction l as [|e l IH]; simpl; [reflexivity|]. rewrite IH. reflexivity. Qed.

Lemma leaves_elem (l : list Elem) : map elem (map leaf l) = l.
Proof. induction l as [|e l IH]; simpl; [reflexivity|]. rewrite IH. reflexivity. Qed.

Lemma leaves_ids (l : list Elem) : flat_map ids (map leaf l) = map nid l.
Proof. induction l as [|e l IH]; simpl; [reflexivity|]. rewrite IH. reflexivity. Qed.

(** * The overlay under the script's operations *)

Lemma made_by_site site cls e : made_by site cls e -> site_of (nid e) = Some site.
Proof. intros [[k Hk] _]. now rewrite Hk. Qed.

Lemma net_kid_site e :
  net_kid e -> site_of (nid e) = Some SNode \/ site_of (nid e) = Some SConnection.
Proof. intros [H|H]; apply made_by_site in H; auto. Qed.

Lemma leaves_untouched (op : Node -> Node) (id : NodeId) (l : list Elem) :
  (forall n, ~ In id (ids n) -> op n = n) ->
  Forall (fun e => nid e <> id) l ->
  map op (map leaf l) = map leaf l.
Proof.
  intros Hop Hl. apply map_same. apply Forall_forall.
  intros n Hn. apply in_map_iff in Hn. destruct Hn as [e [<- He]].
  apply Hop. unfold ids, elements. simpl. intros [E|[]].
  rewrite Forall_forall in Hl. exact (Hl e He E).
Qed.

Lemma made_by_apart site cls id l :
  Forall (made_by site cls) l -> site_of id <> Some site ->
  Forall (fun e => nid e <> id) l.
Proof.
  intros Hl Hid. eapply Forall_impl; [|exact Hl].
  intros e He E. apply made_by_site in He. congruence.
Qed.

Lemma net_kid_apart id l :
  Forall net_kid l -> site_of id <> Some SNode -> site_of id <> Some SConnection ->
  Forall (fun e => nid e <> id) l.
Proof.
  intros Hl H1 H2. eapply Forall_impl; [|exact Hl].
  intros e He E. apply net_kid_site in He. destruct He; congruence.
Qed.

Lemma Overlay_ok_Kids N s nk sk ps :
  Overlay_ok N s nk sk ps -> Kids nk sk ps.
Proof. intros []. now constructor. Qed.

Lemma ids_overlay nk sk ps :
  ids (overlay nk sk ps) =
  nid bgElem :: nid gridElem :: (nid networkElem :: map nid nk) ++
  (nid shapesElem :: map nid sk) ++ map nid ps.
Proof.
  unfold overlay. rewrite ids_El. cbn [flat_map leaf].
  rewrite !ids_El, !leaves_ids. reflexivity.
Qed.

Lemma overlay_not_page nk sk ps :
  Kids nk sk ps -> Forall (fun id => page_id id = false) (ids (overlay nk sk ps)).
Proof.
  intros [Hn Hs Hp]. rewrite ids_overlay.
  repeat (apply Forall_cons; [reflexivity|]).
  apply Forall_app. split; [|apply Forall_cons; [reflexivity|apply Forall_app; split]].
  - apply Forall_forall. intros id Hid. apply in_map_iff in Hid.
    destruct Hid as [e [<- He]]. rewrite Forall_forall in Hn.
    destruct (Hn e He) as [[[k Hk] _]|[[k Hk] _]]; now rewrite Hk.
  - apply Forall_forall. intros id Hid. apply in_map_iff in Hid.
    destruct Hid as [e [<- He]]. rewrite Forall_forall in Hs.
    destruct (Hs e He) as [[k Hk] _]. now rewrite Hk.
  - apply Forall_forall. intros id Hid. apply in_map_iff in Hid.
    destruct Hid as [e [<- He]]. rewrite Forall_forall in Hp.
    destruct (Hp e He) as [[k Hk] _]. now rewrite Hk.
Qed.

Lemma page_id_not_in_overlay id nk sk ps :
  Kids nk sk ps -> page_id id = true -> ~ In id (ids (overlay nk sk ps)).
Proof.
  intros HK Hid Hin. pose proof (overlay_not_page nk sk ps HK) as H.
  rewrite Forall_forall in H. specialize (H id Hin). congruence.
Qed.

Lemma overlay_id_not_in_body id b :
  Forall (fun i => page_id i = true) (ids b) -> page_id id = false -> ~ In id (ids b).
Proof.
  intros H Hid Hin. rewrite Forall_forall in H. specialize (H id Hin). congruence.
Qed.

Ltac untouched :=
  solve [ intros ?; apply appendChild_absent
        | intros ?; apply clearChildren_absent
        | eapply made_by_apart; [eassumption|discriminate]
        | apply net_kid_apart; [assumption|discriminate|discriminate] ].

(** Appending to the layers and to the background. *)
Lemma overlay_append_shape nk sk ps e :
  Kids nk sk ps ->
  appendChild (nid shapesElem) (leaf e) (overlay nk sk ps) = overlay nk (sk ++ [e]) ps.
Proof.
  intros [Hn Hs Hp]. unfold overlay. cbn -[leaf].
  rewrite (@leaves_untouched (appendChild (Created SLayer 4) (leaf e)) (Created SLayer 4) nk) by untouched.
  rewrite (@leaves_untouched (appendChild (Created SLayer 4) (leaf e)) (Created SLayer 4) sk) by untouched.
  rewrite (@leaves_untouched (appendChild (Created SLayer 4) (leaf e)) (Created SLayer 4) ps) by untouched.
  rewrite map_app. reflexivity.
Qed.

Lemma overlay_append_net nk sk ps e :
  Kids nk sk ps ->
  appendChild (nid networkElem) (leaf e) (overlay nk sk ps) = overlay (nk ++ [e]) sk ps.
Proof.
  intros [Hn Hs Hp]. unfold overlay. cbn -[leaf].
  rewrite (@leaves_untouched (appendChild (Created SLayer 3) (leaf e)) (Created SLayer 3) nk) by untouched.
  rewrite (@leaves_untouched (appendChild (Created SLayer 3) (leaf e)) (Created SLayer 3) sk) by untouched.
  rewrite (@leaves_untouched (appendChild (Created SLayer 3) (leaf e)) (Created SLayer 3) ps) by untouched.
  rewrite map_app. reflexivity.
Qed.

Lemma overlay_append_particle nk sk ps e :
  Kids nk sk ps ->
  appendChild (nid bgElem) (leaf e) (overlay nk sk ps) = overlay nk sk (ps ++ [e]).
Proof.
  intros [Hn Hs Hp]. unfold overlay. cbn -[leaf].
  rewrite (@leaves_untouched (appendChild (Created SBackground 1) (leaf e)) (Created SBackground 1) nk) by untouched.
  rewrite (@leaves_untouched (appendChild (Created SBackground 1) (leaf e)) (Created SBackground 1) sk) by untouched.
  rewrite (@leaves_untouched (appendChild (Created SBackground 1) (leaf e)) (Created SBackground 1) ps) by untouched.
  rewrite map_app. reflexivity.
Qed.

Lemma overlay_clear_shapes nk sk ps :
  Kids nk sk ps ->
  clearChildren (nid shapesElem) (overlay nk sk ps) = overlay nk [] ps.
Proof.
  intros [Hn Hs Hp]. unfold overlay. cbn -[leaf].
  rewrite (@leaves_untouched (clearChildren (Created SLayer 4)) (Created SLayer 4) nk) by untouched.
  rewrite (@leaves_untouched (clearChildren (Created SLayer 4)) (Created SLayer 4) ps) by untouched.
  reflexivity.
Qed.

Lemma overlay_clear_net nk sk ps :
  Kids nk sk ps ->
  clearChildren (nid networkElem) (overlay nk sk ps) = overlay [] sk ps.
Proof.
  intros [Hn Hs Hp]. unfold overlay. cbn -[leaf].
  rewrite (@leaves_untouched (clearChildren (Created SLayer 3)) (Created SLayer 3) sk) by untouched.
  rewrite (@leaves_untouched (clearChildren (Created SLayer 3)) (Created SLayer 3) ps) by untouched.
  reflexivity.
Qed.

Lemma filter_leaves (p : Node -> bool) (l : list Elem) :
  filter p (map leaf l) = map leaf (filter (fun e => p (leaf e)) l).
Proof.
  induction l as [|e l IH]; simpl; [reflexivity|].
  destruct (p (leaf e)); simpl; congruence.
Qed.

Lemma removeNode_leaves id (l : list Elem) :
  map (removeNode id) (map leaf l) = map leaf l.
Proof. induction l as [|e l IH]; simpl; [reflexivity|]. now rewrite IH. Qed.

(** Removing a particle takes it out of the background's children and
    leaves the layers alone. *)
Lemma overlay_remove_particle nk sk ps k :
  Kids nk sk ps ->
  removeNode (Created SParticle k) (overlay nk sk ps) =
  overlay nk sk (filter (fun e => negb (NodeId_eqb (nid e) (Created SParticle k))) ps).
Proof.
  intros [Hn Hs Hp]. unfold overlay. rewrite removeNode_El.
  cbn -[removeNode]. rewrite filter_leaves, removeNode_leaves.
  rewrite (@removeNode_absent (Created SParticle k) (El networkElem (map leaf nk))),
          (@removeNode_absent (Created SParticle k) (El shapesElem (map leaf sk))).
  - reflexivity.
  - rewrite ids_El, leaves_ids. intros [E|Hin]; [discriminate E|].
    apply in_map_iff in Hin. destruct Hin as [e [E He]].
    rewrite Forall_forall in Hs. apply Hs in He. apply made_by_site in He.
    rewrite E in He. discriminate He.
  - rewrite ids_El, leaves_ids. intros [E|Hin]; [discriminate E|].
    apply in_map_iff in Hin. destruct Hin as [e [E He]].
    rewrite Forall_forall in Hn. apply Hn in He. apply net_kid_site in He.
    rewrite E in He. destruct He as [He|He]; discriminate He.
Qed.

(** A mutation through a page identity does not reach the overlay. *)
Lemma overlay_page_update id f nk sk ps :
  Kids nk sk ps -> page_id id = true ->
  update id f (overlay nk sk ps) = overlay nk sk ps.
Proof. intros HK Hid. apply update_absent. now apply page_id_not_in_overlay. Qed.

Lemma overlay_page_append id c nk sk ps :
  Kids nk sk ps -> page_id id = true ->
  appendChild id c (overlay nk sk ps) = overlay nk sk ps.
Proof. intros HK Hid. apply appendChild_absent. now apply page_id_not_in_overlay. Qed.

Lemma overlay_page_remove id nk sk ps :
  Kids nk sk ps -> page_id id = true ->
  removeNode id (overlay nk sk ps) = overlay nk sk ps.
Proof. intros HK Hid. apply removeNode_absent. now apply page_id_not_in_overlay. Qed.

(** Queries on the overlay. *)
Lemma descendants_overlay nk sk ps :
  descendants (overlay nk sk ps) =
  leaf gridElem :: (El networkElem (map leaf nk) :: map leaf nk) ++
  (El shapesElem (map leaf sk) :: map leaf sk) ++ map leaf ps.
Proof.
  unfold descendants, overlay. cbn -[leaf map subtrees flat_map].
  cbn [flat_map]. rewrite leaves_subtrees.
  cbn [subtrees leaf flat_map app]. rewrite !leaves_subtrees. reflexivity.
Qed.

Lemma matches_made_by sels site cls e :
  made_by site cls e -> matches sels (leaf e) = existsb (sel_hits cls) sels.
Proof.
  intros [_ [Ht Hc]]. unfold matches. simpl elem.
  induction sels as [|sel sels IH]; simpl; [reflexivity|].
  rewrite IH. f_equal. destruct sel as [c|t]; simpl.
  - unfold contains. rewrite Hc. simpl. apply orb_false_r.
  - now rewrite Ht.
Qed.

Lemma filter_made_by sels site cls (l : list Elem) :
  Forall (made_by site cls) l ->
  filter (matches sels) (map leaf l) =
  if existsb (sel_hits cls) sels then map leaf l else [].
Proof.
  intro Hl. induction Hl as [|e l He Hl IH]; simpl.
  - now destruct (existsb (sel_hits cls) sels).
  - fold (leaf e). rewrite (matches_made_by sels _ _ _ He), IH.
    now destruct (existsb (sel_hits cls) sels).
Qed.

Lemma filter_net_kids sels (l : list Elem) :
  Forall net_kid l ->
  filter (matches sels) (map leaf l) =
  map leaf (filter (fun e => if is_made_by SNode e
                             then existsb (sel_hits "neural-node") sels
                             else existsb (sel_hits "neural-connection") sels) l).
Proof.
  intro Hl. induction Hl as [|e l He Hl IH]; simpl; [reflexivity|].
  fold (leaf e). rewrite IH. destruct He as [He|He].
  - rewrite (matches_made_by sels _ _ _ He). unfold is_made_by.
    rewrite (made_by_site _ _ _ He). simpl.
    now destruct (existsb (sel_hits "neural-node") sels).
  - rewrite (matches_made_by sels _ _ _ He). unfold is_made_by.
    rewrite (made_by_site _ _ _ He). simpl.
    now destruct (existsb (sel_hits "neural-connection") sels).
Qed.

Lemma querySelectorAll_overlay sels nk sk ps :
  Kids nk sk ps ->
  querySelectorAll sels (overlay nk sk ps) =
  filter (matches sels) [leaf gridElem; El networkElem (map leaf nk)] ++
  map leaf (filter (fun e => if is_made_by SNode e
                             then existsb (sel_hits "neural-node") sels
                             else existsb (sel_hits "neural-connection") sels) nk) ++
  filter (matches sels) [El shapesElem (map leaf sk)] ++
  (if existsb (sel_hits "hex-shape") sels then map leaf sk else []) ++
  (if existsb (sel_hits "particle") sels then map leaf ps else []).
Proof.
  intros [Hn Hs Hp]. unfold querySelectorAll. rewrite descendants_overlay.
  change (leaf gridElem :: (El networkElem (map leaf nk) :: map leaf nk) ++
          (El shapesElem (map leaf sk) :: map leaf sk) ++ map leaf ps)
    with ([leaf gridElem; El networkElem (map leaf nk)] ++ map leaf nk ++
          [El shapesElem (map leaf sk)] ++ map leaf sk ++ map leaf ps).
  rewrite !filter_app.
  rewrite (filter_net_kids sels nk Hn), (filter_made_by sels _ _ sk Hs), (filter_made_by sels _ _ ps Hp).
  reflexivity.
Qed.

Lemma filter_none {A} (l : list A) : filter (fun _ => false) l = [].
Proof. induction l; simpl; auto. Qed.

Lemma filter_all {A} (l : list A) : filter (fun _ => true) l = l.
Proof. induction l; simpl; congruence. Qed.

Lemma filter_same_none {A} (b : A -> bool) (l : list A) :
  filter (fun e => if b e then false else false) l = [].
Proof. induction l as [|a l IH]; simpl; [reflexivity|]. destruct (b a); exact IH. Qed.

Lemma querySelector_shapes nk sk ps :
  Kids nk sk ps ->
  querySelector [ByClass "floating-shapes"] (overlay nk sk ps) =
  Some (El shapesElem (map leaf sk)).
Proof.
  intro HK. unfold querySelector. rewrite (querySelectorAll_overlay _ nk sk ps HK).
  cbn -[leaf map]. rewrite filter_same_none. reflexivity.
Qed.

Lemma querySelector_network nk sk ps :
  Kids nk sk ps ->
  querySelector [ByClass "neural-network"] (overlay nk sk ps) =
  Some (El networkElem (map leaf nk)).
Proof.
  intro HK. unfold querySelector. rewrite (querySelectorAll_overlay _ nk sk ps HK).
  reflexivity.
Qed.

Lemma in_overlay_shapes s nk sk ps :
  bgContainer s = Some (overlay nk sk ps) -> Kids nk sk ps ->
  in_overlay "hex-shape" s = map leaf sk.
Proof.
  intros Hbg HK. unfold in_overlay. rewrite Hbg, (querySelectorAll_overlay _ nk sk ps HK).
  cbn -[leaf map]. rewrite filter_same_none. simpl. apply app_nil_r.
Qed.

Lemma in_overlay_particles s nk sk ps :
  bgContainer s = Some (overlay nk sk ps) -> Kids nk sk ps ->
  in_overlay "particle" s = map leaf ps.
Proof.
  intros Hbg HK. unfold in_overlay. rewrite Hbg, (querySelectorAll_overlay _ nk sk ps HK).
  cbn -[leaf map]. rewrite filter_same_none. reflexivity.
Qed.

Lemma in_overlay_nodes s nk sk ps :
  bgContainer s = Some (overlay nk sk ps) -> Kids nk sk ps ->
  in_overlay "neural-node" s = map leaf (filter (is_made_by SNode) nk).
Proof.
  intros Hbg HK. unfold in_overlay. rewrite Hbg, (querySelectorAll_overlay _ nk sk ps HK).
  cbn. rewrite ?app_nil_r. f_equal. apply filter_ext.
  intro e. now destruct (is_made_by SNode e).
Qed.

Lemma in_overlay_connections s nk sk ps :
  bgContainer s = Some (overlay nk sk ps) -> Kids nk sk ps ->
  in_overlay "neural-connection" s =
  map leaf (filter (fun e => negb (is_made_by SNode e)) nk).
Proof.
  intros Hbg HK. unfold in_overlay. rewrite Hbg, (querySelectorAll_overlay _ nk sk ps HK).
  cbn. rewrite ?app_nil_r. reflexivity.
Qed.

(** No element of the overlay answers a selector the page uses. *)
Lemma overlay_blind sels nk sk ps :
  Kids nk sk ps ->
  forallb (fun sel => match sel with
                      | ByClass c =>
                          negb (existsb (String.eqb c)
                                  ["futuristic-bg"; "digital-grid"; "neural-network";
                                   "floating-shapes"; "hex-shape"; "particle";
                                   "neural-node"; "neural-connection"])
                      | ByTag t => negb (String.eqb t "div")
                      end) sels = true ->
  Forall (fun n => matches sels n = false) (subtrees (overlay nk sk ps)).
Proof.
  intros HK Hsels.
  assert (Hcls : forall cls,
    In cls ["futuristic-bg"; "digital-grid"; "neural-network"; "floating-shapes";
            "hex-shape"; "particle"; "neural-node"; "neural-connection"] ->
    existsb (sel_hits cls) sels = false).
  { intros cls Hcls. induction sels as [|sel sels IH]; [reflexivity|].
    simpl in Hsels. apply andb_true_iff in Hsels. destruct Hsels as [H1 H2].
    simpl. rewrite (IH H2), orb_false_r.
    destruct sel as [c|t]; simpl in *.
    - destruct (String.eqb c cls) eqn:E; [|reflexivity].
      apply String.eqb_eq in E. subst c. exfalso.
      apply negb_true_iff in H1.
      assert (Ht : existsb (String.eqb cls)
        ["futuristic-bg"; "digital-grid"; "neural-network"; "floating-shapes";
         "hex-shape"; "particle"; "neural-node"; "neural-connection"] = true).
      { apply existsb_exists. exists cls. split; [exact Hcls|apply String.eqb_refl]. }
      simpl in Ht. congruence.
    - now apply negb_true_iff in H1. }
  assert (Hm : forall site cls e,
    In cls ["futuristic-bg"; "digital-grid"; "neural-network"; "floating-shapes";
            "hex-shape"; "particle"; "neural-node"; "neural-connection"] ->
    made_by site cls e -> forall ks, matches sels (El e ks) = false).
  { intros site cls e Hin He ks.
    change (matches sels (El e ks)) with (matches sels (leaf e)).
    rewrite (matches_made_by sels _ _ _ He). now apply Hcls. }
  destruct HK as [Hn Hs Hp].
  change (subtrees (overlay nk sk ps))
    with (overlay nk sk ps :: descendants (overlay nk sk ps)).
  rewrite descendants_overlay.
  assert (Hstruct : forall site k cls ks,
    In cls ["futuristic-bg"; "digital-grid"; "neural-network"; "floating-shapes";
            "hex-shape"; "particle"; "neural-node"; "neural-connection"] ->
    matches sels (El (mkElem (Created site k) "div" [cls] []) ks) = false).
  { intros site k cls ks Hin. apply (Hm site cls); [exact Hin|].
    repeat split. now exists k. }
  constructor; [apply Hstruct; simpl; tauto|].
  constructor; [apply Hstruct; simpl; tauto|].
  apply Forall_app. split.
  { constructor; [apply Hstruct; simpl; tauto|].
    apply Forall_forall. intros n Hin. apply in_map_iff in Hin.
    destruct Hin as [e [<- He]]. rewrite Forall_forall in Hn.
    destruct (Hn e He) as [H|H]; eapply Hm; try exact H; simpl; tauto. }
  apply Forall_app. split.
  { constructor; [apply Hstruct; simpl; tauto|].
    apply Forall_forall. intros n Hin. apply in_map_iff in Hin.
    destruct Hin as [e [<- He]]. rewrite Forall_forall in Hs.
    eapply Hm; [|exact (Hs e He)]. simpl; tauto. }
  apply Forall_forall. intros n Hin. apply in_map_iff in Hin.
  destruct Hin as [e [<- He]]. rewrite Forall_forall in Hp.
  eapply Hm; [|exact (Hp e He)]. simpl; tauto.
Qed.

Lemma filter_made_by_other site cls id (l : list Elem) :
  Forall (made_by site cls) l -> site_of id <> Some site ->
  filter (fun e => negb (NodeId_eqb (nid e) id)) l = l.
Proof.
  intros Hl Hid. induction Hl as [|e l He Hl IH]; simpl; [reflexivity|].
  assert (Hn : NodeId_eqb (nid e) id = false).
  { apply NodeId_eqb_neq. intro E. apply made_by_site in He. congruence. }
  rewrite Hn. simpl. now rewrite IH.
Qed.

(** [bgContainer.remove()] detaches the overlay and leaves it whole. *)
Lemma overlay_remove_bg nk sk ps :
  Kids nk sk ps ->
  removeNode (nid bgElem) (overlay nk sk ps) = overlay nk sk ps.
Proof.
  intros [Hn Hs Hp]. unfold overlay. rewrite removeNode_El.
  cbn -[removeNode]. rewrite filter_leaves, removeNode_leaves.
  change (fun e : Elem => negb (NodeId_eqb (nid (elem (leaf e))) (Created SBackground 1)))
    with (fun e : Elem => negb (NodeId_eqb (nid e) (Created SBackground 1))).
  rewrite (filter_made_by_other SParticle "particle" (Created SBackground 1) ps Hp)
    by discriminate.
  rewrite (@removeNode_absent (Created SBackground 1) (El networkElem (map leaf nk))),
          (@removeNode_absent (Created SBackground 1) (El shapesElem (map leaf sk))).
  - reflexivity.
  - rewrite ids_El, leaves_ids. intros [E|Hin]; [discriminate E|].
    apply in_map_iff in Hin. destruct Hin as [e [E He]].
    rewrite Forall_forall in Hs. apply Hs in He. apply made_by_site in He.
    rewrite E in He. discriminate He.
  - rewrite ids_El, leaves_ids. intros [E|Hin]; [discriminate E|].
    apply in_map_iff in Hin. destruct Hin as [e [E He]].
    rewrite Forall_forall in Hn. apply Hn in He. apply net_kid_site in He.
    rewrite E in He. destruct He as [He|He]; discriminate He.
Qed.

(** * Rules for computations of the script *)

Lemma total_ret {A} (P : State -> Prop) (a : A) : total P (ret a) (fun r s => r = a /\ P s).
Proof. intros s H. exists a, s. now split. Qed.

Lemma total_bind {A B} (P : State -> Prop) (Q : A -> State -> Prop)
      (R : B -> State -> Prop) (m : M A) (k : A -> M B) :
  total P m Q -> (forall a, total (Q a) (k a) R) -> total P (bind m k) R.
Proof.
  intros Hm Hk s Hs. destruct (Hm s Hs) as [a [s1 [E1 H1]]].
  destruct (Hk a s1 H1) as [b [s2 [E2 H2]]].
  exists b, s2. split; [|exact H2]. unfold bind. now rewrite E1.
Qed.

Lemma total_weaken {A} (P P' : State -> Prop) (Q Q' : A -> State -> Prop) (m : M A) :
  total P m Q -> (forall s, P' s -> P s) -> (forall a s, Q a s -> Q' a s) ->
  total P' m Q'.
Proof.
  intros Hm HP HQ s Hs. destruct (Hm s (HP s Hs)) as [a [s' [E H]]].
  exists a, s'. split; [exact E|]. now apply HQ.
Qed.

Lemma total_for_from (I : nat -> State -> Prop) (body : nat -> M unit) n i :
  (forall j, total (I j) (body j) (fun _ => I (S j))) ->
  total (I i) (for_from n i body) (fun _ => I (n + i)).
Proof.
  intro Hbody. revert i. induction n as [|n IH]; intros i s Hs.
  - exists tt, s. now split.
  - destruct (Hbody i s Hs) as [[] [s1 [E1 H1]]].
    destruct (IH (S i) s1 H1) as [[] [s2 [E2 H2]]].
    exists tt, s2. split.
    + simpl. unfold bind. now rewrite E1.
    + now rewrite <- Nat.add_succ_comm in H2.
Qed.

(** The invariant of a [forEach] is indexed by the items already
    visited. *)
Lemma total_forEach_from {A} (I : list A -> State -> Prop) (f : A -> nat -> M unit)
      (l : list A) (k : nat) :
  (forall done a rest, l = done ++ a :: rest ->
     total (I done) (f a (k + List.length done)) (fun _ => I (done ++ [a]))) ->
  total (I []) (forEach_from l k f) (fun _ => I l).
Proof.
  assert (H : forall rest done k', l = done ++ rest -> k' = k + List.length done ->
    (forall done a rest, l = done ++ a :: rest ->
       total (I done) (f a (k + List.length done)) (fun _ => I (done ++ [a]))) ->
    total (I done) (forEach_from rest k' f) (fun _ => I l)).
  { induction rest as [|a rest IH]; intros done k' El Ek Hf s Hs.
    - rewrite app_nil_r in El. subst. exists tt, s. now split.
    - destruct (Hf done a rest El s Hs) as [[] [s1 [E1 H1]]].
      destruct (IH (done ++ [a]) (S k')) with (s := s1) as [[] [s2 [E2 H2]]].
      + now rewrite <- app_assoc.
      + rewrite length_app. simpl. lia.
      + exact Hf.
      + exact H1.
      + exists tt, s2. split; [|exact H2].
        simpl. unfold bind. subst k'. now rewrite E1. }
  intro Hf. apply (H l [] k); [reflexivity|simpl; lia|exact Hf].
Qed.

Lemma total_forEach {A} (I : list A -> State -> Prop) (f : A -> nat -> M unit)
      (l : list A) :
  (forall done a rest, l = done ++ a :: rest ->
     total (I done) (f a (List.length done)) (fun _ => I (done ++ [a]))) ->
  total (I []) (forEach l f) (fun _ => I l).
Proof. intro H. unfold forEach. apply total_forEach_from. exact H. Qed.

(** A loop whose invariant does not look at the items. *)
Lemma total_forEach_inv {A} (I : State -> Prop) (P : A -> Prop) (f : A -> nat -> M unit)
      (l : list A) :
  Forall P l ->
  (forall a j, P a -> total I (f a j) (fun _ => I)) ->
  total I (forEach l f) (fun _ => I).
Proof.
  intros Hl Hf. apply (total_forEach (fun _ => I)).
  intros done a rest E. apply Hf. rewrite Forall_forall in Hl. apply Hl.
  rewrite E. apply in_or_app. right. now left.
Qed.

(** * Frames *)

Lemma overlay_write_refl s : overlay_write s s.
Proof. destruct s. reflexivity. Qed.

Lemma overlay_write_trans s1 s2 s3 :
  overlay_write s1 s2 -> overlay_write s2 s3 -> overlay_write s1 s3.
Proof.
  unfold overlay_write. destruct s1, s2, s3. cbn.
  intros H1 H2. inversion H1. inversion H2. subst. reflexivity.
Qed.

Lemma page_write_refl s : page_write s s.
Proof. destruct s. reflexivity. Qed.

Lemma page_write_trans s1 s2 s3 :
  page_write s1 s2 -> page_write s2 s3 -> page_write s1 s3.
Proof.
  unfold page_write. destruct s1, s2, s3. cbn.
  intros H1 H2. inversion H1. inversion H2. subst. reflexivity.
Qed.

Lemma listener_ok_mono n n' l : n <= n' -> listener_ok n l -> listener_ok n' l.
Proof.
  unfold listener_ok. intros Hn. destruct (l_handler l); try exact (fun H => H).
  intros [H1 [H2 [k [H3 H4]]]]. repeat split; try assumption.
  exists k. split; [assumption|lia].
Qed.

Lemma Raf_frame fz s s' :
  animationFrameId s' = animationFrameId s -> rafPending s' = rafPending s ->
  nextRaf s' = nextRaf s -> attached s' = attached s -> lastTime s' = lastTime s ->
  Raf fz s -> Raf fz s'.
Proof.
  intros E1 E2 E3 E4 E5 [H1 H2 H3]. constructor.
  - now rewrite E1, E2.
  - now rewrite E3.
  - destruct fz as [[lt af]|]; [|exact I]. now rewrite E1, E2, E4, E5.
Qed.

Lemma Raf_overlay_write fz s s' : overlay_write s s' -> Raf fz s -> Raf fz s'.
Proof. intro H. apply Raf_frame; rewrite H; reflexivity. Qed.

Lemma Raf_page_write fz s s' : page_write s s' -> Raf fz s -> Raf fz s'.
Proof. intro H. apply Raf_frame; rewrite H; reflexivity. Qed.

(** * What a method leaves alone *)

Section Keeps.

Context {R : State -> State -> Prop} `{FrameRel R}.

Lemma keeps_ret {A} (a : A) : keeps R (ret a).
Proof. intros s a' s' E. injection E as _ <-. apply rel_refl. Qed.

Lemma keeps_gets {A} (f : State -> A) : keeps R (gets f).
Proof. intros s a' s' E. injection E as _ <-. apply rel_refl. Qed.

Lemma keeps_throw {A} : keeps R (@throw A).
Proof. intros s a' s' E. discriminate E. Qed.

Lemma keeps_bind {A B} (m : M A) (k : A -> M B) :
  keeps R m -> (forall a, keeps R (k a)) -> keeps R (bind m k).
Proof.
  intros Hm Hk s b s' E. unfold bind in E.
  destruct (m s) as [[a s1]|] eqn:Em; [|discriminate E].
  apply (rel_trans s s1 s'); [exact (Hm s a s1 Em)|exact (Hk a s1 b s' E)].
Qed.

Lemma keeps_for_from n : forall i body,
  (forall j, keeps R (body j)) -> keeps R (for_from n i body).
Proof.
  induction n as [|n IH]; intros i body Hb; cbn [for_from].
  - apply keeps_ret.
  - apply keeps_bind; [apply Hb|intro; now apply IH].
Qed.

Lemma keeps_for_loop n body :
  (forall j, keeps R (body j)) -> keeps R (for_loop n body).
Proof. apply keeps_for_from. Qed.

Lemma keeps_forEach_from {A} (l : list A) : forall k f,
  (forall a j, keeps R (f a j)) -> keeps R (forEach_from l k f).
Proof.
  induction l as [|a l IH]; intros k f Hf; cbn [forEach_from].
  - apply keeps_ret.
  - apply keeps_bind; [apply Hf|intro; now apply IH].
Qed.

Lemma keeps_forEach {A} (l : list A) f :
  (forall a j, keeps R (f a j)) -> keeps R (forEach l f).
Proof. apply keeps_forEach_from. Qed.

End Keeps.

Lemma keeps_forEach_Forall {A} (R : State -> State -> Prop) `{FrameRel R}
      (l : list A) f :
  Forall (fun a => forall j, keeps R (f a j)) l -> keeps R (forEach l f).
Proof.
  unfold forEach. intro Hl. generalize 0.
  induction Hl as [|a l Ha Hl IH]; intro k; cbn [forEach_from].
  - apply keeps_ret.
  - apply keeps_bind; [apply Ha|intro; apply IH].
Qed.

Lemma keeps_weaken {A} (R R' : State -> State -> Prop) (m : M A) :
  (forall s s', R s s' -> R' s s') -> keeps R m -> keeps R' m.
Proof. intros HR Hm s a s' E. apply HR. exact (Hm s a s' E). Qed.

(** A primitive of the library: run it, and look at the state it
    leaves. *)
Ltac keeps_open :=
  let s := fresh "s" in
  let a := fresh "a" in
  let s' := fresh "s'" in
  let E := fresh "E" in
  intros s a s' E;
  cbv beta iota zeta delta
      [ret gets modify throw createElement this_bgContainer deref
       setTimeout clearTimeout requestAnimationFrame cancelAnimationFrame
       addEventListener element_remove appendChildTo clearInnerHTML] in E;
  repeat match type of E with
         | context [match ?x with _ => _ end] => destruct x eqn:?
         end;
  try discriminate E;
  injection E as ? ?; subst.

Ltac keeps_leaf :=
  keeps_open;
  repeat split; cbn; rewrite ?filter_app; cbn; rewrite ?app_nil_r; reflexivity.

Ltac keeps_with leaf :=
  repeat first
    [ solve [auto with keeps]
    | apply keeps_ret
    | apply keeps_gets
    | apply keeps_throw
    | apply keeps_bind; [|intro]
    | apply keeps_for_loop; intro
    | apply keeps_forEach; intros ? ?
    | lazymatch goal with
      | |- keeps _ (if ?b then _ else _) => destruct b
      | |- keeps _ (match ?x with _ => _ end) => destruct x
      end
    | solve [leaf] ].

Ltac keeps_go := keeps_with keeps_leaf.

#[export] Instance Quiet_FrameRel : FrameRel Quiet.
Proof.
  split.
  - intro s. unfold Quiet. tauto.
  - intros a b c. unfold Quiet. intuition congruence.
Qed.

Create HintDb keeps.

Section QuietMethods.

Variable rv : nat -> float.
Variable sq : float -> float.
Variable pw : float -> float -> float.
Variable at2 : float -> float -> float.

Lemma Quiet_random : keeps Quiet (Math_random rv).
Proof.
  intros s a s' E. unfold Math_random in E. injection E as _ <-.
  repeat split.
Qed.

#[local] Hint Resolve Quiet_random : keeps.

Lemma Quiet_createFloatingShapes : keeps Quiet (createFloatingShapes rv).
Proof. unfold createFloatingShapes. keeps_go. Qed.

Lemma Quiet_createParticle : keeps Quiet (createParticle rv).
Proof. unfold createParticle. keeps_go. Qed.

#[local] Hint Resolve Quiet_createFloatingShapes Quiet_createParticle : keeps.

Lemma Quiet_initParticleSystem : keeps Quiet (initParticleSystem rv).
Proof. unfold initParticleSystem. keeps_go. Qed.

Lemma Quiet_createNeuralConnections c :
  keeps Quiet (createNeuralConnections rv sq pw at2 c).
Proof. unfold createNeuralConnections. keeps_go. Qed.

#[local] Hint Resolve Quiet_createNeuralConnections : keeps.

Lemma Quiet_createNeuralNetwork : keeps Quiet (createNeuralNetwork rv sq pw at2).
Proof. unfold createNeuralNetwork. keeps_go. Qed.

#[local] Hint Resolve Quiet_createNeuralNetwork : keeps.

Lemma Quiet_handleResize : keeps Quiet (handleResize rv sq pw at2).
Proof. unfold handleResize. keeps_go. Qed.

Lemma Quiet_createRippleEffect t ev : keeps Quiet (createRippleEffect t ev).
Proof. unfold createRippleEffect. keeps_go. Qed.

#[local] Hint Resolve Quiet_handleResize Quiet_createRippleEffect : keeps.

Lemma Quiet_invoke l ev : keeps Quiet (invoke rv l ev).
Proof.
  unfold invoke, onButtonHover, onButtonLeave, onCardMouseMove, onCardMouseLeave.
  keeps_go.
Qed.

#[local] Hint Resolve Quiet_invoke : keeps.

Lemma Quiet_dispatchEvent ev : keeps Quiet (dispatchEvent rv ev).
Proof. unfold dispatchEvent. keeps_go. Qed.

Lemma Quiet_observerCallback entries : keeps Quiet (observerCallback entries).
Proof. unfold observerCallback. keeps_go. Qed.

Lemma Quiet_run_task t : keeps Quiet (run_task rv sq pw at2 t).
Proof. unfold run_task. keeps_go. Qed.

End QuietMethods.

(** * The page invariant under the writes of the script *)

Lemma Dom_frame N s s' :
  bgContainer s' = bgContainer s -> body s' = body s ->
  listeners s' = listeners s -> nextSerial s <= nextSerial s' ->
  timers s' = timers s -> observed s' = observed s ->
  Dom N s -> Dom N s'.
Proof.
  intros Ebg Eb El En Et Eo [[nk [sk [ps Hov]]] Hr Hb Hl Htg Htm Hob].
  constructor.
  - exists nk, sk, ps. destruct Hov as [H1 H2 H3 H4 H5 H6 H7 H8].
    constructor; try assumption.
    + congruence.
    + eapply Forall_impl; [|exact H5]. simpl. intros; lia.
    + now rewrite El.
  - now rewrite Eb.
  - now rewrite Eb.
  - rewrite El. eapply Forall_impl; [|exact Hl].
    intros l. now apply listener_ok_mono.
  - now rewrite El.
  - now rewrite Et.
  - now rewrite Eo.
Qed.

Lemma map_leaf_inj (l l' : list Elem) : map leaf l = map leaf l' -> l = l'.
Proof.
  revert l'. induction l as [|e l IH]; intros [|e' l'] H; try discriminate H.
  - reflexivity.
  - simpl in H. injection H as He Hl. f_equal; auto.
Qed.

Lemma overlay_inj nk sk ps nk' sk' ps' :
  overlay nk sk ps = overlay nk' sk' ps' -> nk = nk' /\ sk = sk' /\ ps = ps'.
Proof.
  unfold overlay. intro H. injection H as H1 H2 H3.
  repeat split; now apply map_leaf_inj.
Qed.

Lemma Some_overlay_inj nk sk ps nk' sk' ps' :
  Some (overlay nk sk ps) = Some (overlay nk' sk' ps') ->
  nk = nk' /\ sk = sk' /\ ps = ps'.
Proof.
  intro H. apply overlay_inj.
  exact (f_equal (fun o => match o with Some x => x | None => overlay nk sk ps end) H).
Qed.

Lemma Overlay_ok_unique N N' s nk sk ps nk' sk' ps' :
  Overlay_ok N s nk sk ps -> Overlay_ok N' s nk' sk' ps' ->
  nk = nk' /\ sk = sk' /\ ps = ps'.
Proof.
  intros [H _ _ _ _ _ _ _] [H' _ _ _ _ _ _ _]. rewrite H in H'.
  now apply Some_overlay_inj.
Qed.

(** Layers rebuilt or extended: the particles stay. *)
Lemma Dom_layers N s s' nk sk ps nk' sk' :
  Dom N s -> Overlay_ok N s nk sk ps ->
  overlay_write s s' -> listeners s' = listeners s ->
  nextSerial s <= nextSerial s' ->
  bgContainer s' = Some (overlay nk' sk' ps) ->
  Forall net_kid nk' -> Forall (made_by SShape "hex-shape") sk' ->
  Forall (fun e => serial_of (nid e) < nextSerial s') (nk' ++ sk') ->
  Dom N s' /\ Overlay_ok N s' nk' sk' ps.
Proof.
  intros [_ Hr Hb Hl Htg Htm Hob] Hov Hw El En Ebg Hnk Hsk Hser.
  assert (Hov' : Overlay_ok N s' nk' sk' ps).
  { destruct Hov as [H1 H2 H3 H4 H5 H6 H7 H8]. constructor; try assumption.
    - rewrite app_assoc. apply Forall_app. split; [exact Hser|].
      rewrite !Forall_app in H5. destruct H5 as [_ [_ H5]].
      eapply Forall_impl; [|exact H5]. simpl. intros; lia.
    - now rewrite El. }
  split; [|exact Hov'].
  constructor.
  - now exists nk', sk', ps.
  - rewrite Hw. exact Hr.
  - rewrite Hw. exact Hb.
  - rewrite El. eapply Forall_impl; [|exact Hl].
    intros l. now apply listener_ok_mono.
  - now rewrite El.
  - rewrite Hw. exact Htm.
  - rewrite Hw. exact Hob.
Qed.

Lemma particle_targets_app ls ls' :
  particle_targets (ls ++ ls') = particle_targets ls ++ particle_targets ls'.
Proof. unfold particle_targets. now rewrite filter_app, map_app. Qed.

Lemma particle_target_serial n ls id :
  Forall (listener_ok n) ls -> In id (particle_targets ls) ->
  exists k, id = Created SParticle k /\ k < n.
Proof.
  intros Hls Hin. unfold particle_targets in Hin.
  apply in_map_iff in Hin. destruct Hin as [l [<- Hl]].
  apply filter_In in Hl. destruct Hl as [Hl Ht].
  rewrite Forall_forall in Hls. specialize (Hls l Hl).
  unfold listener_ok in Hls.
  destruct (l_handler l) eqn:Eh;
    try (destruct Hls as [_ Hne]; exfalso; apply Hne;
         destruct (l_type l); try discriminate Ht; reflexivity).
  destruct Hls as [H1 [_ [k [H3 H4]]]]. exists k. split; [congruence|exact H4].
Qed.

(** A particle appended with its listener. *)
Lemma Dom_add_particle N s s' nk sk ps e :
  Dom N s -> Overlay_ok N s nk sk ps ->
  overlay_write s s' ->
  listeners s' = listeners s ++ [mkListener (nid e) animationend (OnParticleEnd (nid e))] ->
  nextSerial s' = S (nextSerial s) ->
  bgContainer s' = Some (overlay nk sk (ps ++ [e])) ->
  made_by SParticle "particle" e -> nid e = Created SParticle (nextSerial s) ->
  Dom (S N) s' /\ Overlay_ok (S N) s' nk sk (ps ++ [e]).
Proof.
  intros [_ Hr Hb Hl Htg Htm Hob] Hov Hw El En Ebg He Hid.
  assert (Hov' : Overlay_ok (S N) s' nk sk (ps ++ [e])).
  { destruct Hov as [H1 H2 H3 H4 H5 H6 H7 H8]. constructor; try assumption.
    - apply Forall_app. split; [assumption|]. now constructor.
    - rewrite !app_assoc. apply Forall_app. split.
      + rewrite <- app_assoc. eapply Forall_impl; [|exact H5]. simpl. intros; lia.
      + constructor; [|constructor]. rewrite Hid, En. simpl. lia.
    - rewrite map_app. simpl. apply NoDup_app; [exact H6|repeat constructor; intros []|].
      intros id Hin [<-|[]]. apply in_map_iff in Hin. destruct Hin as [e' [E He']].
      rewrite Forall_forall in H5.
      assert (He'' : In e' (nk ++ sk ++ ps)) by (apply in_or_app; right; apply in_or_app; now right).
      specialize (H5 e' He''). rewrite E, Hid in H5.
      simpl in H5. lia.
    - rewrite length_app, H7. simpl. lia.
    - rewrite El. apply Forall_app. split.
      + eapply Forall_impl; [|exact H8]. intros a Ha. apply in_or_app. now left.
      + constructor; [|constructor]. apply in_or_app. right. now left. }
  split; [|exact Hov'].
  constructor.
  - now exists nk, sk, (ps ++ [e]).
  - rewrite Hw. exact Hr.
  - rewrite Hw. exact Hb.
  - rewrite El. apply Forall_app. split.
    + eapply Forall_impl; [|exact Hl]. intros l. apply listener_ok_mono. lia.
    + constructor; [|constructor]. unfold listener_ok. simpl.
      repeat split. exists (nextSerial s). split; [exact Hid|lia].
  - rewrite El, particle_targets_app. simpl.
    apply NoDup_app; [exact Htg|repeat constructor; intros []|].
    intros id Hin [<-|[]].
    simpl in Hin.
    destruct (@particle_target_serial _ _ _ Hl Hin) as [k [E Hk]].
    rewrite Hid in E. injection E as E. lia.
  - rewrite Hw. exact Htm.
  - rewrite Hw. exact Hob.
Qed.

(** Serial numbers stay below the counter when an element made at the
    counter joins. *)
Lemma serials_extend n (old new : list Elem) :
  Forall (fun e => serial_of (nid e) < n) old ->
  (forall x, In x new -> In x old \/ serial_of (nid x) = n) ->
  Forall (fun e => serial_of (nid e) < S n) new.
Proof.
  intros Hold Hnew. apply Forall_forall. intros x Hx.
  destruct (Hnew x Hx) as [H|H]; [|lia].
  rewrite Forall_forall in Hold. specialize (Hold x H). simpl in Hold. lia.
Qed.

Lemma serials_keep n n' (old new : list Elem) :
  Forall (fun e => serial_of (nid e) < n) old -> n <= n' ->
  incl new old ->
  Forall (fun e => serial_of (nid e) < n') new.
Proof.
  intros Hold Hn Hnew. apply Forall_forall. intros x Hx.
  rewrite Forall_forall in Hold. specialize (Hold x (Hnew x Hx)). simpl in Hold. lia.
Qed.

Lemma NoDup_map_filter {A B} (f : A -> B) (g : A -> bool) (l : list A) :
  NoDup (map f l) -> NoDup (map f (filter g l)).
Proof.
  induction l as [|a l IH]; simpl; intro H; [constructor|].
  inversion H as [|x xs Hx Hxs]; subst.
  destruct (g a); simpl; [|auto].
  constructor; [|auto].
  intro Hin. apply Hx. apply in_map_iff in Hin. destruct Hin as [a' [E Ha']].
  apply filter_In in Ha'. apply in_map_iff. exists a'. tauto.
Qed.

Lemma filter_out_length (l : list Elem) (p : NodeId) :
  NoDup (map nid l) -> In p (map nid l) ->
  S (List.length (filter (fun e => negb (NodeId_eqb (nid e) p)) l)) = List.length l.
Proof.
  induction l as [|a l IH]; simpl; intros Hnd Hin; [contradiction|].
  inversion Hnd as [|x xs Hx Hxs]; subst.
  destruct (NodeId_eqb (nid a) p) eqn:E; simpl.
  - apply NodeId_eqb_eq in E. subst p. f_equal.
    f_equal. clear IH Hnd Hin Hxs. induction l as [|b l IH]; simpl; [reflexivity|].
    destruct (NodeId_eqb (nid b) (nid a)) eqn:E; simpl.
    + apply NodeId_eqb_eq in E. exfalso. apply Hx. simpl. now left.
    + f_equal. apply IH. intro H. apply Hx. simpl. now right.
  - f_equal. apply IH; [exact Hxs|].
    destruct Hin as [Hin|Hin]; [|exact Hin].
    apply NodeId_eqb_neq in E. contradiction.
Qed.

(** A particle taken out. *)
Lemma Dom_remove_particle N s s' nk sk ps p :
  Dom N s -> Overlay_ok N s nk sk ps -> In p (map nid ps) ->
  overlay_write s s' -> listeners s' = listeners s ->
  nextSerial s' = nextSerial s ->
  bgContainer s' =
    Some (overlay nk sk (filter (fun e => negb (NodeId_eqb (nid e) p)) ps)) ->
  exists N', N = S N' /\ Dom N' s' /\
    Overlay_ok N' s' nk sk (filter (fun e => negb (NodeId_eqb (nid e) p)) ps).
Proof.
  intros [_ Hr Hb Hl Htg Htm Hob] Hov Hin Hw El En Ebg.
  destruct Hov as [H1 H2 H3 H4 H5 H6 H7 H8].
  pose proof (filter_out_length ps p H6 Hin) as Hlen.
  exists (List.length (filter (fun e => negb (NodeId_eqb (nid e) p)) ps)).
  assert (Hov' : Overlay_ok
            (List.length (filter (fun e => negb (NodeId_eqb (nid e) p)) ps)) s' nk sk
            (filter (fun e => negb (NodeId_eqb (nid e) p)) ps)).
  { constructor; try assumption.
    - now apply incl_Forall with (l1 := ps); [apply incl_filter|].
    - rewrite En. apply (serials_keep (nextSerial s) (nextSerial s) (nk ++ sk ++ ps));
        [exact H5|lia|].
      intros x Hx. rewrite !in_app_iff in *.
      destruct Hx as [Hx|[Hx|Hx]]; [tauto|tauto|].
      apply filter_In in Hx. tauto.
    - now apply NoDup_map_filter.
    - reflexivity.
    - rewrite El. now apply incl_Forall with (l1 := ps); [apply incl_filter|]. }
  split; [congruence|]. split; [|exact Hov'].
  constructor.
  - eexists _, _, _. exact Hov'.
  - rewrite Hw. exact Hr.
  - rewrite Hw. exact Hb.
  - rewrite El, En. exact Hl.
  - now rewrite El.
  - rewrite Hw. exact Htm.
  - rewrite Hw. exact Hob.
Qed.

(** * The methods *)

Ltac js :=
  cbv beta iota zeta delta
      [bind ret gets modify throw createElement Math_random this_bgContainer
       appendChildTo clearInnerHTML addEventListener setTimeout clearTimeout
       requestAnimationFrame cancelAnimationFrame onDom];
  cbn [option_map elem
       set_neuralNodes set_controller set_animationFrameId set_lastTime
       set_bgContainer set_trees set_attached set_headStyles set_innerWidth
       set_observed set_listeners set_timers set_resizeTimeout set_clock set_raf
       set_nextSerial set_randomCalls
       particles neuralNodes isReducedMotion animationFrameId lastTime bgContainer
       body attached headStyles innerWidth prefersReducedMotion observed listeners
       timers nextTimer resizeTimeout clock rafPending nextRaf nextSerial randomCalls].

Ltac js_in H := repeat (progress (js; rewrite ?H)).

Ltac serials Hold :=
  cbn [nextSerial set_trees set_nextSerial set_randomCalls set_neuralNodes
       set_listeners set_bgContainer];
  first
    [ eapply serials_extend; [exact Hold|];
      intros x Hx; rewrite !in_app_iff in *; simpl in Hx;
      repeat match goal with
             | H : _ \/ _ |- _ => destruct H
             end;
      subst; try contradiction; first [right; reflexivity | left; solve [auto 8]]
    | eapply serials_keep; [exact Hold|lia|];
      intros x Hx; rewrite !in_app_iff in *; simpl in Hx;
      repeat match goal with
             | H : _ \/ _ |- _ => destruct H
             end;
      try contradiction; solve [auto 8] ].

Lemma made_by_styled site cls k st :
  made_by site cls (mkElem (Created site k) "div" [cls] st).
Proof. repeat split. now exists k. Qed.

Lemma overlay_id_absent N s id c :
  Dom N s -> page_id id = false -> appendChild id c (body s) = body s.
Proof.
  intros HD Hid. apply appendChild_absent.
  apply overlay_id_not_in_body; [apply HD|exact Hid].
Qed.

Lemma overlay_id_clear N s id :
  Dom N s -> page_id id = false -> clearChildren id (body s) = body s.
Proof.
  intros HD Hid. apply clearChildren_absent.
  apply overlay_id_not_in_body; [apply HD|exact Hid].
Qed.

Section Methods.

Variable rv : nat -> float.
Variable sq : float -> float.
Variable pw : float -> float -> float.
Variable at2 : float -> float -> float.

Lemma createFloatingShapes_spec N s nk sk ps :
  Dom N s -> Overlay_ok N s nk sk ps ->
  exists s' new,
    createFloatingShapes rv s = Some (tt, s') /\
    Dom N s' /\ Overlay_ok N s' nk (sk ++ new) ps /\
    overlay_write s s' /\ listeners s' = listeners s /\
    neuralNodes s' = neuralNodes s /\
    nextSerial s <= nextSerial s' /\
    List.length new = shapeCount (innerWidth s) /\
    Forall (fun e => nextSerial s <= serial_of (nid e)) new.
Proof.
  intros HD Hov.
  pose (I := fun (j : nat) (s1 : State) => exists new,
    Dom N s1 /\ Overlay_ok N s1 nk (sk ++ new) ps /\
    overlay_write s s1 /\ listeners s1 = listeners s /\
    neuralNodes s1 = neuralNodes s /\
    nextSerial s <= nextSerial s1 /\
    List.length new = j /\
    Forall (fun e => nextSerial s <= serial_of (nid e)) new).
  unfold createFloatingShapes. js. rewrite (ov_bg Hov). js.
  rewrite (querySelector_shapes _ _ _ (Overlay_ok_Kids _ _ _ _ _ Hov)).
  fold (shapeCount (innerWidth s)). unfold for_loop.
  match goal with
  | |- exists s' new, for_from ?n 0 ?body s = _ /\ _ =>
      destruct (total_for_from I body n 0) with (s := s) as [[] [s' [E [new H]]]]
  end.
  - intros j s1 [new [HD1 [Hov1 [Hw1 [El1 [Enn1 [Hn1 [Hlen1 Hfr1]]]]]]]].
    js. rewrite (ov_bg Hov1). js.
    rewrite (overlay_append_shape _ _ _ _ (Overlay_ok_Kids _ _ _ _ _ Hov1)).
    rewrite (overlay_id_absent N s1); [|exact HD1|reflexivity].
    fold (new_shape rv s1).
    eexists tt, _. split; [reflexivity|].
    exists (new ++ [new_shape rv s1]). rewrite app_assoc.
    lazymatch goal with
    | |- Dom _ ?s2 /\ _ =>
        destruct (Dom_layers N s1 s2 nk (sk ++ new) ps nk ((sk ++ new) ++ [new_shape rv s1]))
          as [HD2 Hov2]; try assumption;
          [reflexivity | reflexivity | cbn; lia | reflexivity | apply (ov_net Hov1) |
          | serials (ov_serials Hov1) |]
    end.
    + apply Forall_app. split; [apply (ov_shapes Hov1)|].
      constructor; [|constructor]. apply made_by_styled.
    + split; [exact HD2|]. split; [exact Hov2|].
      split; [eapply overlay_write_trans; [exact Hw1|]; reflexivity|].
      split; [exact El1|]. split; [exact Enn1|].
      split; [cbn; lia|].
      split; [rewrite length_app; simpl; lia|].
      apply Forall_app. split; [exact Hfr1|]. constructor; [|constructor].
      simpl. exact Hn1.
  - exists (@nil Elem). rewrite app_nil_r.
    split; [exact HD|]. split; [exact Hov|].
    split; [apply overlay_write_refl|].
    split; [reflexivity|]. split; [reflexivity|]. split; [lia|].
    split; [reflexivity|constructor].
  - exists s', new. rewrite Nat.add_0_r in H. split; [exact E|]. exact H.
Qed.

Lemma createParticle_spec N s nk sk ps :
  Dom N s -> Overlay_ok N s nk sk ps ->
  exists s',
    createParticle rv s = Some (tt, s') /\
    Dom (S N) s' /\ Overlay_ok (S N) s' nk sk (ps ++ [new_particle rv s]) /\
    overlay_write s s' /\ neuralNodes s' = neuralNodes s /\
    nextSerial s' = S (nextSerial s).
Proof.
  intros HD Hov. unfold createParticle. js_in (ov_bg Hov).
  change (nid (elem (overlay nk sk ps))) with (nid bgElem).
  rewrite (overlay_append_particle _ _ _ _ (Overlay_ok_Kids _ _ _ _ _ Hov)).
  rewrite (overlay_id_absent N s); [|exact HD|reflexivity].
  fold (new_particle rv s).
  eexists. split; [reflexivity|].
  lazymatch goal with
  | |- Dom _ ?s2 /\ _ =>
      destruct (Dom_add_particle N s s2 nk sk ps (new_particle rv s))
        as [HD2 Hov2]; try assumption; try reflexivity
  end.
  - apply made_by_styled.
  - split; [exact HD2|]. split; [exact Hov2|].
    split; [reflexivity|]. split; reflexivity.
Qed.

Lemma initParticleSystem_spec N s nk sk ps :
  Dom N s -> Overlay_ok N s nk sk ps ->
  exists s' new,
    initParticleSystem rv s = Some (tt, s') /\
    Dom (N + particleCount (innerWidth s)) s' /\
    Overlay_ok (N + particleCount (innerWidth s)) s' nk sk (ps ++ new) /\
    overlay_write s s' /\ neuralNodes s' = neuralNodes s.
Proof.
  intros HD Hov.
  pose (I := fun (j : nat) (s1 : State) => exists new,
    Dom (N + j) s1 /\ Overlay_ok (N + j) s1 nk sk (ps ++ new) /\
    overlay_write s s1 /\ neuralNodes s1 = neuralNodes s).
  unfold initParticleSystem. js.
  fold (particleCount (innerWidth s)). unfold for_loop.
  match goal with
  | |- exists s' new, for_from ?n 0 ?body s = _ /\ _ =>
      destruct (total_for_from I body n 0) with (s := s) as [[] [s' [E [new H]]]]
  end.
  - intros j s1 [new [HD1 [Hov1 [Hw1 Enn1]]]].
    destruct (createParticle_spec _ _ _ _ _ HD1 Hov1)
      as [s2 [E2 [HD2 [Hov2 [Hw2 [Enn2 En2]]]]]].
    exists tt, s2. split; [exact E2|].
    exists (new ++ [new_particle rv s1]). rewrite app_assoc.
    rewrite <- plus_n_Sm.
    split; [exact HD2|]. split; [exact Hov2|].
    split; [eapply overlay_write_trans; eassumption|congruence].
  - exists (@nil Elem). rewrite app_nil_r, Nat.add_0_r.
    split; [exact HD|]. split; [exact Hov|].
    split; [apply overlay_write_refl|reflexivity].
  - exists s', new. rewrite Nat.add_0_r in H. split; [exact E|exact H].
Qed.

(** ** The neural network *)

Lemma geometry_new_connection s a b :
  geometry (new_connection rv sq pw at2 s a b) = line sq pw at2 a b.
Proof. reflexivity. Qed.

Lemma covered_start nodes : covered sq pw nodes 0 0 [].
Proof.
  split; [constructor|]. intros i j. split; [intros []|].
  intros [_ [[H|[_ H]] _]]; lia.
Qed.

Lemma covered_skip nodes bi bj pairs a b :
  covered sq pw nodes bi bj pairs ->
  nth_error nodes bi = Some a -> nth_error nodes bj = Some b ->
  near sq pw a b = false ->
  covered sq pw nodes bi (S bj) pairs.
Proof.
  intros [Hnd Hin] Ha Hb Hnear. split; [exact Hnd|].
  intros i j. rewrite Hin. split.
  - intros [H1 [H2 H3]]. split; [exact H1|]. split; [lia|exact H3].
  - intros [H1 [H2 H3]]. split; [exact H1|]. split; [|exact H3].
    destruct H2 as [H2|[H2 H4]]; [now left|].
    destruct (Nat.eq_dec j bj) as [->|Hne]; [|right; lia].
    subst i. destruct H3 as [a' [b' [Ha' [Hb' Hn']]]]. congruence.
Qed.

Lemma covered_add nodes bi bj pairs a b :
  covered sq pw nodes bi bj pairs -> bi < bj ->
  nth_error nodes bi = Some a -> nth_error nodes bj = Some b ->
  near sq pw a b = true ->
  covered sq pw nodes bi (S bj) (pairs ++ [(bi, bj)]).
Proof.
  intros [Hnd Hin] Hlt Ha Hb Hnear. split.
  - apply NoDup_app; [exact Hnd|repeat constructor; intros []|].
    intros p Hp [<-|[]]. apply Hin in Hp. lia.
  - intros i j. rewrite in_app_iff, Hin. simpl. split.
    + intros [[H1 [H2 H3]]|[E|[]]].
      * split; [exact H1|]. split; [lia|exact H3].
      * injection E as <- <-. split; [exact Hlt|]. split; [right; lia|].
        now exists a, b.
    + intros [H1 [H2 H3]].
      destruct H2 as [H2|[H2 H4]]; [left; tauto|].
      destruct (Nat.eq_dec j bj) as [->|Hne].
      * right. left. now subst.
      * left. split; [exact H1|]. split; [right; lia|exact H3].
Qed.

Lemma covered_same nodes bi bj bi' bj' pairs :
  covered sq pw nodes bi bj pairs ->
  (forall i j, i < j -> j < List.length nodes ->
     ((i < bi \/ (i = bi /\ j < bj)) <-> (i < bi' \/ (i = bi' /\ j < bj')))) ->
  covered sq pw nodes bi' bj' pairs.
Proof.
  intros [Hnd Hin] Heq. split; [exact Hnd|].
  intros i j. rewrite Hin. split; intros [H1 [H2 H3]].
  - split; [exact H1|]. split; [|exact H3].
    destruct H3 as [a [b [_ [Hb _]]]].
    apply Heq; [exact H1| |exact H2]. apply nth_error_Some. congruence.
  - split; [exact H1|]. split; [|exact H3].
    destruct H3 as [a [b [_ [Hb _]]]].
    apply Heq; [exact H1| |exact H2]. apply nth_error_Some. congruence.
Qed.

Lemma covered_all nodes bj pairs :
  covered sq pw nodes (List.length nodes) bj pairs -> near_pairs sq pw nodes pairs.
Proof.
  intros [Hnd Hin]. split; [exact Hnd|].
  intros i j. rewrite Hin. split.
  - intros [H1 [_ H3]]. now split.
  - intros [H1 H3]. split; [exact H1|]. split; [|exact H3].
    destruct H3 as [a [b [Ha _]]]. left. apply nth_error_Some. congruence.
Qed.

Section Connections.

Variable N : nat.
Variable s0 : State.
Variables ne sk ps : list Elem.
Variable nodes : list NeuralNode.
Variable container : Node.
Hypothesis container_id : nid (elem container) = nid networkElem.
Hypothesis nodes_made : Forall (made_by SNode "neural-node") ne.

Lemma connect_spec bi bj a b :
  bi < bj -> nth_error nodes bi = Some a -> nth_error nodes bj = Some b ->
  total (ConnInv sq pw at2 N s0 ne sk ps nodes bi bj)
        (connect rv sq pw at2 container a b)
        (fun _ => ConnInv sq pw at2 N s0 ne sk ps nodes bi (S bj)).
Proof.
  intros Hlt Ha Hb s
    [ce [pairs [HD [Hov [Hw [El [Enn [Hce [Hgeo [Hcov [Hn Hfr]]]]]]]]]]].
  unfold connect.
  change (sq (pw (node_x a - node_x b) 2 + pw (node_y a - node_y b) 2))
    with (distance sq pw a b).
  change (distance sq pw a b <? 30)%float with (near sq pw a b).
  destruct (near sq pw a b) eqn:Hnear.
  - js_in (ov_bg Hov). rewrite container_id.
    rewrite (overlay_append_net _ _ _ _ (Overlay_ok_Kids _ _ _ _ _ Hov)).
    rewrite (overlay_id_absent N s); [|exact HD|reflexivity].
    fold (new_connection rv sq pw at2 s a b).
    eexists tt, _. split; [reflexivity|].
    exists (ce ++ [new_connection rv sq pw at2 s a b]), (pairs ++ [(bi, bj)]).
    rewrite app_assoc.
    lazymatch goal with
    | |- Dom _ ?s2 /\ _ =>
        destruct (Dom_layers N s s2 (ne ++ ce) sk ps
                    ((ne ++ ce) ++ [new_connection rv sq pw at2 s a b]) sk)
          as [HD2 Hov2]; try assumption;
          [reflexivity | reflexivity | cbn; lia | reflexivity | | apply (ov_shapes Hov)
          | serials (ov_serials Hov) |]
    end.
    + apply Forall_app. split; [apply (ov_net Hov)|].
      constructor; [|constructor]. right. apply made_by_styled.
    + split; [exact HD2|]. split; [exact Hov2|].
      split; [eapply overlay_write_trans; [exact Hw|]; reflexivity|].
      split; [exact El|]. split; [exact Enn|].
      split; [apply Forall_app; split; [exact Hce|];
              constructor; [apply made_by_styled|constructor]|].
      split; [rewrite !map_app, Hgeo; simpl; unfold line_of_pair; simpl;
              rewrite Ha, Hb; reflexivity|].
      split; [now apply covered_add with (a := a) (b := b)|].
      split; [cbn; lia|].
      apply Forall_app. split; [exact Hfr|]. constructor; [|constructor].
      simpl. exact Hn.
  - exists tt, s. split; [reflexivity|].
    exists ce, pairs. repeat (split; [assumption|]).
    split; [now apply covered_skip with (a := a) (b := b)|].
    split; assumption.
Qed.

Lemma ConnInv_same bi bj bi' bj' s :
  ConnInv sq pw at2 N s0 ne sk ps nodes bi bj s ->
  (forall i j, i < j -> j < List.length nodes ->
     ((i < bi \/ (i = bi /\ j < bj)) <-> (i < bi' \/ (i = bi' /\ j < bj')))) ->
  ConnInv sq pw at2 N s0 ne sk ps nodes bi' bj' s.
Proof.
  intros [ce [pairs [HD [Hov [Hw [El [Enn [Hce [Hgeo [Hcov [Hn Hfr]]]]]]]]]]] Heq.
  exists ce, pairs. repeat (split; [assumption|]).
  split; [now apply covered_same with (bi := bi) (bj := bj)|].
  split; assumption.
Qed.

Lemma ConnInv_nodes bi bj s :
  ConnInv sq pw at2 N s0 ne sk ps nodes bi bj s -> neuralNodes s = nodes.
Proof. intros [ce [pairs H]]. tauto. Qed.

(** The inner loop, for the node [a] at position [i]. *)
Lemma connect_others_spec i a :
  nth_error nodes i = Some a ->
  total (ConnInv sq pw at2 N s0 ne sk ps nodes i (i + 1))
        (forEach (skipn (i + 1) nodes) (fun otherNode _ => connect rv sq pw at2 container a otherNode))
        (fun _ => ConnInv sq pw at2 N s0 ne sk ps nodes (S i) (S i + 1)).
Proof.
  intro Ha.
  eapply total_weaken.
  - apply (total_forEach
             (fun done => ConnInv sq pw at2 N s0 ne sk ps nodes i (i + 1 + List.length done))
             (fun otherNode _ => connect rv sq pw at2 container a otherNode)).
    intros done b rest E.
    eapply total_weaken.
    + apply (connect_spec i (i + 1 + List.length done) a b); [lia|exact Ha|].
      rewrite <- nth_error_skipn, E, nth_error_app2 by lia.
      now rewrite Nat.sub_diag.
    + intros s H. exact H.
    + intros [] s H. rewrite length_app. simpl.
      replace (i + 1 + (List.length done + 1)) with (S (i + 1 + List.length done)) by lia.
      exact H.
  - intros s H. simpl. now rewrite Nat.add_0_r.
  - intros [] s H. eapply ConnInv_same; [exact H|].
    intros i' j' Hlt Hj. rewrite length_skipn.
    assert (Hi : i < List.length nodes) by (apply nth_error_Some; congruence).
    lia.
Qed.

Lemma createNeuralConnections_unfold :
  createNeuralConnections rv sq pw at2 (Some container) =
  (nodes <- gets neuralNodes ;;
   forEach nodes (fun node index =>
     nodes <- gets neuralNodes ;;
     forEach (skipn (index + 1) nodes) (fun otherNode _ => connect rv sq pw at2 container node otherNode))).
Proof. reflexivity. Qed.

Lemma createNeuralConnections_total :
  total (fun s => ConnInv sq pw at2 N s0 ne sk ps nodes 0 0 s)
        (createNeuralConnections rv sq pw at2 (Some container))
        (fun _ s => ConnInv sq pw at2 N s0 ne sk ps nodes (List.length nodes) (List.length nodes + 1) s).
Proof.
  rewrite createNeuralConnections_unfold.
  intros s Hs. unfold bind at 1, gets at 1.
  rewrite (ConnInv_nodes 0 0 s Hs).
  apply (total_forEach
           (fun done => ConnInv sq pw at2 N s0 ne sk ps nodes (List.length done) (List.length done + 1))).
  - intros done a rest E s1 H1. unfold bind, gets.
    rewrite (ConnInv_nodes _ _ s1 H1).
    destruct (connect_others_spec (List.length done) a) with (s := s1)
      as [[] [s2 [E2 H2]]].
    + rewrite E, nth_error_app2 by lia. now rewrite Nat.sub_diag.
    + exact H1.
    + exists tt, s2. split; [exact E2|].
      rewrite length_app. simpl.
      now replace (List.length done + 1) with (S (List.length done)) by lia.
  - eapply ConnInv_same; [exact Hs|]. simpl. intros; lia.
Qed.

End Connections.

Lemma createNeuralNetwork_spec N s sk ps :
  Dom N s -> Overlay_ok N s [] sk ps -> neuralNodes s = [] ->
  exists s' ne ce pairs,
    createNeuralNetwork rv sq pw at2 s = Some (tt, s') /\
    Dom N s' /\ Overlay_ok N s' (ne ++ ce) sk ps /\
    overlay_write s s' /\ listeners s' = listeners s /\
    Forall (made_by SNode "neural-node") ne /\
    map nid ne = map element (neuralNodes s') /\
    List.length ne = nodeCount (innerWidth s) /\
    Forall (made_by SConnection "neural-connection") ce /\
    map (fun e => Some (geometry e)) ce =
      map (line_of_pair sq pw at2 (neuralNodes s')) pairs /\
    near_pairs sq pw (neuralNodes s') pairs /\
    nextSerial s <= nextSerial s' /\
    Forall (fun e => nextSerial s <= serial_of (nid e)) (ne ++ ce).
Proof.
  intros HD Hov Hnn.
  pose (I := fun (j : nat) (s1 : State) => exists ne,
    Dom N s1 /\ Overlay_ok N s1 ne sk ps /\
    overlay_write s s1 /\ listeners s1 = listeners s /\
    Forall (made_by SNode "neural-node") ne /\
    map nid ne = map element (neuralNodes s1) /\
    List.length ne = j /\
    nextSerial s <= nextSerial s1 /\
    Forall (fun e => nextSerial s <= serial_of (nid e)) ne).
  unfold createNeuralNetwork. js_in (ov_bg Hov).
  rewrite (querySelector_network _ _ _ (Overlay_ok_Kids _ _ _ _ _ Hov)).
  fold (nodeCount (innerWidth s)). unfold for_loop.
  match goal with
  | |- context [for_from ?n 0 ?body s] =>
      destruct (total_for_from I body n 0) with (s := s) as [[] [s1 [E [ne H]]]]
  end.
  - intros j s1 [ne [HD1 [Hov1 [Hw1 [El1 [Hne1 [Hid1 [Hlen1 [Hn1 Hfr1]]]]]]]]].
    js_in (ov_bg Hov1).
    rewrite (overlay_append_net _ _ _ _ (Overlay_ok_Kids _ _ _ _ _ Hov1)).
    rewrite (overlay_id_absent N s1); [|exact HD1|reflexivity].
    fold (new_node rv s1). fold (new_entry rv s1).
    eexists tt, _. split; [reflexivity|].
    exists (ne ++ [new_node rv s1]).
    lazymatch goal with
    | |- Dom _ ?s2 /\ _ =>
        destruct (Dom_layers N s1 s2 ne sk ps (ne ++ [new_node rv s1]) sk)
          as [HD2 Hov2]; try assumption;
          [reflexivity | reflexivity | cbn; lia | reflexivity | | apply (ov_shapes Hov1)
          | serials (ov_serials Hov1) |]
    end.
    + apply Forall_app. split; [apply (ov_net Hov1)|].
      constructor; [|constructor]. left. apply made_by_styled.
    + split; [exact HD2|]. split; [exact Hov2|].
      split; [eapply overlay_write_trans; [exact Hw1|]; reflexivity|].
      split; [exact El1|].
      split; [apply Forall_app; split; [exact Hne1|];
              constructor; [apply made_by_styled|constructor]|].
      split; [cbn [neuralNodes set_neuralNodes]; rewrite !map_app, Hid1; reflexivity|].
      split; [rewrite length_app; simpl; lia|].
      split; [cbn; lia|].
      apply Forall_app. split; [exact Hfr1|]. constructor; [|constructor].
      simpl. exact Hn1.
  - exists (@nil Elem).
    split; [exact HD|]. split; [exact Hov|].
    split; [apply overlay_write_refl|].
    split; [reflexivity|]. split; [constructor|].
    split; [now rewrite Hnn|]. split; [reflexivity|]. split; [lia|constructor].
  - rewrite E. rewrite Nat.add_0_r in H.
    destruct H as [HD1 [Hov1 [Hw1 [El1 [Hne1 [Hid1 [Hlen1 [Hn1 Hfr1]]]]]]]].
    destruct (createNeuralConnections_total N s1 ne sk ps (neuralNodes s1)
                (El networkElem (map leaf [])) eq_refl) with (s := s1)
      as [[] [s2 [E2 [ce [pairs
            [HD2 [Hov2 [Hw2 [El2 [Enn2 [Hce2 [Hgeo2 [Hcov2 [Hn2 Hfr2]]]]]]]]]]]]]].
    + exists (@nil Elem), (@nil (nat * nat)). rewrite app_nil_r.
      split; [exact HD1|]. split; [exact Hov1|].
      split; [apply overlay_write_refl|].
      split; [reflexivity|]. split; [reflexivity|]. split; [constructor|].
      split; [reflexivity|]. split; [apply covered_start|].
      split; [lia|constructor].
    + exists s2, ne, ce, pairs. rewrite Enn2.
      split; [exact E2|]. split; [exact HD2|]. split; [exact Hov2|].
      split; [eapply overlay_write_trans; eassumption|].
      split; [congruence|]. split; [exact Hne1|]. split; [exact Hid1|].
      split; [exact Hlen1|]. split; [exact Hce2|]. split; [exact Hgeo2|].
      split; [eapply covered_all; exact Hcov2|].
      split; [lia|].
      apply Forall_app. split; [exact Hfr1|].
      eapply Forall_impl; [|exact Hfr2]. simpl. intros; lia.
Qed.

Lemma handleResize_spec N s nk sk ps :
  Dom N s -> Overlay_ok N s nk sk ps ->
  exists s' new ne ce pairs,
    handleResize rv sq pw at2 s = Some (tt, s') /\
    Dom N s' /\ Overlay_ok N s' (ne ++ ce) new ps /\
    overlay_write s s' /\ listeners s' = listeners s /\
    List.length new = shapeCount (innerWidth s) /\
    Forall (made_by SNode "neural-node") ne /\
    map nid ne = map element (neuralNodes s') /\
    List.length ne = nodeCount (innerWidth s) /\
    Forall (made_by SConnection "neural-connection") ce /\
    map (fun e => Some (geometry e)) ce =
      map (line_of_pair sq pw at2 (neuralNodes s')) pairs /\
    near_pairs sq pw (neuralNodes s') pairs /\
    nextSerial s <= nextSerial s' /\
    Forall (fun e => nextSerial s <= serial_of (nid e)) (new ++ ne ++ ce).
Proof.
  intros HD Hov. unfold handleResize. js_in (ov_bg Hov).
  rewrite (querySelector_shapes _ _ _ (Overlay_ok_Kids _ _ _ _ _ Hov)).
  js_in (ov_bg Hov).
  rewrite (overlay_clear_shapes _ _ _ (Overlay_ok_Kids _ _ _ _ _ Hov)).
  rewrite (overlay_id_clear N s); [|exact HD|reflexivity].
  lazymatch goal with
  | |- context [createFloatingShapes rv ?s1] =>
      destruct (Dom_layers N s s1 nk sk ps nk []) as [HD1 Hov1]; try assumption;
        [reflexivity | reflexivity | cbn; lia | reflexivity | apply (ov_net Hov)
        | constructor | serials (ov_serials Hov) |];
      destruct (createFloatingShapes_spec N s1 nk [] ps HD1 Hov1)
        as [s2 [new [E2 [HD2 [Hov2 [Hw2 [El2 [Enn2 [Hn2 [Hlen2 Hfr2]]]]]]]]]]
  end.
  rewrite E2. simpl app in Hov2. js_in (ov_bg Hov2).
  rewrite (querySelector_network _ _ _ (Overlay_ok_Kids _ _ _ _ _ Hov2)).
  js_in (ov_bg Hov2).
  rewrite (overlay_clear_net _ _ _ (Overlay_ok_Kids _ _ _ _ _ Hov2)).
  rewrite (overlay_id_clear N s2); [|exact HD2|reflexivity].
  lazymatch goal with
  | |- context [createNeuralNetwork rv sq pw at2 ?s3] =>
      destruct (Dom_layers N s2 s3 nk new ps [] new) as [HD3 Hov3]; try assumption;
        [reflexivity | reflexivity | cbn; lia | reflexivity | constructor
        | apply (ov_shapes Hov2) | serials (ov_serials Hov2) |];
      destruct (createNeuralNetwork_spec N s3 new ps HD3 Hov3 eq_refl)
        as [s4 [ne [ce [pairs [E4 [HD4 [Hov4 [Hw4 [El4 [Hne4 [Hid4 [Hlen4
             [Hce4 [Hgeo4 [Hnear4 [Hn4 Hfr4]]]]]]]]]]]]]]]]
  end.
  exists s4, new, ne, ce, pairs.
  split; [exact E4|]. split; [exact HD4|]. split; [exact Hov4|].
  split.
  { eapply overlay_write_trans; [|exact Hw4].
    apply overlay_write_trans with (s2 := s2); [|reflexivity].
    eapply overlay_write_trans; [|exact Hw2]. reflexivity. }
  split; [rewrite El4; cbn; rewrite El2; reflexivity|].
  split; [rewrite Hlen2; reflexivity|].
  split; [exact Hne4|]. split; [exact Hid4|].
  split; [rewrite Hlen4; cbn; now rewrite Hw2|].
  split; [exact Hce4|]. split; [exact Hgeo4|]. split; [exact Hnear4|].
  cbn in Hn2, Hn4, Hfr2, Hfr4.
  split; [lia|].
  apply Forall_app. split; [exact Hfr2|].
  eapply Forall_impl; [|exact Hfr4]. simpl. intros; lia.
Qed.

End Methods.

(** * The invariant under the page-side writes *)

Lemma in_flat_map_ids (x : NodeId) (f : Node -> Node) (ks : list Node) (P : NodeId -> Prop) :
  Forall (fun k => In x (ids (f k)) -> In x (ids k) \/ P x) ks ->
  In x (flat_map ids (map f ks)) -> In x (flat_map ids ks) \/ P x.
Proof.
  induction 1 as [|k ks Hk Hks IH]; simpl; intro Hin; [contradiction|].
  apply in_app_or in Hin. destruct Hin as [Hin|Hin].
  - destruct (Hk Hin) as [H|H]; [left; apply in_or_app; now left|now right].
  - destruct (IH Hin) as [H|H]; [left; apply in_or_app; now right|now right].
Qed.

Lemma ids_appendChild x p c n :
  In x (ids (appendChild p c n)) -> In x (ids n) \/ In x (ids c).
Proof.
  induction n as [e ks IH] using Node_induction. simpl appendChild.
  rewrite !ids_El. intros [E|Hin]; [left; now left|].
  assert (Hm : In x (flat_map ids (map (appendChild p c) ks)) \/ In x (ids c)).
  { destruct (NodeId_eqb (nid e) p); [|now left].
    rewrite flat_map_app in Hin. apply in_app_or in Hin.
    destruct Hin as [Hin|Hin]; [now left|right].
    simpl in Hin. now rewrite app_nil_r in Hin. }
  destruct Hm as [Hm|Hm]; [|now right].
  destruct (in_flat_map_ids x (appendChild p c) ks (fun x => In x (ids c)) IH Hm)
    as [H|H]; [left; now right|now right].
Qed.

Lemma ids_removeNode x id n : In x (ids (removeNode id n)) -> In x (ids n).
Proof.
  induction n as [e ks IH] using Node_induction. rewrite removeNode_El, !ids_El.
  intros [E|Hin]; [now left|right].
  induction IH as [|k ks Hk Hks IHks]; simpl in *; [contradiction|].
  destruct (NodeId_eqb (nid (elem k)) id); simpl in Hin.
  - apply in_or_app. right. now apply IHks.
  - apply in_app_or in Hin. apply in_or_app.
    destruct Hin as [Hin|Hin]; [left; now apply Hk|right; now apply IHks].
Qed.

Section PageWrites.

Variable sq : float -> float.
Variable pw : float -> float -> float.
Variable at2 : float -> float -> float.

Local Abbreviation Inv := (Inv sq pw at2).

(** Writes that leave both trees, the listeners and the frame loop alone. *)
Lemma Inv_frame N fz s s' :
  bgContainer s' = bgContainer s -> neuralNodes s' = neuralNodes s ->
  body s' = body s -> listeners s' = listeners s -> observed s' = observed s ->
  animationFrameId s' = animationFrameId s -> rafPending s' = rafPending s ->
  nextRaf s' = nextRaf s -> attached s' = attached s -> lastTime s' = lastTime s ->
  nextSerial s <= nextSerial s' -> Forall timer_ok (timers s') ->
  Inv N fz s -> Inv N fz s'.
Proof.
  intros Ebg Enn Eb El Eo Ea Er Enr Eat Elt Hn Htm [HD [HR HN]].
  split; [|split].
  - destruct HD as [[nk [sk [ps Hov]]] Hr Hb Hl Htg _ Hob]. constructor.
    + exists nk, sk, ps. destruct Hov as [H1 H2 H3 H4 H5 H6 H7 H8].
      constructor; try assumption.
      * congruence.
      * eapply Forall_impl; [|exact H5]. simpl. intros; lia.
      * now rewrite El.
    + now rewrite Eb.
    + now rewrite Eb.
    + rewrite El. eapply Forall_impl; [|exact Hl]. intro l. now apply listener_ok_mono.
    + now rewrite El.
    + exact Htm.
    + now rewrite Eo.
  - now apply (Raf_frame fz s s').
  - intros nk sk ps Hbg. rewrite Enn. apply (HN nk sk ps). congruence.
Qed.

(** Writes of the schedulers. *)
Lemma Inv_sched N fz0 fz s s' :
  bgContainer s' = bgContainer s -> neuralNodes s' = neuralNodes s ->
  body s' = body s -> listeners s' = listeners s -> observed s' = observed s ->
  nextSerial s <= nextSerial s' -> Forall timer_ok (timers s') ->
  Raf fz s' ->
  Inv N fz0 s -> Inv N fz s'.
Proof.
  intros Ebg Enn Eb El Eo Hn Htm HR' [HD [HR HN]].
  split; [|split].
  - destruct HD as [[nk [sk [ps Hov]]] Hr Hb Hl Htg _ Hob]. constructor.
    + exists nk, sk, ps. destruct Hov as [H1 H2 H3 H4 H5 H6 H7 H8].
      constructor; try assumption.
      * congruence.
      * eapply Forall_impl; [|exact H5]. simpl. intros; lia.
      * now rewrite El.
    + now rewrite Eb.
    + now rewrite Eb.
    + rewrite El. eapply Forall_impl; [|exact Hl]. intro l. now apply listener_ok_mono.
    + now rewrite El.
    + exact Htm.
    + now rewrite Eo.
  - exact HR'.
  - intros nk sk ps Hbg. rewrite Enn. apply (HN nk sk ps). congruence.
Qed.

Lemma Inv_set_timers N fz s v n :
  Forall timer_ok v -> Inv N fz s -> Inv N fz (set_timers v n s).
Proof.
  intros Hv HI. apply (Inv_frame N fz s); try reflexivity; [exact Hv|exact HI].
Qed.

Lemma Inv_timers N fz s : Inv N fz s -> Forall timer_ok (timers s).
Proof. intros [HD _]. exact (dom_timers HD). Qed.

Lemma Inv_set_nextSerial N fz s v :
  nextSerial s <= v -> Inv N fz s -> Inv N fz (set_nextSerial v s).
Proof.
  intros Hv HI. apply (Inv_frame N fz s); try reflexivity;
    [exact Hv|exact (Inv_timers N fz s HI)|exact HI].
Qed.

Lemma Inv_set_clock N fz s v : Inv N fz s -> Inv N fz (set_clock v s).
Proof.
  intros HI. apply (Inv_frame N fz s); try reflexivity;
    [exact (Inv_timers N fz s HI)|exact HI].
Qed.

Lemma Inv_set_innerWidth N fz s v : Inv N fz s -> Inv N fz (set_innerWidth v s).
Proof.
  intros HI. apply (Inv_frame N fz s); try reflexivity;
    [exact (Inv_timers N fz s HI)|exact HI].
Qed.

Lemma Inv_set_resizeTimeout N fz s v : Inv N fz s -> Inv N fz (set_resizeTimeout v s).
Proof.
  intros HI. apply (Inv_frame N fz s); try reflexivity;
    [exact (Inv_timers N fz s HI)|exact HI].
Qed.

(** A mutation of the page through a page identity. *)
Lemma Dom_onDom N s (f : Node -> Node) :
  (forall nk sk ps, Kids nk sk ps -> f (overlay nk sk ps) = overlay nk sk ps) ->
  (forall n, nid (elem (f n)) = nid (elem n)) ->
  (forall x, In x (ids (f (body s))) -> In x (ids (body s)) \/ page_id x = true) ->
  Dom N s -> Dom N (onDom f s) /\ bgContainer (onDom f s) = bgContainer s.
Proof.
  intros Hov Hroot Hb HD.
  destruct (dom_overlay HD) as [nk [sk [ps Ho]]].
  assert (Ebg : bgContainer (onDom f s) = bgContainer s).
  { unfold onDom. cbn. rewrite (ov_bg Ho). simpl. f_equal.
    apply Hov. exact (Overlay_ok_Kids _ _ _ _ _ Ho). }
  split; [|exact Ebg].
  destruct HD as [_ Hr Hbody Hl Htg Htm Hob]. constructor.
  - exists nk, sk, ps. destruct Ho as [H1 H2 H3 H4 H5 H6 H7 H8].
    constructor; try assumption. congruence.
  - destruct Hr as [i Hr]. exists i. unfold onDom. cbn. now rewrite Hroot.
  - apply Forall_forall. intros x Hx. destruct (Hb x Hx) as [H|H]; [|exact H].
    rewrite Forall_forall in Hbody. now apply Hbody.
  - exact Hl.
  - exact Htg.
  - exact Htm.
  - exact Hob.
Qed.

Lemma Inv_onDom N fz s (f : Node -> Node) :
  (forall nk sk ps, Kids nk sk ps -> f (overlay nk sk ps) = overlay nk sk ps) ->
  (forall n, nid (elem (f n)) = nid (elem n)) ->
  (forall x, In x (ids (f (body s))) -> In x (ids (body s)) \/ page_id x = true) ->
  Inv N fz s -> Inv N fz (onDom f s).
Proof.
  intros Hov Hroot Hb [HD [HR HN]].
  destruct (Dom_onDom N s f Hov Hroot Hb HD) as [HD' Ebg].
  split; [exact HD'|split].
  - now apply (Raf_frame fz s).
  - intros nk' sk' ps' Hbg. apply (HN nk' sk' ps'). congruence.
Qed.

Lemma Dom_update N s id f :
  page_id id = true -> (forall e, nid (f e) = nid e) ->
  Dom N s -> Dom N (onDom (update id f) s) /\
             bgContainer (onDom (update id f) s) = bgContainer s.
Proof.
  intros Hid Hf. apply Dom_onDom.
  - intros nk sk ps HK. now apply overlay_page_update.
  - intros [e ks]. simpl. now destruct (NodeId_eqb (nid e) id).
  - intros x Hx. left. now rewrite ids_update in Hx.
Qed.

Lemma Inv_update N fz s id f :
  page_id id = true -> (forall e, nid (f e) = nid e) ->
  Inv N fz s -> Inv N fz (onDom (update id f) s).
Proof.
  intros Hid Hf. apply Inv_onDom.
  - intros nk sk ps HK. now apply overlay_page_update.
  - intros [e ks]. simpl. now destruct (NodeId_eqb (nid e) id).
  - intros x Hx. left. now rewrite ids_update in Hx.
Qed.

Lemma Inv_append N fz s id e :
  page_id id = true -> page_id (nid e) = true ->
  Inv N fz s -> Inv N fz (onDom (appendChild id (leaf e)) s).
Proof.
  intros Hid He. apply Inv_onDom.
  - intros nk sk ps HK. now apply overlay_page_append.
  - now intros [e' ks].
  - intros x Hx. apply ids_appendChild in Hx. destruct Hx as [Hx|Hx]; [now left|].
    right. unfold ids, elements in Hx. simpl in Hx. destruct Hx as [<-|[]]. exact He.
Qed.

Lemma Inv_remove N fz s id :
  page_id id = true -> Inv N fz s -> Inv N fz (onDom (removeNode id) s).
Proof.
  intros Hid. apply Inv_onDom.
  - intros nk sk ps HK. now apply overlay_page_remove.
  - now intros [e' ks].
  - intros x Hx. left. now apply ids_removeNode in Hx.
Qed.

End PageWrites.

(** * The stimuli *)

Lemma ids_appendChild_mono x p c n : In x (ids n) -> In x (ids (appendChild p c n)).
Proof.
  induction n as [e ks IH] using Node_induction. simpl appendChild.
  rewrite !ids_El. intros [E|Hin]; [now left|right].
  assert (Hm : In x (flat_map ids (map (appendChild p c) ks))).
  { clear -IH Hin. induction IH as [|k ks Hk Hks IHks]; simpl in *; [contradiction|].
    apply in_app_or in Hin. apply in_or_app.
    destruct Hin as [Hin|Hin]; [left; now apply Hk|right; now apply IHks]. }
  destruct (NodeId_eqb (nid e) p); [|exact Hm].
  rewrite flat_map_app. apply in_or_app. now left.
Qed.

Lemma ids_document x s :
  In x (ids (document s)) ->
  In x (ids (body s)) \/
  (attached s = true /\ exists bg, bgContainer s = Some bg /\ In x (ids bg)).
Proof.
  unfold document. destruct (body s) as [e ks] eqn:Eb.
  destruct (bgContainer s) as [bg|]; [|now left].
  destruct (attached s); [|now left].
  rewrite !ids_El. simpl. intros [E|Hin]; [left; now left|].
  apply in_app_or in Hin. destruct Hin as [Hin|Hin].
  - right. split; [reflexivity|]. now exists bg.
  - left. now right.
Qed.

Lemma connected_in s id : connected id s = true <-> In id (ids (document s)).
Proof.
  unfold connected. rewrite existsb_exists. split.
  - intros [x [Hx E]]. apply NodeId_eqb_eq in E. now subst.
  - intro H. exists id. split; [exact H|apply NodeId_eqb_refl].
Qed.

Lemma connected_page N s id :
  Dom N s -> connected id s = true -> page_id id = true -> In id (ids (body s)).
Proof.
  intros HD Hc Hid. apply connected_in, ids_document in Hc.
  destruct Hc as [Hc|[_ [bg [Hbg Hin]]]]; [exact Hc|].
  destruct (dom_overlay HD) as [nk [sk [ps Hov]]].
  rewrite (ov_bg Hov) in Hbg. injection Hbg as <-.
  exfalso. exact (page_id_not_in_overlay id nk sk ps
                    (Overlay_ok_Kids _ _ _ _ _ Hov) Hid Hin).
Qed.

Lemma connected_particle N s nk sk ps k :
  Dom N s -> Overlay_ok N s nk sk ps ->
  connected (Created SParticle k) s = true ->
  In (Created SParticle k) (map nid ps) /\ attached s = true.
Proof.
  intros HD Hov Hc. apply connected_in, ids_document in Hc.
  destruct Hc as [Hc|[Hat [bg [Hbg Hin]]]].
  - pose proof (dom_body HD) as Hb. rewrite Forall_forall in Hb.
    specialize (Hb _ Hc). discriminate Hb.
  - split; [|exact Hat].
    rewrite (ov_bg Hov) in Hbg. injection Hbg as <-.
    rewrite ids_overlay in Hin. destruct Hov as [H1 H2 H3 H4 H5 H6 H7 H8].
    simpl in Hin.
    destruct Hin as [E|[E|[E|Hin]]]; try discriminate E.
    apply in_app_or in Hin. destruct Hin as [Hin|Hin].
    + apply in_map_iff in Hin. destruct Hin as [e [E He]].
      rewrite Forall_forall in H2. apply H2, net_kid_site in He.
      rewrite E in He. destruct He as [He|He]; discriminate He.
    + destruct Hin as [E|Hin]; [discriminate E|].
      apply in_app_or in Hin. destruct Hin as [Hin|Hin]; [|exact Hin].
      apply in_map_iff in Hin. destruct Hin as [e [E He]].
      rewrite Forall_forall in H3. apply H3, made_by_site in He.
      rewrite E in He. discriminate He.
Qed.

Lemma deref_body s id :
  In id (ids (body s)) ->
  exists e, deref id s = Some (e, s) /\ nid e = id.
Proof.
  intro Hin. unfold deref.
  destruct (find (fun e => NodeId_eqb (nid e) id)
              (elements (body s) ++
               match bgContainer s with Some bg => elements bg | None => [] end))
    as [e|] eqn:E.
  - exists e. split; [reflexivity|]. apply find_some in E.
    now apply NodeId_eqb_eq.
  - exfalso. unfold ids in Hin. apply in_map_iff in Hin.
    destruct Hin as [e [He Hin]].
    assert (Hf : NodeId_eqb (nid e) id = false).
    { apply (find_none _ _ E e). apply in_or_app. now left. }
    subst. rewrite NodeId_eqb_refl in Hf. discriminate Hf.
Qed.

Lemma no_particle_listener ls p :
  ~ In p (particle_targets ls) ->
  filter (fun l => NodeId_eqb (l_target l) p && EventType_eqb (l_type l) animationend) ls = [].
Proof.
  induction ls as [|l ls IH]; simpl; intro H; [reflexivity|].
  unfold particle_targets in H. simpl in H.
  destruct (EventType_eqb (l_type l) animationend) eqn:Et.
  - simpl in H. destruct (NodeId_eqb (l_target l) p) eqn:Ep.
    + apply NodeId_eqb_eq in Ep. exfalso. apply H. now left.
    + simpl. apply IH. intro Hin. apply H. now right.
  - rewrite andb_false_r. apply IH. exact H.
Qed.

Lemma EventType_eqb_eq a b : EventType_eqb a b = true <-> a = b.
Proof. destruct a, b; simpl; split; intro H; try reflexivity; discriminate H. Qed.

Lemma particle_listener_shape n l :
  listener_ok n l -> l_type l = animationend ->
  l = mkListener (l_target l) animationend (OnParticleEnd (l_target l)) /\
  exists k, l_target l = Created SParticle k /\ k < n.
Proof.
  unfold listener_ok. destruct l as [t ty h]. simpl. intros H Et. subst ty.
  destruct h; try (destruct H as [_ H]; now contradiction H).
  destruct H as [H1 [_ [k [H2 H3]]]]. subst particle. split; [reflexivity|].
  now exists k.
Qed.

Lemma single_listener n ls p :
  Forall (listener_ok n) ls -> NoDup (particle_targets ls) ->
  In p (particle_targets ls) ->
  filter (fun l => NodeId_eqb (l_target l) p && EventType_eqb (l_type l) animationend) ls
  = [mkListener p animationend (OnParticleEnd p)].
Proof.
  induction ls as [|l ls IH]; intros Hok Hnd Hin; [contradiction|].
  inversion Hok as [|l' ls' Hl Hls]; subst.
  unfold particle_targets in Hnd, Hin. simpl in *.
  destruct (EventType_eqb (l_type l) animationend) eqn:Et.
  - simpl in Hnd, Hin. inversion Hnd as [|x xs Hx Hxs]; subst.
    apply EventType_eqb_eq in Et.
    destruct (particle_listener_shape n l Hl Et) as [El _].
    destruct (NodeId_eqb (l_target l) p) eqn:Ep.
    + apply NodeId_eqb_eq in Ep. simpl.
      rewrite (no_particle_listener ls p); [|now rewrite <- Ep].
      rewrite El, Ep. reflexivity.
    + simpl. apply IH; try assumption.
      destruct Hin as [E|Hin]; [|exact Hin].
      apply NodeId_eqb_neq in Ep. contradiction.
  - rewrite andb_false_r. apply IH; assumption.
Qed.

(** Paths and subtrees. *)
Lemma subtrees_self n : In n (subtrees n).
Proof. destruct n. simpl. now left. Qed.

Lemma subtrees_trans c n : In c (subtrees n) -> incl (subtrees c) (subtrees n).
Proof.
  induction n as [e ks IH] using Node_induction. simpl. intros [E|Hin].
  - subst c. intros x Hx. exact Hx.
  - intros x Hx. right. apply in_flat_map in Hin. destruct Hin as [k [Hk Hc]].
    apply in_flat_map. exists k. split; [exact Hk|].
    rewrite Forall_forall in IH. exact (IH k Hk Hc x Hx).
Qed.

Lemma descendants_subtrees c : incl (descendants c) (subtrees c).
Proof. destruct c as [e ks]. intros x Hx. simpl. right. exact Hx. Qed.

Lemma path_to_subtrees id n p :
  path_to id n = Some p -> Forall (fun m => In m (subtrees n)) p.
Proof.
  revert p. induction n as [e ks IH] using Node_induction. intros p. simpl path_to.
  destruct (NodeId_eqb (nid e) id).
  - intro E. injection E as <-. constructor; [|constructor]. simpl. now left.
  - match goal with
    | |- match ?first ks with _ => _ end = _ -> _ =>
        assert (Hf : forall q, first ks = Some q ->
                  Forall (fun m => In m (flat_map subtrees ks)) q)
    end.
    { clear p. induction IH as [|k ks' Hk Hks IHks]; intros q Hq; [discriminate Hq|].
      simpl. destruct (path_to id k) as [pk|] eqn:Ek.
      - injection Hq as <-. eapply Forall_impl; [|exact (Hk pk eq_refl)].
        intros m Hm. apply in_or_app. now left.
      - eapply Forall_impl; [|exact (IHks q Hq)].
        intros m Hm. apply in_or_app. now right. }
    match goal with
    | |- match ?first ks with _ => _ end = _ -> _ => destruct (first ks) as [q|]
    end; [|discriminate].
    intro E. injection E as <-. constructor.
    + simpl. now left.
    + eapply Forall_impl; [|exact (Hf q eq_refl)]. intros m Hm. simpl. now right.
Qed.

Lemma closest_subtrees sels id n c :
  closest sels id n = Some c -> In c (subtrees n).
Proof.
  unfold closest. destruct (path_to id n) as [p|] eqn:Ep; [|discriminate].
  intro E. apply find_some in E. destruct E as [Hin _].
  apply in_rev in Hin. pose proof (path_to_subtrees id n p Ep) as H.
  rewrite Forall_forall in H. now apply H.
Qed.

Lemma subtree_ids c n : In c (subtrees n) -> In (nid (elem c)) (ids n).
Proof.
  intro H. unfold ids, elements. rewrite map_map. apply in_map_iff. now exists c.
Qed.

(** What the page's selectors find in the document is on the page side. *)
Lemma document_match_page N s sels n :
  Dom N s ->
  forallb (fun sel => match sel with
                      | ByClass c =>
                          negb (existsb (String.eqb c)
                                  ["futuristic-bg"; "digital-grid"; "neural-network";
                                   "floating-shapes"; "hex-shape"; "particle";
                                   "neural-node"; "neural-connection"])
                      | ByTag t => negb (String.eqb t "div")
                      end) sels = true ->
  In n (subtrees (document s)) -> matches sels n = true ->
  page_id (nid (elem n)) = true.
Proof.
  intros HD Hsels Hin Hm.
  pose proof (dom_body HD) as Hb. rewrite Forall_forall in Hb.
  destruct (dom_overlay HD) as [nk [sk [ps Hov]]].
  unfold document in Hin. rewrite (ov_bg Hov) in Hin.
  destruct (body s) as [e ks] eqn:Eb.
  destruct (attached s).
  - change (subtrees (El e (overlay nk sk ps :: ks)))
      with (El e (overlay nk sk ps :: ks)
            :: subtrees (overlay nk sk ps) ++ flat_map subtrees ks) in Hin.
    destruct Hin as [E|Hin].
    + subst n. apply Hb. rewrite ids_El. now left.
    + apply in_app_or in Hin. destruct Hin as [Hin|Hin].
      * pose proof (overlay_blind sels nk sk ps (Overlay_ok_Kids _ _ _ _ _ Hov) Hsels) as H.
        rewrite Forall_forall in H. rewrite (H _ Hin) in Hm. discriminate Hm.
      * apply Hb. apply subtree_ids. simpl. now right.
  - apply Hb. now apply subtree_ids.
Qed.

Lemma siblings_page N s sels sels' t c :
  Dom N s ->
  forallb (fun sel => match sel with
                      | ByClass c =>
                          negb (existsb (String.eqb c)
                                  ["futuristic-bg"; "digital-grid"; "neural-network";
                                   "floating-shapes"; "hex-shape"; "particle";
                                   "neural-node"; "neural-connection"])
                      | ByTag t => negb (String.eqb t "div")
                      end) sels = true ->
  closest sels' t (document s) = Some c ->
  Forall (fun n => page_id (nid (elem n)) = true) (querySelectorAll sels c).
Proof.
  intros HD Hsels Hc. apply Forall_forall. intros n Hn.
  unfold querySelectorAll in Hn. apply filter_In in Hn. destruct Hn as [Hn Hm].
  apply (document_match_page N s sels n HD Hsels); [|exact Hm].
  apply closest_subtrees in Hc. apply (subtrees_trans c _ Hc).
  now apply descendants_subtrees.
Qed.

Ltac js_page :=
  cbv beta iota zeta delta
      [bind ret gets modify throw createElement this_bgContainer
       addEventListener setTimeout clearTimeout
       requestAnimationFrame cancelAnimationFrame];
  cbn [option_map elem onDom
       set_neuralNodes set_controller set_animationFrameId set_lastTime
       set_bgContainer set_trees set_attached set_headStyles set_innerWidth
       set_observed set_listeners set_timers set_resizeTimeout set_clock set_raf
       set_nextSerial set_randomCalls
       particles neuralNodes isReducedMotion animationFrameId lastTime bgContainer
       body attached headStyles innerWidth prefersReducedMotion observed listeners
       timers nextTimer resizeTimeout clock rafPending nextRaf nextSerial randomCalls].

Section Steps.

Variable rv : nat -> float.
Variable sq : float -> float.
Variable pw : float -> float -> float.
Variable at2 : float -> float -> float.

Local Abbreviation Inv := (Inv sq pw at2).

Lemma Net_of_overlay N s ne ce sk ps pairs :
  Overlay_ok N s (ne ++ ce) sk ps ->
  Forall (made_by SNode "neural-node") ne ->
  map nid ne = map element (neuralNodes s) ->
  Forall (made_by SConnection "neural-connection") ce ->
  map (fun e => Some (geometry e)) ce =
    map (line_of_pair sq pw at2 (neuralNodes s)) pairs ->
  near_pairs sq pw (neuralNodes s) pairs ->
  Net sq pw at2 s.
Proof.
  intros Hov Hne Hid Hce Hgeo Hnear nk sk' ps' Hbg.
  rewrite (ov_bg Hov) in Hbg.
  apply Some_overlay_inj in Hbg. destruct Hbg as [<- _].
  exists ne, ce, pairs. tauto.
Qed.

Lemma handleResize_Inv N fz s :
  Inv N fz s ->
  exists s', handleResize rv sq pw at2 s = Some (tt, s') /\ Inv N fz s' /\
             overlay_write s s' /\ listeners s' = listeners s.
Proof.
  intros [HD [HR HN]]. destruct (dom_overlay HD) as [nk [sk [ps Hov]]].
  destruct (handleResize_spec rv sq pw at2 N s nk sk ps HD Hov)
    as [s' [new [ne [ce [pairs [E [HD' [Hov' [Hw [Hls [_ [Hne [Hid [_
         [Hce [Hgeo [Hnear _]]]]]]]]]]]]]]]]].
  exists s'. split; [exact E|]. split; [|split; assumption].
  split; [exact HD'|]. split.
  - now apply (Raf_overlay_write fz s).
  - now apply (Net_of_overlay N s' ne ce new ps pairs).
Qed.

(** The listener of a particle: the particle leaves and one takes its
    place. *)
Lemma respawn_spec N fz s nk sk ps k :
  Inv N fz s -> Overlay_ok N s nk sk ps ->
  In (Created SParticle k) (map nid ps) ->
  exists s' q,
    (element_remove (Created SParticle k) ;; createParticle rv) s = Some (tt, s') /\
    Inv N fz s' /\
    Overlay_ok N s' nk sk
      (filter (fun e => negb (NodeId_eqb (nid e) (Created SParticle k))) ps ++ [q]) /\
    nid q = Created SParticle (nextSerial s) /\
    overlay_write s s'.
Proof.
  intros [HD [HR HN]] Hov Hin.
  unfold element_remove. js_in (ov_bg Hov).
  change (NodeId_eqb (nid (elem (overlay nk sk ps))) (Created SParticle k)) with false.
  cbv iota.
  rewrite (overlay_remove_particle _ _ _ _ (Overlay_ok_Kids _ _ _ _ _ Hov)).
  rewrite (removeNode_absent (Created SParticle k) (body s))
    by (apply overlay_id_not_in_body; [apply HD|reflexivity]).
  lazymatch goal with
  | |- context [createParticle rv ?s1] =>
      destruct (Dom_remove_particle N s s1 nk sk ps (Created SParticle k))
        as [N' [EN [HD1 Hov1]]]; try assumption; try reflexivity;
      destruct (createParticle_spec rv N' s1 nk sk _ HD1 Hov1)
        as [s2 [E2 [HD2 [Hov2 [Hw2 [Enn2 En2]]]]]]
  end.
  rewrite E2. subst N.
  eexists s2, _. split; [reflexivity|].
  assert (Hw : overlay_write s s2).
  { eapply overlay_write_trans; [|exact Hw2]. reflexivity. }
  split; [|split; [exact Hov2|split; [reflexivity|exact Hw]]].
  split; [exact HD2|]. split.
  - now apply (Raf_overlay_write fz s).
  - intros nk' sk' ps' Hbg. rewrite Enn2. cbn.
    rewrite (ov_bg Hov2) in Hbg.
    apply Some_overlay_inj in Hbg. destruct Hbg as [<- _].
    apply (HN nk sk ps). exact (ov_bg Hov).
Qed.

(** ** Pointer events *)

Lemma nid_classList_add c e : nid (classList_add c e) = nid e.
Proof. unfold classList_add. now destruct (contains c e). Qed.

Lemma createRippleEffect_Inv N fz t ev s :
  Inv N fz s -> page_id t = true ->
  exists s', createRippleEffect t ev s = Some (tt, s') /\ Inv N fz s' /\
             incl (ids (body s)) (ids (body s')).
Proof.
  intros HI Ht. unfold createRippleEffect. js_page.
  eexists. split; [reflexivity|]. split.
  - apply Inv_set_timers.
    + apply Forall_app. split; [exact (Inv_timers _ _ _ _ _ _ HI)|repeat constructor].
    + apply Inv_append; [exact Ht|reflexivity|].
      apply Inv_update; [exact Ht|reflexivity|].
      apply Inv_update; [exact Ht|reflexivity|].
      apply Inv_set_nextSerial; [lia|exact HI].
  - intros x Hx. cbn [body onDom set_trees set_timers set_nextSerial]. apply ids_appendChild_mono.
    rewrite !ids_update by reflexivity. exact Hx.
Qed.

Lemma onButtonHover_Inv N fz ev s :
  Inv N fz s -> page_id (ev_target ev) = true ->
  exists s', onButtonHover ev s = Some (tt, s') /\ Inv N fz s' /\
             incl (ids (body s)) (ids (body s')).
Proof.
  intros HI Ht. unfold onButtonHover. unfold bind at 1, modify at 1.
  destruct (createRippleEffect_Inv N fz (ev_target ev) ev
              (onDom (update (ev_target ev)
                        (set_style "transform" (CssText "translateY(-4px)"))) s))
    as [s' [E [HI' Hincl]]].
  - apply Inv_update; [exact Ht|reflexivity|exact HI].
  - exact Ht.
  - exists s'. split; [exact E|]. split; [exact HI'|].
    intros x Hx. apply Hincl. cbn [body onDom set_trees set_timers set_nextSerial]. now rewrite ids_update by reflexivity.
Qed.

Lemma onButtonLeave_Inv N fz ev s :
  Inv N fz s -> page_id (ev_target ev) = true ->
  exists s', onButtonLeave ev s = Some (tt, s') /\ Inv N fz s' /\
             incl (ids (body s)) (ids (body s')).
Proof.
  intros HI Ht. unfold onButtonLeave, modify. eexists. split; [reflexivity|].
  split.
  - apply Inv_update; [exact Ht|reflexivity|exact HI].
  - intros x Hx. cbn [body onDom set_trees set_timers set_nextSerial]. now rewrite ids_update by reflexivity.
Qed.

Lemma onCardMouseMove_Inv N fz t ev s :
  Inv N fz s -> page_id t = true -> In t (ids (body s)) ->
  exists s', onCardMouseMove t ev s = Some (tt, s') /\ Inv N fz s' /\
             incl (ids (body s)) (ids (body s')).
Proof.
  intros HI Ht Hin. unfold onCardMouseMove.
  destruct (deref_body s t Hin) as [card [Ed _]].
  unfold bind at 1. rewrite Ed. js_page.
  eexists. split; [reflexivity|]. split.
  - apply Inv_update; [exact Ht|reflexivity|].
    apply Inv_update; [exact Ht|reflexivity|].
    apply Inv_update; [exact Ht|reflexivity|exact HI].
  - intros x Hx. cbn [body onDom set_trees set_timers set_nextSerial]. now rewrite !ids_update by reflexivity.
Qed.

Lemma onCardMouseLeave_Inv N fz t ev s :
  Inv N fz s -> page_id t = true ->
  exists s', onCardMouseLeave t ev s = Some (tt, s') /\ Inv N fz s' /\
             incl (ids (body s)) (ids (body s')).
Proof.
  intros HI Ht. unfold onCardMouseLeave, modify. eexists. split; [reflexivity|].
  split.
  - apply Inv_update; [exact Ht|reflexivity|exact HI].
  - intros x Hx. cbn [body onDom set_trees set_timers set_nextSerial]. now rewrite ids_update by reflexivity.
Qed.

Lemma invoke_mouse_Inv N fz l ev s :
  is_mouse_handler (l_handler l) = true ->
  l_target l = ev_target ev -> page_id (ev_target ev) = true ->
  Inv N fz s -> In (ev_target ev) (ids (body s)) ->
  exists s', invoke rv l ev s = Some (tt, s') /\ Inv N fz s' /\
             In (ev_target ev) (ids (body s')).
Proof.
  intros Hh Et Hp HI Hin. unfold invoke. rewrite Et.
  destruct (l_handler l); try discriminate Hh.
  - destruct (onButtonHover_Inv N fz ev s HI Hp) as [s' [E [HI' Hincl]]].
    exists s'. split; [exact E|]. split; [exact HI'|]. now apply Hincl.
  - destruct (onButtonLeave_Inv N fz ev s HI Hp) as [s' [E [HI' Hincl]]].
    exists s'. split; [exact E|]. split; [exact HI'|]. now apply Hincl.
  - destruct (onCardMouseMove_Inv N fz (ev_target ev) ev s HI Hp Hin)
      as [s' [E [HI' Hincl]]].
    exists s'. split; [exact E|]. split; [exact HI'|]. now apply Hincl.
  - destruct (onCardMouseLeave_Inv N fz (ev_target ev) ev s HI Hp)
      as [s' [E [HI' Hincl]]].
    exists s'. split; [exact E|]. split; [exact HI'|]. now apply Hincl.
Qed.

Lemma NodeId_eq_dec (a b : NodeId) : {a = b} + {a <> b}.
Proof.
  destruct (NodeId_eqb a b) eqn:E.
  - left. now apply NodeId_eqb_eq.
  - right. now apply NodeId_eqb_neq.
Qed.

Lemma mouse_listeners N s ev :
  Dom N s -> ev_type ev <> animationend ->
  Forall (fun l => is_mouse_handler (l_handler l) = true /\
                   l_target l = ev_target ev /\ page_id (ev_target ev) = true)
    (filter (fun l => NodeId_eqb (l_target l) (ev_target ev)
                      && EventType_eqb (l_type l) (ev_type ev)) (listeners s)).
Proof.
  intros HD Hty. apply Forall_forall. intros l Hl.
  apply filter_In in Hl. destruct Hl as [Hl Hm].
  apply andb_true_iff in Hm. destruct Hm as [Ht Hy].
  apply NodeId_eqb_eq in Ht. apply EventType_eqb_eq in Hy.
  pose proof (dom_listeners HD) as Hok. rewrite Forall_forall in Hok.
  specialize (Hok l Hl). unfold listener_ok in Hok.
  destruct (l_handler l) eqn:Eh; simpl;
    try (destruct Hok as [Hp _]; rewrite <- Ht; now repeat split).
  destruct Hok as [_ [Hy' _]]. congruence.
Qed.

Lemma dispatchEvent_Inv N fz ev s :
  Inv N fz s ->
  exists s', dispatchEvent rv ev s = Some (tt, s') /\ Inv N fz s'.
Proof.
  intros HI. unfold dispatchEvent. unfold bind at 1, gets at 1.
  destruct (connected (ev_target ev) s) eqn:Hc; [|now exists s].
  unfold bind at 1, gets at 1.
  destruct HI as [HD [HR HN]].
  destruct (EventType_eqb (ev_type ev) animationend) eqn:Ety.
  - apply EventType_eqb_eq in Ety. rewrite Ety.
    destruct (in_dec NodeId_eq_dec (ev_target ev) (particle_targets (listeners s)))
      as [Hin|Hnin].
    + rewrite (single_listener (nextSerial s) (listeners s) (ev_target ev)
                 (dom_listeners HD) (dom_targets HD) Hin).
      destruct (particle_target_serial _ _ _ (dom_listeners HD) Hin) as [k [Ek Hk]].
      destruct (dom_overlay HD) as [nk [sk [ps Hov]]].
      rewrite Ek in Hc.
      destruct (connected_particle N s nk sk ps k HD Hov Hc) as [Hps _].
      destruct (respawn_spec N fz s nk sk ps k (conj HD (conj HR HN)) Hov Hps)
        as [s' [q [E [HI' _]]]].
      exists s'. split; [|exact HI'].
      unfold forEach. simpl. unfold invoke. simpl. rewrite Ek.
      unfold bind at 1. rewrite E. reflexivity.
    + rewrite (no_particle_listener (listeners s) (ev_target ev) Hnin).
      now exists s.
  - assert (Hty : ev_type ev <> animationend).
    { intro E. rewrite E in Ety. discriminate Ety. }
    pose proof (mouse_listeners N s ev HD Hty) as Hls.
    destruct (total_forEach_inv
                (fun s1 => Inv N fz s1 /\
                           (page_id (ev_target ev) = true ->
                            In (ev_target ev) (ids (body s1))))
                (fun l => is_mouse_handler (l_handler l) = true /\
                          l_target l = ev_target ev /\ page_id (ev_target ev) = true)
                (fun l (_ : nat) => invoke rv l ev) _ Hls) with (s := s)
      as [[] [s' [E [HI' _]]]].
    + intros l j [Hm [Ht Hp]] s1 [HI1 Hin1].
      destruct (invoke_mouse_Inv N fz l ev s1 Hm Ht Hp HI1 (Hin1 Hp))
        as [s2 [E2 [HI2 Hin2]]].
      exists tt, s2. split; [exact E2|]. split; [exact HI2|]. intros _. exact Hin2.
    + split; [exact (conj HD (conj HR HN))|].
      intro Hp. now apply (connected_page N).
    + exists s'. split; [exact E|exact HI'].
Qed.

(** ** Scroll reveals, timers, frames and teardown *)

Lemma setTimeout_Inv N fz t delay s :
  timer_ok (mkTimer 0 0 t) -> Inv N fz s ->
  exists id s', setTimeout t delay s = Some (id, s') /\ Inv N fz s' /\
                body s' = body s.
Proof.
  intros Ht HI. unfold setTimeout. eexists _, _. split; [reflexivity|].
  split; [|reflexivity].
  apply Inv_set_timers; [|exact HI].
  apply Forall_app. split; [exact (Inv_timers _ _ _ _ _ _ HI)|].
  constructor; [exact Ht|constructor].
Qed.

Lemma observerCallback_Inv N fz entries s :
  Forall (fun en => page_id (fst en) = true) entries ->
  Inv N fz s ->
  exists s', observerCallback entries s = Some (tt, s') /\ Inv N fz s'.
Proof.
  intros Hen HI.
  destruct (total_forEach_inv (Inv N fz)
              (fun en : NodeId * bool => page_id (fst en) = true)
              (fun entry (_ : nat) =>
                 if snd entry then
                   doc <- gets document ;;
                   match closest [ByClass "hero-cta"; ByClass "grid"] (fst entry) doc with
                   | Some container =>
                       let siblings :=
                         querySelectorAll [ByClass "fade-in-element"] container in
                       forEach siblings (fun sibling index =>
                         setTimeout (RevealSibling (nid (elem sibling)))
                                    (Z.of_nat index * 200) ;;
                         ret tt)
                   | None =>
                       modify (onDom (update (fst entry) (classList_add "in-view")))
                   end
                 else ret tt) entries Hen) with (s := s) as [[] [s' [E HI']]].
  - intros [t b] j Ht s1 HI1. cbn [fst snd] in *.
    destruct b; [|now exists tt, s1].
    unfold bind at 1, gets at 1. cbv beta.
    destruct (closest [ByClass "hero-cta"; ByClass "grid"] t (document s1))
      as [c|] eqn:Ec.
    + cbv zeta.
      refine (total_forEach_inv (Inv N fz)
               (fun n : Node => page_id (nid (elem n)) = true) _ _ _ _ s1 HI1).
      * destruct HI1 as [HD1 _].
        exact (siblings_page N s1 [ByClass "fade-in-element"] _ t c HD1 eq_refl Ec).
      * intros sib idx Hsib s2 HI2.
        destruct (setTimeout_Inv N fz (RevealSibling (nid (elem sib)))
                    (Z.of_nat idx * 200) s2 Hsib HI2) as [id [s3 [E3 [HI3 _]]]].
        exists tt, s3. split; [|exact HI3].
        unfold bind. rewrite E3. reflexivity.
    + unfold modify. eexists tt, _. split; [reflexivity|].
      apply Inv_update; [exact Ht|apply nid_classList_add|exact HI1].
  - exact HI.
  - exists s'. split; [exact E|exact HI'].
Qed.

Lemma on_resize_Inv N fz s :
  Inv N fz s -> exists s', on_resize s = Some (tt, s') /\ Inv N fz s'.
Proof.
  intro HI. unfold on_resize. unfold bind at 1, gets at 1.
  assert (H1 : exists s1, clearTimeout (resizeTimeout s) s = Some (tt, s1) /\ Inv N fz s1).
  { destruct (resizeTimeout s) as [i|]; [|now exists s].
    unfold clearTimeout, modify. eexists. split; [reflexivity|].
    apply Inv_set_timers; [|exact HI].
    apply incl_Forall with (l1 := timers s); [apply incl_filter|].
    exact (Inv_timers _ _ _ _ _ _ HI). }
  destruct H1 as [s1 [E1 HI1]].
  unfold bind at 1. rewrite E1.
  destruct (setTimeout_Inv N fz ResizeDebounced 250 s1 I HI1) as [id [s2 [E2 [HI2 _]]]].
  unfold bind at 1. rewrite E2. unfold modify.
  eexists. split; [reflexivity|].
  now apply Inv_set_resizeTimeout.
Qed.

Lemma insert_by_due_In tm x l : In x (insert_by_due tm l) <-> x = tm \/ In x l.
Proof.
  induction l as [|h r IH]; simpl.
  - split; [intros [E|[]]; now left|intros [E|[]]; now left].
  - destruct (due tm <=? due h)%Z; simpl.
    + split; [intros [E|H]; [now left|now right]|intros [E|H]; [now left|now right]].
    + rewrite IH. tauto.
Qed.

Lemma sort_by_due_In x l : In x (sort_by_due l) <-> In x l.
Proof.
  induction l as [|h r IH]; simpl; [tauto|].
  rewrite insert_by_due_In, IH. split; intros [H|H]; auto.
Qed.

Lemma element_remove_page N fz r s :
  page_id r = true -> Inv N fz s ->
  exists s', element_remove r s = Some (tt, s') /\ Inv N fz s' /\
             body s' = removeNode r (body s).
Proof.
  intros Hr HI. unfold element_remove, modify.
  destruct HI as [HD [HR HN]]. destruct (dom_overlay HD) as [nk [sk [ps Hov]]].
  rewrite (ov_bg Hov).
  assert (Hne : NodeId_eqb (nid (elem (overlay nk sk ps))) r = false).
  { destruct r as [n|[] n]; try discriminate Hr; reflexivity. }
  rewrite Hne. eexists. split; [reflexivity|]. split; [|reflexivity].
  apply Inv_remove; [exact Hr|]. exact (conj HD (conj HR HN)).
Qed.

Lemma run_task_Inv N fz tm s :
  timer_ok tm -> Inv N fz s ->
  exists s', run_task rv sq pw at2 (task tm) s = Some (tt, s') /\ Inv N fz s'.
Proof.
  unfold timer_ok, run_task. intros Hok HI. destruct (task tm) as [sib|r|].
  - unfold modify. eexists. split; [reflexivity|].
    apply Inv_update; [exact Hok|apply nid_classList_add|exact HI].
  - destruct (element_remove_page N fz r s Hok HI) as [s' [E [HI' _]]].
    now exists s'.
  - destruct (handleResize_Inv N fz s HI) as [s' [E [HI' _]]]. now exists s'.
Qed.

Lemma elapse_Inv N fz t s :
  Inv N fz s -> exists s', elapse rv sq pw at2 t s = Some (tt, s') /\ Inv N fz s'.
Proof.
  intro HI. unfold elapse. js_page.
  assert (Htm : Forall timer_ok (timers s)) by (destruct HI as [HD _]; exact (dom_timers HD)).
  match goal with
  | |- exists s', forEach ?l ?f ?s1 = _ /\ _ =>
      destruct (total_forEach_inv (Inv N fz) timer_ok f l) with (s := s1)
        as [[] [s' [E HI']]]
  end.
  - apply Forall_forall. intros x Hx. apply sort_by_due_In, filter_In in Hx.
    rewrite Forall_forall in Htm. now apply Htm.
  - intros tm j Hok s1 HI1.
    destruct (run_task_Inv N fz tm s1 Hok HI1) as [s2 [E2 HI2]]. now exists tt, s2.
  - apply Inv_set_clock. apply Inv_set_timers; [|exact HI].
    apply incl_Forall with (l1 := timers s); [apply incl_filter|exact Htm].
  - now exists s'.
Qed.

Lemma frame_Inv N fz time s :
  Inv N fz s -> exists s', frame time s = Some (tt, s') /\ Inv N fz s'.
Proof.
  intro HI. unfold frame. js_page.
  pose proof HI as [HD [HR HN]].
  destruct (raf_handle HR) as [h [Eh [Hh Hp]]].
  assert (Htm : Forall timer_ok (timers s)) by exact (dom_timers HD).
  destruct Hp as [Hp|Hp]; rewrite Hp.
  - assert (Hfz : fz = None).
    { destruct fz as [[lt af]|]; [|reflexivity].
      destruct (raf_frozen HR) as [E _]. rewrite Hp in E. discriminate E. }
    subst fz. unfold forEach. simpl. unfold animate, updateAnimations. js_page.
    destruct (16 <=? time - lastTime s)%float; js_page.
    + eexists. split; [reflexivity|].
      apply (Inv_sched sq pw at2 N None None s); try reflexivity; [exact Htm| |exact HI].
      constructor; cbn.
      * exists (nextRaf s). split; [reflexivity|]. split; [exact (raf_next HR)|now left].
      * lia.
      * exact I.
    + eexists. split; [reflexivity|].
      apply (Inv_sched sq pw at2 N None None s); try reflexivity; [exact Htm| |exact HI].
      constructor; cbn.
      * exists (nextRaf s). split; [reflexivity|]. split; [exact (raf_next HR)|now left].
      * lia.
      * exact I.
  - unfold forEach. simpl. unfold ret. eexists. split; [reflexivity|].
    apply (Inv_sched sq pw at2 N fz fz s); try reflexivity; [exact Htm| |exact HI].
    constructor; cbn.
    + exists h. split; [exact Eh|]. split; [exact Hh|now right].
    + exact (raf_next HR).
    + destruct fz as [[lt af]|]; [|exact I].
      destruct (raf_frozen HR) as [_ H]. split; [reflexivity|exact H].
Qed.

Lemma destroy_Inv N fz s :
  Inv N fz s ->
  exists s', destroy s = Some (tt, s') /\ Inv N fz s' /\
             Inv N (Some (lastTime s', animationFrameId s')) s' /\
             lastTime s' = lastTime s /\ animationFrameId s' = animationFrameId s.
Proof.
  intro HI. pose proof HI as [HD [HR HN]].
  destruct (raf_handle HR) as [h [Eh [Hh Hp]]].
  destruct (dom_overlay HD) as [nk [sk [ps Hov]]].
  unfold destroy. unfold bind at 1, gets at 1. rewrite Eh.
  destruct (Nat.eqb h 0) eqn:E0; [apply Nat.eqb_eq in E0; contradiction|].
  js_page. rewrite (ov_bg Hov). unfold element_remove. js_page. rewrite (ov_bg Hov).
  change (NodeId_eqb (nid (elem (overlay nk sk ps))) (nid (elem (overlay nk sk ps))))
    with true. cbv iota. cbn [option_map].
  change (nid (elem (overlay nk sk ps))) with (nid bgElem).
  assert (Hnil : filter (fun h' => negb (Nat.eqb h' h)) (rafPending s) = []).
  { destruct Hp as [Hp|Hp]; rewrite Hp; simpl; [|reflexivity].
    now rewrite Nat.eqb_refl. }
  rewrite Hnil.
  eexists. split; [reflexivity|].
  assert (H1 : Inv N None (set_raf [] (nextRaf s) s)).
  { apply (Inv_sched sq pw at2 N fz None s); try reflexivity;
      [exact (dom_timers HD)| |exact HI].
    constructor; cbn.
    - exists h. split; [exact Eh|]. split; [exact Hh|now right].
    - exact (raf_next HR).
    - exact I. }
  assert (H2 : Inv N None (onDom (removeNode (nid bgElem)) (set_raf [] (nextRaf s) s))).
  { apply Inv_onDom; [| | |exact H1].
    - intros nk' sk' ps' HK. now apply overlay_remove_bg.
    - now intros [e' ks].
    - intros x Hx. left. now apply ids_removeNode in Hx. }
  assert (Hfr : forall fz', (match fz' with
                             | Some (lt, af) => lastTime s = lt /\ animationFrameId s = af
                             | None => True
                             end) ->
     Inv N fz' (set_attached false
                  (onDom (removeNode (nid bgElem)) (set_raf [] (nextRaf s) s)))).
  { intros fz' Hfz'.
    apply (Inv_sched sq pw at2 N None fz'
             (onDom (removeNode (nid bgElem)) (set_raf [] (nextRaf s) s)));
      try reflexivity; [exact (Inv_timers _ _ _ _ _ _ H2)| |exact H2].
    constructor; cbn.
    - exists h. split; [exact Eh|]. split; [exact Hh|now right].
    - exact (raf_next HR).
    - destruct fz' as [[lt af]|]; [|exact I]. tauto. }
  split; [|split; [|split; [reflexivity|exact Eh]]].
  - apply Hfr. destruct fz as [[lt af]|]; [|exact I].
    destruct (raf_frozen HR) as [_ [_ H]]. exact H.
  - apply Hfr. cbn. split; reflexivity.
Qed.

Lemma step_Inv N fz st s :
  Inv N fz s ->
  exists s', step rv sq pw at2 st s = Some (tt, s') /\ Inv N fz s'.
Proof.
  intro HI. destruct st as [time|ev|entries|w|t|]; simpl step.
  - now apply frame_Inv.
  - now apply dispatchEvent_Inv.
  - unfold bind at 1, gets at 1. unfold bind at 1, gets at 1.
    apply observerCallback_Inv; [|exact HI].
    apply Forall_forall. intros en Hen. apply filter_In in Hen.
    destruct Hen as [_ Hen]. apply andb_true_iff in Hen. destruct Hen as [Hobs _].
    apply existsb_exists in Hobs. destruct Hobs as [x [Hx E]].
    apply NodeId_eqb_eq in E. subst x.
    destruct HI as [HD _]. pose proof (dom_observed HD) as Ho.
    rewrite Forall_forall in Ho. now apply Ho.
  - unfold bind at 1, modify at 1. apply on_resize_Inv.
    now apply Inv_set_innerWidth.
  - now apply elapse_Inv.
  - destruct (destroy_Inv N fz s HI) as [s' [E [HI' _]]]. now exists s'.
Qed.

Lemma run_Inv N fz trace s :
  Inv N fz s ->
  exists s', run rv sq pw at2 trace s = Some (tt, s') /\ Inv N fz s'.
Proof.
  revert s. induction trace as [|st trace IH]; intros s HI.
  - now exists s.
  - destruct (step_Inv N fz st s HI) as [s1 [E1 HI1]].
    destruct (IH s1 HI1) as [s2 [E2 HI2]].
    exists s2. split; [|exact HI2]. simpl. unfold bind. now rewrite E1.
Qed.

End Steps.

(** * What the set-up wires *)

Lemma Some_tt_inj (a b : State) : Some (tt, a) = Some (tt, b) -> a = b.
Proof. intro H. now injection H. Qed.

Lemma observe_all l : forall k s,
  forEach_from l k
    (fun el (_ : nat) => modify (fun s => set_observed (observed s ++ [nid (elem el)]) s)) s
  = Some (tt, set_observed (observed s ++ map node_id l) s).
Proof.
  induction l as [|a l IH]; intros k s; cbn [forEach_from map].
  - unfold ret. rewrite app_nil_r. now destruct s.
  - unfold bind at 1, modify at 1. rewrite IH. unfold set_observed. cbn.
    now rewrite <- app_assoc.
Qed.

Lemma listen_all h1 h2 l : forall k s,
  forEach_from l k
    (fun b (_ : nat) =>
       addEventListener (nid (elem b)) mouseenter h1 ;;
       addEventListener (nid (elem b)) mouseleave h2) s
  = Some (tt, set_listeners
                (listeners s ++
                 flat_map (fun b => [mkListener (node_id b) mouseenter h1;
                                     mkListener (node_id b) mouseleave h2]) l) s).
Proof.
  induction l as [|a l IH]; intros k s; cbn [forEach_from flat_map].
  - unfold ret. rewrite app_nil_r. now destruct s.
  - unfold bind at 1. unfold bind at 1, addEventListener, modify. rewrite IH.
    unfold set_listeners. cbn. now rewrite <- !app_assoc.
Qed.

Lemma bounce_all l : forall k s,
  forEach_from l k
    (fun icon (_ : nat) =>
       modify (onDom (update (nid (elem icon)) (classList_add "icon-bounce")))) s
  = Some (tt, bounce_state l s).
Proof.
  induction l as [|a l IH]; intros k s; cbn [forEach_from]; [reflexivity|].
  unfold bind at 1, modify at 1. now rewrite IH.
Qed.

Lemma bounce_state_fields l : forall s,
  overlay_write (bounce_state l s) (bounce_state l s) /\
  particles (bounce_state l s) = particles s /\
  resizeTimeout (bounce_state l s) = resizeTimeout s /\
  observed (bounce_state l s) = observed s /\
  listeners (bounce_state l s) = listeners s /\
  timers (bounce_state l s) = timers s /\
  body (bounce_state l s) = bounce l (body s).
Proof.
  induction l as [|a l IH]; intro s.
  - split; [apply overlay_write_refl|]. now repeat split.
  - unfold bounce_state, bounce in *. cbn [fold_left].
    destruct (IH (onDom (update (node_id a) (classList_add "icon-bounce")) s))
      as [H0 [H1 [H2 [H3 [H4 [H5 H6]]]]]].
    split; [exact H0|]. rewrite H1, H2, H3, H4, H5, H6. now repeat split.
Qed.

Lemma setupScrollAnimations_exact s :
  setupScrollAnimations s =
  Some (tt, set_observed
              (observed s ++
               map node_id
                 (document_querySelectorAll
                    [ByClass "fade-in-element"; ByClass "portal-card"; ByClass "hero-cta"]
                    (document s))) s).
Proof.
  unfold setupScrollAnimations. unfold bind at 1, gets at 1. cbv zeta.
  unfold forEach. apply observe_all.
Qed.

Lemma setupInteractiveElements_exact s :
  setupInteractiveElements s =
  Some (tt, bounce_state
              (document_querySelectorAll [ByTag "svg"] (document s))
              (set_listeners
                 (listeners s ++
                  flat_map button_listeners
                    (document_querySelectorAll
                       [ByClass "btn-primary"; ByClass "btn-secondary"] (document s)) ++
                  flat_map card_listeners
                    (document_querySelectorAll [ByClass "portal-card"] (document s))) s)).
Proof.
  unfold setupInteractiveElements. unfold bind at 1, gets at 1. cbv zeta.
  unfold bind at 1. unfold forEach at 1. rewrite listen_all.
  unfold bind at 1, gets at 1. cbv zeta.
  unfold bind at 1. unfold forEach at 1. rewrite listen_all.
  unfold bind at 1, gets at 1. cbv zeta.
  unfold forEach. rewrite bounce_all.
  unfold set_listeners. cbn. unfold button_listeners, card_listeners.
  now rewrite <- app_assoc.
Qed.

(** A selector of the page finds in the document the elements it finds
    in [body]. *)
Lemma document_query_page N s sels :
  Dom N s ->
  forallb (fun sel => match sel with
                      | ByClass c =>
                          negb (existsb (String.eqb c)
                                  ["futuristic-bg"; "digital-grid"; "neural-network";
                                   "floating-shapes"; "hex-shape"; "particle";
                                   "neural-node"; "neural-connection"])
                      | ByTag t => negb (String.eqb t "div")
                      end) sels = true ->
  map node_id (document_querySelectorAll sels (document s)) =
  map node_id (document_querySelectorAll sels (body s)).
Proof.
  intros HD Hsels. destruct (dom_overlay HD) as [nk [sk [ps Hov]]].
  unfold document. rewrite (ov_bg Hov). destruct (body s) as [e ks].
  destruct (attached s); [|reflexivity].
  unfold document_querySelectorAll. cbn [subtrees flat_map filter].
  rewrite filter_app.
  pose proof (overlay_blind sels nk sk ps (Overlay_ok_Kids _ _ _ _ _ Hov) Hsels) as Hb.
  replace (filter (matches sels) (subtrees (overlay nk sk ps))) with (@nil Node).
  - cbn [app]. unfold matches. cbn [elem].
    now destruct (existsb (fun sel => matches1 sel e) sels).
  - symmetry. induction Hb as [|n l Hn Hl IH]; simpl; [reflexivity|].
    now rewrite Hn.
Qed.

(** The set-up uses of the elements it selects their identity only. *)
Lemma button_listeners_ids l l' :
  map node_id l = map node_id l' ->
  flat_map button_listeners l = flat_map button_listeners l'.
Proof.
  revert l'. induction l as [|a l IH]; intros [|a' l'] H; try discriminate H;
    [reflexivity|].
  cbn [map] in H. injection H as Ha Hl. cbn [flat_map]. unfold button_listeners at 1 3.
  now rewrite Ha, (IH l' Hl).
Qed.

Lemma card_listeners_ids l l' :
  map node_id l = map node_id l' ->
  flat_map card_listeners l = flat_map card_listeners l'.
Proof.
  revert l'. induction l as [|a l IH]; intros [|a' l'] H; try discriminate H;
    [reflexivity|].
  cbn [map] in H. injection H as Ha Hl. cbn [flat_map]. unfold card_listeners at 1 3.
  now rewrite Ha, (IH l' Hl).
Qed.

Lemma bounce_state_ids l : forall l' s,
  map node_id l = map node_id l' -> bounce_state l s = bounce_state l' s.
Proof.
  induction l as [|a l IH]; intros [|a' l'] s H; try discriminate H; [reflexivity|].
  cbn [map] in H. injection H as Ha Hl. unfold bounce_state in *. cbn [fold_left].
  rewrite Ha. now apply IH.
Qed.

(** * The script's start *)

Lemma Markup_induction (P : Markup -> Prop) :
  (forall i t cs st ch, Forall P ch -> P (Tag i t cs st ch)) -> forall m, P m.
Proof.
  intro H. fix IH 1. intros [i t cs st ch]. apply H.
  induction ch as [|c ch IHch]; constructor; [apply IH|exact IHch].
Qed.

Lemma load_static page : Forall (fun id => page_id id = true) (ids (load page)).
Proof.
  induction page as [i t cs st ch IH] using Markup_induction.
  simpl load. rewrite ids_El. constructor; [reflexivity|].
  induction IH as [|c ch Hc Hch IHch]; simpl; [constructor|].
  apply Forall_app. split; assumption.
Qed.

Lemma Booting_overlay_write w reduced s s' :
  overlay_write s s' -> Booting w reduced s -> Booting w reduced s'.
Proof. intros H [H1 H2 H3 H4 H5 H6 H7]. constructor; rewrite H; assumption. Qed.

Lemma Dom_overlay_ok N s nk sk ps :
  Dom N s -> bgContainer s = Some (overlay nk sk ps) -> Overlay_ok N s nk sk ps.
Proof.
  intros HD Hbg. destruct (dom_overlay HD) as [nk' [sk' [ps' Hov]]].
  pose proof (ov_bg Hov) as Hbg'. rewrite Hbg in Hbg'.
  apply Some_overlay_inj in Hbg'. destruct Hbg' as [-> [-> ->]]. exact Hov.
Qed.

Lemma Dom_set_observed N s v :
  Forall (fun id => page_id id = true) v -> Dom N s -> Dom N (set_observed v s).
Proof.
  intros Hv [[nk [sk [ps Hov]]] Hr Hb Hl Htg Htm Hob]. constructor; try assumption.
  exists nk, sk, ps. destruct Hov. now constructor.
Qed.

Lemma Dom_add_listener N s t ty h :
  page_id t = true -> ty <> animationend -> is_mouse_handler h = true ->
  Dom N s -> Dom N (set_listeners (listeners s ++ [mkListener t ty h]) s).
Proof.
  intros Ht Hty Hh [[nk [sk [ps Hov]]] Hr Hb Hl Htg Htm Hob]. constructor; try assumption.
  - exists nk, sk, ps. destruct Hov as [H1 H2 H3 H4 H5 H6 H7 H8].
    constructor; try assumption. cbn.
    eapply Forall_impl; [|exact H8]. intros e He. apply in_or_app. now left.
  - cbn. apply Forall_app. split; [exact Hl|]. constructor; [|constructor].
    unfold listener_ok. simpl. destruct h; try discriminate Hh; now split.
  - cbn [listeners set_listeners]. rewrite particle_targets_app.
    unfold particle_targets at 2. simpl.
    destruct ty; try (now contradiction Hty); simpl; now rewrite app_nil_r.
Qed.

Lemma Setup_observe w reduced N nk sk ps nn s v :
  Forall (fun id => page_id id = true) v ->
  Setup w reduced N nk sk ps nn s -> Setup w reduced N nk sk ps nn (set_observed v s).
Proof.
  intros Hv [H1 H2 [B1 B2 B3 B4 B5 B6 B7] H4 H5].
  constructor; try assumption; [now apply Dom_set_observed|now constructor].
Qed.

Lemma Setup_listen w reduced N nk sk ps nn s t ty h :
  page_id t = true -> ty <> animationend -> is_mouse_handler h = true ->
  Setup w reduced N nk sk ps nn s ->
  Setup w reduced N nk sk ps nn (set_listeners (listeners s ++ [mkListener t ty h]) s).
Proof.
  intros Ht Hty Hh [H1 H2 [B1 B2 B3 B4 B5 B6 B7] H4 H5].
  constructor; try assumption; [now apply Dom_add_listener|now constructor].
Qed.

Lemma Setup_update w reduced N nk sk ps nn s id f :
  page_id id = true -> (forall e, nid (f e) = nid e) ->
  Setup w reduced N nk sk ps nn s ->
  Setup w reduced N nk sk ps nn (onDom (update id f) s).
Proof.
  intros Hid Hf [H1 H2 [B1 B2 B3 B4 B5 B6 B7] H4 H5].
  destruct (Dom_update N s id f Hid Hf H1) as [HD Ebg].
  constructor; try assumption; [congruence|now constructor].
Qed.

Lemma Setup_overlay_write w reduced N N' nk sk ps nk' sk' ps' nn nn' s s' :
  overlay_write s s' -> Dom N' s' -> Overlay_ok N' s' nk' sk' ps' ->
  neuralNodes s' = nn' ->
  Setup w reduced N nk sk ps nn s -> Setup w reduced N' nk' sk' ps' nn' s'.
Proof.
  intros Hw HD Hov Hnn [H1 H2 H3 H4 H5]. constructor.
  - exact HD.
  - exact (ov_bg Hov).
  - now apply (Booting_overlay_write w reduced s).
  - exact Hnn.
  - rewrite Hw. exact H5.
Qed.

Lemma query_page N s sels :
  Dom N s ->
  forallb (fun sel => match sel with
                      | ByClass c =>
                          negb (existsb (String.eqb c)
                                  ["futuristic-bg"; "digital-grid"; "neural-network";
                                   "floating-shapes"; "hex-shape"; "particle";
                                   "neural-node"; "neural-connection"])
                      | ByTag t => negb (String.eqb t "div")
                      end) sels = true ->
  Forall (fun n => page_id (nid (elem n)) = true)
         (document_querySelectorAll sels (document s)).
Proof.
  intros HD Hsels. apply Forall_forall. intros n Hn.
  unfold document_querySelectorAll in Hn.
  apply filter_In in Hn. destruct Hn as [Hn Hm].
  exact (document_match_page N s sels n HD Hsels Hn Hm).
Qed.

Lemma setupScrollAnimations_total w reduced N nk sk ps nn :
  total (Setup w reduced N nk sk ps nn) setupScrollAnimations
        (fun _ => Setup w reduced N nk sk ps nn).
Proof.
  intros s HS. unfold setupScrollAnimations. unfold bind at 1, gets at 1. cbv zeta.
  refine (total_forEach_inv (Setup w reduced N nk sk ps nn)
            (fun n : Node => page_id (nid (elem n)) = true) _ _ _ _ s HS).
  - exact (query_page N s
             [ByClass "fade-in-element"; ByClass "portal-card"; ByClass "hero-cta"]
             (st_dom _ _ _ _ _ _ _ _ HS) eq_refl).
  - intros el j Hel s1 HS1. unfold modify. eexists tt, _. split; [reflexivity|].
    apply Setup_observe; [|exact HS1].
    apply Forall_app. split; [exact (dom_observed (st_dom _ _ _ _ _ _ _ _ HS1))|].
    constructor; [exact Hel|constructor].
Qed.

Lemma setupInteractiveElements_total w reduced N nk sk ps nn :
  total (Setup w reduced N nk sk ps nn) setupInteractiveElements
        (fun _ => Setup w reduced N nk sk ps nn).
Proof.
  unfold setupInteractiveElements.
  apply total_bind with (Q := fun doc s => doc = document s /\
                                           Setup w reduced N nk sk ps nn s).
  { intros s HS. exists (document s), s. now split. }
  intros doc. cbv zeta.
  apply total_bind with (Q := fun _ => Setup w reduced N nk sk ps nn).
  { intros s [-> HS].
    refine (total_forEach_inv (Setup w reduced N nk sk ps nn)
              (fun n : Node => page_id (nid (elem n)) = true) _ _ _ _ s HS).
    - exact (query_page N s [ByClass "btn-primary"; ByClass "btn-secondary"]
               (st_dom _ _ _ _ _ _ _ _ HS) eq_refl).
    - intros b j Hb s1 HS1. unfold bind, addEventListener, modify.
      eexists tt, _. split; [reflexivity|].
      apply Setup_listen; [exact Hb|discriminate|reflexivity|].
      apply Setup_listen; [exact Hb|discriminate|reflexivity|exact HS1]. }
  intros _.
  apply total_bind with (Q := fun doc s => doc = document s /\
                                           Setup w reduced N nk sk ps nn s).
  { intros s HS. exists (document s), s. now split. }
  intros doc2.
  apply total_bind with (Q := fun _ => Setup w reduced N nk sk ps nn).
  { intros s [-> HS].
    refine (total_forEach_inv (Setup w reduced N nk sk ps nn)
              (fun n : Node => page_id (nid (elem n)) = true) _ _ _ _ s HS).
    - exact (query_page N s [ByClass "portal-card"] (st_dom _ _ _ _ _ _ _ _ HS) eq_refl).
    - intros b j Hb s1 HS1. unfold bind, addEventListener, modify.
      eexists tt, _. split; [reflexivity|].
      apply Setup_listen; [exact Hb|discriminate|reflexivity|].
      apply Setup_listen; [exact Hb|discriminate|reflexivity|exact HS1]. }
  intros _.
  apply total_bind with (Q := fun doc s => doc = document s /\
                                           Setup w reduced N nk sk ps nn s).
  { intros s HS. exists (document s), s. now split. }
  intros doc3 s [-> HS].
  refine (total_forEach_inv (Setup w reduced N nk sk ps nn)
            (fun n : Node => page_id (nid (elem n)) = true) _ _ _ _ s HS).
  - exact (query_page N s [ByTag "svg"] (st_dom _ _ _ _ _ _ _ _ HS) eq_refl).
  - intros b j Hb s1 HS1. unfold modify. eexists tt, _. split; [reflexivity|].
    apply Setup_update; [exact Hb|apply nid_classList_add|exact HS1].
Qed.

Lemma Wired_overlay_write bd obs ptr s s' :
  overlay_write s s' -> pointer_listeners s' = pointer_listeners s ->
  Wired bd obs ptr s -> Wired bd obs ptr s'.
Proof.
  intros Hw Hp [H1 H2 H3 H4 H5]. constructor; try (rewrite Hw; assumption).
  now rewrite Hp.
Qed.

Lemma pointer_listeners_wired (l1 l2 : list Node) :
  filter (fun l => negb (EventType_eqb (l_type l) animationend))
         (flat_map button_listeners l1 ++ flat_map card_listeners l2)
  = flat_map button_listeners l1 ++ flat_map card_listeners l2.
Proof.
  rewrite filter_app. f_equal.
  - induction l1 as [|a l IH]; simpl; [reflexivity|]. now rewrite IH.
  - induction l2 as [|a l IH]; simpl; [reflexivity|]. now rewrite IH.
Qed.

Section Boot.

Variable rv : nat -> float.
Variable sq : float -> float.
Variable pw : float -> float -> float.
Variable at2 : float -> float -> float.

Local Abbreviation Inv := (Inv sq pw at2).

Lemma filter_true {A} (f : A -> bool) (l : list A) :
  Forall (fun a => f a = true) l -> filter f l = l.
Proof. induction 1 as [|a l Ha Hl IH]; simpl; [reflexivity|]. now rewrite Ha, IH. Qed.

Lemma filter_false {A} (f : A -> bool) (l : list A) :
  Forall (fun a => f a = false) l -> filter f l = [].
Proof. induction 1 as [|a l Ha Hl IH]; simpl; [reflexivity|]. now rewrite Ha. Qed.

Lemma filter_nodes ne ce :
  Forall (made_by SNode "neural-node") ne ->
  Forall (made_by SConnection "neural-connection") ce ->
  filter (is_made_by SNode) (ne ++ ce) = ne /\
  filter (fun e => negb (is_made_by SNode e)) (ne ++ ce) = ce.
Proof.
  intros Hne Hce. rewrite !filter_app.
  assert (Hn : Forall (fun e => is_made_by SNode e = true) ne).
  { eapply Forall_impl; [|exact Hne]. intros e He. unfold is_made_by.
    now rewrite (made_by_site _ _ _ He). }
  assert (Hc : Forall (fun e => is_made_by SNode e = false) ce).
  { eapply Forall_impl; [|exact Hce]. intros e He. unfold is_made_by.
    now rewrite (made_by_site _ _ _ He). }
  rewrite (filter_true _ ne Hn), (filter_false _ ce Hc), app_nil_r.
  rewrite (filter_false (fun e => negb (is_made_by SNode e)) ne),
          (filter_true (fun e => negb (is_made_by SNode e)) ce).
  - now split.
  - eapply Forall_impl; [|exact Hc]. intros e He. simpl. now rewrite He.
  - eapply Forall_impl; [|exact Hn]. intros e He. simpl. now rewrite He.
Qed.

Lemma boot_spec page w reduced :
  exists s, boot rv sq pw at2 page w reduced = Some (tt, s) /\
            Booted sq pw at2 page w reduced s.
Proof.
  unfold boot, script, constructor, init, createFuturisticBackground. js.
  lazymatch goal with
  | |- context [createFloatingShapes rv ?st] => set (s0 := st)
  end.
  assert (HS0 : Setup w reduced 0 [] [] [] [] s0).
  { constructor; try reflexivity.
    - constructor; try (now constructor).
      + exists [], [], []. constructor; try (now constructor).
      + destruct page as [i t cs st ch]. now exists i.
      + apply load_static.
    - constructor; reflexivity. }
  assert (HW0 : Wired (load page) [] [] s0) by (constructor; reflexivity).
  destruct (createFloatingShapes_spec rv 0 s0 [] [] []
              (st_dom _ _ _ _ _ _ _ _ HS0)
              (Dom_overlay_ok _ _ _ _ _ (st_dom _ _ _ _ _ _ _ _ HS0)
                 (st_bg _ _ _ _ _ _ _ _ HS0)))
    as [s1 [sk [E1 [HD1 [Hov1 [Hw1 [Hl1 [Hnn1 [_ [Hsk _]]]]]]]]]].
  rewrite E1. simpl app in Hov1.
  assert (HW1 : Wired (load page) [] [] s1).
  { apply (Wired_overlay_write _ _ _ s0 s1 Hw1); [|exact HW0].
    unfold pointer_listeners. now rewrite Hl1. }
  assert (HS1 : Setup w reduced 0 [] sk [] [] s1).
  { apply (Setup_overlay_write w reduced 0 0 [] [] [] [] sk [] [] [] s0 s1);
      try assumption; try (rewrite Hnn1; reflexivity). }
  destruct (setupScrollAnimations_total w reduced 0 [] sk [] [] s1 HS1)
    as [[] [s2 [E2 HS2]]].
  rewrite E2.
  assert (HW2 : Wired (load page) (watched page) [] s2).
  { pose proof (setupScrollAnimations_exact s1) as X2.
    rewrite E2 in X2. apply Some_tt_inj in X2.
    rewrite (document_query_page 0 s1
               [ByClass "fade-in-element"; ByClass "portal-card"; ByClass "hero-cta"]
               (st_dom _ _ _ _ _ _ _ _ HS1) eq_refl) in X2.
    rewrite (wd_body _ _ _ _ HW1), (wd_observed _ _ _ _ HW1) in X2.
    rewrite X2. destruct HW1 as [H1 H2 H3 H4 H5]. now constructor. }
  destruct (initParticleSystem_spec rv 0 s2 [] sk []
              (st_dom _ _ _ _ _ _ _ _ HS2)
              (Dom_overlay_ok _ _ _ _ _ (st_dom _ _ _ _ _ _ _ _ HS2)
                 (st_bg _ _ _ _ _ _ _ _ HS2)))
    as [s3 [ps [E3 [HD3 [Hov3 [Hw3 Hnn3]]]]]].
  rewrite E3. simpl in HD3, Hov3.
  assert (HW3 : Wired (load page) (watched page) [] s3).
  { apply (Wired_overlay_write _ _ _ s2 s3 Hw3); [|exact HW2].
    exact (proj1 (proj2 (proj2 (proj2 (proj2 (proj2
             (Quiet_initParticleSystem rv s2 tt s3 E3))))))). }
  rewrite (bt_width _ _ _ (st_boot _ _ _ _ _ _ _ _ HS2)) in HD3, Hov3.
  assert (HS3 : Setup w reduced (particleCount w) [] sk ps [] s3).
  { apply (Setup_overlay_write w reduced 0 _ [] sk [] [] sk ps [] [] s2 s3);
      try assumption;
      try (rewrite Hnn3; exact (st_nodes _ _ _ _ _ _ _ _ HS2)). }
  destruct (createNeuralNetwork_spec rv sq pw at2 (particleCount w) s3 sk ps HD3 Hov3
              (st_nodes _ _ _ _ _ _ _ _ HS3))
    as [s4 [ne [ce [pairs [E4 [HD4 [Hov4 [Hw4 [Hl4 [Hne4 [Hid4 [Hlen4
         [Hce4 [Hgeo4 [Hnear4 _]]]]]]]]]]]]]]].
  rewrite E4.
  assert (HW4 : Wired (load page) (watched page) [] s4).
  { apply (Wired_overlay_write _ _ _ s3 s4 Hw4); [|exact HW3].
    unfold pointer_listeners. now rewrite Hl4. }
  rewrite (bt_width _ _ _ (st_boot _ _ _ _ _ _ _ _ HS3)) in Hlen4.
  assert (HS4 : Setup w reduced (particleCount w) (ne ++ ce) sk ps (neuralNodes s4) s4).
  { apply (Setup_overlay_write w reduced (particleCount w) _ [] sk ps (ne ++ ce) sk ps
             [] _ s3 s4); try assumption; try reflexivity. }
  destruct (setupInteractiveElements_total w reduced (particleCount w) (ne ++ ce) sk ps
              (neuralNodes s4) s4 HS4) as [[] [s5 [E5 HS5]]].
  rewrite E5.
  assert (HW5 : Wired (served page) (watched page) (wired page) s5).
  { pose proof (setupInteractiveElements_exact s4) as X5.
    rewrite E5 in X5. apply Some_tt_inj in X5.
    rewrite (bounce_state_ids _ _ _
               (document_query_page _ s4 [ByTag "svg"]
                  (st_dom _ _ _ _ _ _ _ _ HS4) eq_refl)) in X5.
    rewrite (button_listeners_ids _ _
               (document_query_page _ s4
                  [ByClass "btn-primary"; ByClass "btn-secondary"]
                  (st_dom _ _ _ _ _ _ _ _ HS4) eq_refl)) in X5.
    rewrite (card_listeners_ids _ _
               (document_query_page _ s4 [ByClass "portal-card"]
                  (st_dom _ _ _ _ _ _ _ _ HS4) eq_refl)) in X5.
    rewrite (wd_body _ _ _ _ HW4) in X5.
    match type of X5 with
    | _ = bounce_state ?l ?st =>
        destruct (bounce_state_fields l st) as [_ [K1 [K2 [K3 [K4 [_ K6]]]]]]
    end.
    rewrite <- X5 in K1, K2, K3, K4, K6. cbn in K1, K2, K3, K4, K6.
    destruct HW4 as [H1 H2 H3 H4 H5]. constructor.
    - now rewrite K1.
    - now rewrite K2.
    - rewrite K6, H3. reflexivity.
    - now rewrite K3.
    - unfold pointer_listeners in *. rewrite K4, filter_app, H5.
      apply pointer_listeners_wired. }
  destruct HS5 as [HD5 Hbg5 [B1 B2 B3 B4 B5 B6 B7] Hnn5 Haf5].
  pose proof (Dom_overlay_ok _ _ _ _ _ HD5 Hbg5) as Hov5.
  unfold startAnimationLoop, disableAnimations. js. rewrite B2.
  assert (Hfinal : forall s6,
    bgContainer s6 = bgContainer s5 -> neuralNodes s6 = neuralNodes s5 ->
    body s6 = body s5 -> listeners s6 = listeners s5 -> observed s6 = observed s5 ->
    timers s6 = timers s5 -> nextSerial s5 <= nextSerial s6 ->
    animationFrameId s6 = Some (nextRaf s5) ->
    rafPending s6 = rafPending s5 ++ [nextRaf s5] -> nextRaf s6 = S (nextRaf s5) ->
    attached s6 = attached s5 -> innerWidth s6 = innerWidth s5 ->
    isReducedMotion s6 = isReducedMotion s5 ->
    particles s6 = particles s5 -> resizeTimeout s6 = resizeTimeout s5 ->
    headStyles s6 =
      headStyles s5 ++ (if reduced then [reducedMotionSheet (nextSerial s5)] else []) ->
    Booted sq pw at2 page w reduced s6).
  { intros s6 F1 F2 F3 F4 F5 F6 F7 F8 F9 F10 F11 F12 F14 F15 F16 F13.
    rewrite B5 in F8, F9, F10. rewrite B4 in F9. rewrite B3 in F13. simpl in F9, F13.
    assert (HD6 : Dom (particleCount w) s6) by (now apply (Dom_frame _ s5)).
    assert (Hov6 : Overlay_ok (particleCount w) s6 (ne ++ ce) sk ps).
    { apply Dom_overlay_ok; [exact HD6|congruence]. }
    pose proof (Overlay_ok_Kids _ _ _ _ _ Hov6) as HK.
    destruct (filter_nodes ne ce Hne4 Hce4) as [Fn Fc].
    constructor.
    - split; [exact HD6|split].
      + constructor.
        * exists 1. rewrite F8, F9. split; [reflexivity|]. split; [lia|now left].
        * rewrite F10. lia.
        * exact I.
      + apply (Net_of_overlay rv sq pw at2 (particleCount w) s6 ne ce sk ps pairs Hov6 Hne4);
          try rewrite F2, Hnn5; assumption.
    - unfold count_in_overlay. rewrite (in_overlay_shapes s6 _ _ _ (ov_bg Hov6) HK).
      rewrite length_map. rewrite Hsk. reflexivity.
    - unfold count_in_overlay. rewrite (in_overlay_particles s6 _ _ _ (ov_bg Hov6) HK).
      rewrite length_map. exact (ov_count Hov6).
    - unfold count_in_overlay. rewrite (in_overlay_nodes s6 _ _ _ (ov_bg Hov6) HK).
      rewrite length_map, Fn. exact Hlen4.
    - rewrite F2, Hnn5, <- Hlen4, <- (length_map nid ne), Hid4. symmetry. apply length_map.
    - exists (nextSerial s5). exact F13.
    - exact F9.
    - now rewrite F11.
    - now rewrite F12.
    - now rewrite F14.
    - destruct HW5 as [H1 H2 H3 H4 H5]. constructor; try congruence.
      unfold pointer_listeners in *. now rewrite F4.
    - now rewrite F6. }
  destruct reduced.
  - js. eexists. split; [reflexivity|].
    apply Hfinal; try reflexivity. cbn. lia.
  - eexists. split; [reflexivity|].
    apply Hfinal; try reflexivity. cbn. now rewrite app_nil_r.
Qed.

End Boot.

(** * Sessions *)

Section Sessions.

Variable rv : nat -> float.
Variable sq : float -> float.
Variable pw : float -> float -> float.
Variable at2 : float -> float -> float.

Local Abbreviation Inv := (Inv sq pw at2).

Lemma run_cons st a s :
  run rv sq pw at2 (st :: a) s =
  match step rv sq pw at2 st s with
  | Some (_, s1) => run rv sq pw at2 a s1
  | None => None
  end.
Proof.
  change (run rv sq pw at2 (st :: a) s)
    with (bind (step rv sq pw at2 st) (fun _ => run rv sq pw at2 a) s).
  unfold bind. now destruct (step rv sq pw at2 st s) as [[[] s1]|].
Qed.

Lemma run_app a b s :
  run rv sq pw at2 (a ++ b) s =
  match run rv sq pw at2 a s with
  | Some (_, s1) => run rv sq pw at2 b s1
  | None => None
  end.
Proof.
  revert s. induction a as [|st a IH]; intro s; [reflexivity|].
  cbn [app]. rewrite !run_cons.
  destruct (step rv sq pw at2 st s) as [[[] s1]|]; [apply IH|reflexivity].
Qed.

Lemma session_boot page w reduced trace :
  session rv sq pw at2 page w reduced trace =
  match boot rv sq pw at2 page w reduced with
  | Some (_, s0) => run rv sq pw at2 trace s0
  | None => None
  end.
Proof.
  unfold session, boot, bind.
  now destruct (script rv sq pw at2 (blank page w reduced)) as [[[] s0]|].
Qed.

Lemma session_app page w reduced a b :
  session rv sq pw at2 page w reduced (a ++ b) =
  match session rv sq pw at2 page w reduced a with
  | Some (_, s1) => run rv sq pw at2 b s1
  | None => None
  end.
Proof.
  rewrite !session_boot.
  destruct (boot rv sq pw at2 page w reduced) as [[[] s0]|]; [apply run_app|reflexivity].
Qed.

(** Every session runs to its end, in a state of the invariant. *)
Lemma session_Inv page w reduced trace :
  exists s, session rv sq pw at2 page w reduced trace = Some (tt, s) /\
            Inv (particleCount w) None s.
Proof.
  rewrite session_boot.
  destruct (boot_spec rv sq pw at2 page w reduced) as [s0 [E0 H0]].
  rewrite E0. apply run_Inv. exact (bd_inv _ _ _ _ _ _ _ H0).
Qed.

End Sessions.

(** * The end of a particle's animation *)

Lemma connected_overlay s bg id :
  bgContainer s = Some bg -> attached s = true -> In id (ids bg) ->
  connected id s = true.
Proof.
  intros Hbg Hat Hin. apply connected_in. unfold document.
  rewrite Hbg, Hat. destruct (body s) as [e ks]. rewrite ids_El. right.
  cbn [flat_map]. apply in_or_app. now left.
Qed.

Lemma map_filter_nid (p : NodeId) (ps : list Elem) :
  map nid (filter (fun e => negb (NodeId_eqb (nid e) p)) ps) =
  filter (fun i => negb (NodeId_eqb i p)) (map nid ps).
Proof.
  induction ps as [|e ps IH]; simpl; [reflexivity|].
  destruct (NodeId_eqb (nid e) p); simpl; now rewrite IH.
Qed.

Section Respawn.

Variable rv : nat -> float.
Variable sq : float -> float.
Variable pw : float -> float -> float.
Variable at2 : float -> float -> float.

Local Abbreviation Inv := (Inv sq pw at2).

Lemma animationend_spec N fz s nk sk ps ev :
  Inv N fz s -> Overlay_ok N s nk sk ps ->
  ev_type ev = animationend -> attached s = true ->
  In (ev_target ev) (map nid ps) ->
  exists s' q,
    dispatchEvent rv ev s = Some (tt, s') /\ Inv N fz s' /\
    Overlay_ok N s' nk sk
      (filter (fun e => negb (NodeId_eqb (nid e) (ev_target ev))) ps ++ [q]) /\
    nid q = Created SParticle (nextSerial s).
Proof.
  intros HI Hov Ety Hat Hin. pose proof HI as [HD [HR HN]].
  assert (Hc : connected (ev_target ev) s = true).
  { apply (connected_overlay s (overlay nk sk ps)); [exact (ov_bg Hov)|exact Hat|].
    rewrite ids_overlay. right. right. apply in_or_app. right.
    right. apply in_or_app. now right. }
  assert (Hl : In (ev_target ev) (particle_targets (listeners s))).
  { apply in_map_iff in Hin. destruct Hin as [e [Ee He]].
    pose proof (ov_listening Hov) as H. rewrite Forall_forall in H.
    specialize (H e He). rewrite Ee in H. unfold particle_targets.
    apply in_map_iff. eexists. split; [|apply filter_In; split; [exact H|reflexivity]].
    reflexivity. }
  destruct (particle_target_serial _ _ _ (dom_listeners HD) Hl) as [k [Ek Hk]].
  rewrite Ek in Hin.
  destruct (respawn_spec rv sq pw at2 N fz s nk sk ps k HI Hov Hin)
    as [s' [q [E [HI' [Hov' [Hq _]]]]]].
  exists s', q. rewrite Ek. split; [|tauto].
  unfold dispatchEvent. unfold bind at 1, gets at 1. rewrite Hc.
  unfold bind at 1, gets at 1. rewrite Ety.
  rewrite (single_listener (nextSerial s) (listeners s) (ev_target ev)
             (dom_listeners HD) (dom_targets HD) Hl).
  unfold forEach. simpl. unfold invoke. simpl. rewrite Ek.
  unfold bind at 1. rewrite E. reflexivity.
Qed.

End Respawn.

(** * Reading the document after a write *)

Lemma subtrees_update id f n :
  subtrees (update id f n) = map (update id f) (subtrees n).
Proof.
  induction n as [e ks IH] using Node_induction.
  cbn [update subtrees map]. f_equal.
  induction IH as [|k ks Hk Hks IHks]; simpl; [reflexivity|].
  rewrite map_app, Hk, IHks. reflexivity.
Qed.

Lemma find_map {A B} (p : B -> bool) (g : A -> B) (l : list A) :
  find p (map g l) = option_map g (find (fun x => p (g x)) l).
Proof.
  induction l as [|a l IH]; simpl; [reflexivity|].
  destruct (p (g a)); [reflexivity|exact IH].
Qed.

Lemma find_app {A} (p : A -> bool) (l1 l2 : list A) :
  find p (l1 ++ l2) = match find p l1 with
                      | Some x => Some x
                      | None => find p l2
                      end.
Proof.
  induction l1 as [|a l1 IH]; simpl; [reflexivity|].
  destruct (p a); [reflexivity|exact IH].
Qed.

Lemma elem_update id f n :
  elem (update id f n) = if NodeId_eqb (nid (elem n)) id then f (elem n) else elem n.
Proof. now destruct n. Qed.

Lemma nid_elem_update id f n :
  (forall e, nid (f e) = nid e) -> nid (elem (update id f n)) = nid (elem n).
Proof.
  intro Hf. rewrite elem_update. destruct (NodeId_eqb (nid (elem n)) id); auto.
Qed.

Lemma lookup_in_update id x f n :
  (forall e, nid (f e) = nid e) ->
  lookup_in id (update x f n) = option_map (update x f) (lookup_in id n).
Proof.
  intro Hf. unfold lookup_in. rewrite subtrees_update, find_map.
  f_equal. generalize (subtrees n). intro l.
  induction l as [|k l IH]; simpl; [reflexivity|].
  rewrite (nid_elem_update x f k Hf), IH. reflexivity.
Qed.

(** The first element with the identity [p] is where it was when a child
    is appended to [p]. *)
Lemma lookup_in_appendChild p c n :
  lookup_in p (appendChild p c n) =
  option_map (fun k => El (elem k) (map (appendChild p c) (kids k) ++ [c]))
             (lookup_in p n).
Proof.
  induction n as [e ks IH] using Node_induction.
  unfold lookup_in. cbn [appendChild subtrees find elem].
  destruct (NodeId_eqb (nid e) p) eqn:Ee; [reflexivity|].
  fold (lookup_in p).
  induction IH as [|k ks Hk Hks IHks]; [reflexivity|].
  cbn [map flat_map]. rewrite !find_app.
  fold (lookup_in p (appendChild p c k)). fold (lookup_in p k).
  rewrite Hk. destruct (lookup_in p k); [reflexivity|exact IHks].
Qed.

Lemma document_update s x f :
  document (onDom (update x f) s) = update x f (document s).
Proof.
  unfold document, onDom. cbn [body bgContainer attached set_trees].
  destruct (body s) as [e ks]. cbn [update].
  destruct (bgContainer s) as [bg|]; [|reflexivity].
  cbn [option_map]. destruct (attached s); reflexivity.
Qed.

Lemma document_appendChild s p c :
  document (onDom (appendChild p c) s) = appendChild p c (document s).
Proof.
  unfold document, onDom. cbn [body bgContainer attached set_trees].
  destruct (body s) as [e ks].
  destruct (bgContainer s) as [bg|]; [|reflexivity].
  cbn [option_map]. destruct (attached s); [|reflexivity].
  cbn [appendChild map]. destruct (NodeId_eqb (nid e) p); reflexivity.
Qed.

Lemma lookup_update id x f s :
  (forall e, nid (f e) = nid e) ->
  lookup id (onDom (update x f) s) = option_map (update x f) (lookup id s).
Proof. intro Hf. unfold lookup. rewrite document_update. now apply lookup_in_update. Qed.

Lemma lookup_appendChild p c s :
  lookup p (onDom (appendChild p c) s) =
  option_map (fun k => El (elem k) (map (appendChild p c) (kids k) ++ [c]))
             (lookup p s).
Proof. unfold lookup. rewrite document_appendChild. apply lookup_in_appendChild. Qed.

Lemma lookup_in_nid id n k : lookup_in id n = Some k -> nid (elem k) = id.
Proof.
  unfold lookup_in. intro H. apply find_some in H. destruct H as [_ H].
  now apply NodeId_eqb_eq.
Qed.

Lemma lookup_in_found id n : In id (ids n) -> exists k, lookup_in id n = Some k.
Proof.
  intro Hin. unfold lookup_in.
  destruct (find (fun k => NodeId_eqb (nid (elem k)) id) (subtrees n)) as [k|] eqn:E;
    [now exists k|exfalso].
  unfold ids, elements in Hin. rewrite map_map in Hin. apply in_map_iff in Hin.
  destruct Hin as [k [Ek Hk]].
  pose proof (find_none _ _ E k Hk) as H. simpl in H. rewrite Ek in H.
  now rewrite NodeId_eqb_refl in H.
Qed.

(** ** Inline styles *)

Lemma find_style_remove k k' (st : Style) :
  k <> k' ->
  find (fun p => String.eqb (fst p) k) (style_remove k' st) =
  find (fun p => String.eqb (fst p) k) st.
Proof.
  intro Hk. unfold style_remove. induction st as [|[a v] st IH]; simpl; [reflexivity|].
  destruct (String.eqb a k') eqn:E1; simpl.
  - apply String.eqb_eq in E1. subst a.
    destruct (String.eqb k' k) eqn:E2; [|exact IH].
    apply String.eqb_eq in E2. congruence.
  - destruct (String.eqb a k); [reflexivity|exact IH].
Qed.

Lemma find_style_removed k (st : Style) :
  find (fun p => String.eqb (fst p) k) (style_remove k st) = None.
Proof.
  unfold style_remove. induction st as [|[a v] st IH]; simpl; [reflexivity|].
  destruct (String.eqb a k) eqn:E; simpl; [exact IH|]. now rewrite E.
Qed.

Lemma style_get_set k v st :
  css_is_empty v = false -> style_get k (style_set k v st) = v.
Proof.
  intro Hv. unfold style_get, style_set. rewrite Hv, find_app, find_style_removed.
  simpl. now rewrite String.eqb_refl.
Qed.

Lemma style_get_cleared k v st :
  css_is_empty v = true -> style_get k (style_set k v st) = CssText "".
Proof.
  intro Hv. unfold style_get, style_set. now rewrite Hv, find_style_removed.
Qed.

Lemma style_get_set_other k k' v st :
  k <> k' -> style_get k (style_set k' v st) = style_get k st.
Proof.
  intro Hk. unfold style_get, style_set.
  destruct (css_is_empty v).
  - now rewrite find_style_remove.
  - rewrite find_app, find_style_remove by exact Hk.
    destruct (find (fun p => String.eqb (fst p) k) st); [reflexivity|].
    simpl. destruct (String.eqb k' k) eqn:E; [|reflexivity].
    apply String.eqb_eq in E. congruence.
Qed.

(** [el.style.k = v] as the next read of the document sees it. *)
Lemma style_of_set k v id s :
  css_is_empty v = false -> lookup id s <> None ->
  style_of k id (onDom (update id (set_style k v)) s) = Some v.
Proof.
  intros Hv Hl. unfold style_of. rewrite lookup_update by reflexivity.
  destruct (lookup id s) as [n|] eqn:E; [|congruence].
  cbn [option_map]. rewrite elem_update.
  rewrite (lookup_in_nid id _ n E), NodeId_eqb_refl. cbn [set_style style].
  now rewrite style_get_set.
Qed.

Lemma style_of_cleared k v id s :
  css_is_empty v = true -> lookup id s <> None ->
  style_of k id (onDom (update id (set_style k v)) s) = Some (CssText "").
Proof.
  intros Hv Hl. unfold style_of. rewrite lookup_update by reflexivity.
  destruct (lookup id s) as [n|] eqn:E; [|congruence].
  cbn [option_map]. rewrite elem_update.
  rewrite (lookup_in_nid id _ n E), NodeId_eqb_refl. cbn [set_style style].
  now rewrite style_get_cleared.
Qed.

Lemma style_of_set_other k k' v id x s :
  k <> k' ->
  style_of k id (onDom (update x (set_style k' v)) s) = style_of k id s.
Proof.
  intro Hk. unfold style_of. rewrite lookup_update by reflexivity.
  destruct (lookup id s) as [n|]; [|reflexivity].
  cbn [option_map]. rewrite elem_update.
  destruct (NodeId_eqb (nid (elem n)) x); [|reflexivity].
  cbn [set_style style]. now rewrite style_get_set_other.
Qed.

Lemma lookup_update_found id x f s :
  (forall e, nid (f e) = nid e) ->
  lookup id s <> None -> lookup id (onDom (update x f) s) <> None.
Proof.
  intros Hf H. rewrite lookup_update by exact Hf.
  now destruct (lookup id s).
Qed.

(** * Pointer events on the page *)

Lemma find_none_forall {A} (p : A -> bool) (l : list A) :
  Forall (fun a => p a = false) l -> find p l = None.
Proof. induction 1 as [|a l Ha Hl IH]; simpl; [reflexivity|]. now rewrite Ha. Qed.

Lemma find_overlay_page N s nk sk ps id :
  Overlay_ok N s nk sk ps -> page_id id = true ->
  find (fun e => NodeId_eqb (nid e) id) (elements (overlay nk sk ps)) = None.
Proof.
  intros Hov Hid. apply find_none_forall. apply Forall_forall. intros e He.
  apply NodeId_eqb_neq. intro E.
  apply (page_id_not_in_overlay id nk sk ps (Overlay_ok_Kids _ _ _ _ _ Hov) Hid).
  unfold ids. apply in_map_iff. now exists e.
Qed.

(** The elements with a page identity, as a read of the document meets
    them, are those of [body]. *)
Lemma find_document_page N s id :
  Dom N s -> page_id id = true ->
  find (fun e => NodeId_eqb (nid e) id) (elements (document s)) =
  find (fun e => NodeId_eqb (nid e) id) (elements (body s)).
Proof.
  intros HD Hid. destruct (dom_overlay HD) as [nk [sk [ps Hov]]].
  unfold document. rewrite (ov_bg Hov). destruct (body s) as [e ks].
  destruct (attached s); [|reflexivity].
  unfold elements. cbn [subtrees map flat_map find elem].
  destruct (NodeId_eqb (nid e) id); [reflexivity|].
  rewrite map_app, find_app.
  change (map elem (subtrees (overlay nk sk ps))) with (elements (overlay nk sk ps)).
  now rewrite (find_overlay_page N s nk sk ps id Hov Hid).
Qed.

Lemma lookup_elements id s :
  option_map elem (lookup id s) =
  find (fun e => NodeId_eqb (nid e) id) (elements (document s)).
Proof. unfold lookup, lookup_in, elements. now rewrite find_map. Qed.

Lemma deref_lookup N s id n :
  Dom N s -> page_id id = true -> lookup id s = Some n ->
  deref id s = Some (elem n, s).
Proof.
  intros HD Hid Hl. destruct (dom_overlay HD) as [nk [sk [ps Hov]]].
  pose proof (lookup_elements id s) as H. rewrite Hl in H. cbn [option_map] in H.
  rewrite (find_document_page N s id HD Hid) in H.
  unfold deref. rewrite (ov_bg Hov), find_app, <- H. reflexivity.
Qed.

Lemma lookup_body N s id :
  Dom N s -> page_id id = true ->
  (lookup id s <> None <-> In id (ids (body s))).
Proof.
  intros HD Hid.
  pose proof (lookup_elements id s) as H.
  rewrite (find_document_page N s id HD Hid) in H. split.
  - intro Hl. destruct (lookup id s) as [n|]; [|congruence]. cbn in H.
    symmetry in H. apply find_some in H. destruct H as [Hin E].
    apply NodeId_eqb_eq in E. unfold ids. apply in_map_iff. now exists (elem n).
  - intros Hin Hl. rewrite Hl in H. cbn in H. symmetry in H.
    unfold ids in Hin. apply in_map_iff in Hin. destruct Hin as [e [Ee He]].
    pose proof (find_none _ _ H e He) as Hf. cbn in Hf.
    now rewrite Ee, NodeId_eqb_refl in Hf.
Qed.

Lemma card_glow_computed (card : Elem) :
  (let cardType :=
     if contains "student-portal" card then "cyan"
     else if contains "examiner-portal" card then "blue" else "amber" in
   let shadowColor := "rgba(6, 182, 212, 0.25)" in
   let shadowColor :=
     if String.eqb cardType "blue" then "rgba(59, 130, 246, 0.25)" else shadowColor in
   let shadowColor :=
     if String.eqb cardType "amber" then "rgba(245, 158, 11, 0.25)" else shadowColor in
   ("0 8px 25px " ++ shadowColor ++ ", 0 0 20px "
    ++ replace "0.25" "0.1" shadowColor)%string)
  = card_glow card.
Proof.
  unfold card_glow.
  destruct (contains "student-portal" card); [reflexivity|].
  destruct (contains "examiner-portal" card); reflexivity.
Qed.

(** What the two card handlers leave in the inline style of the card. *)
Lemma onCardMouseMove_spec N s card ev n :
  Dom N s -> page_id card = true -> lookup card s = Some n ->
  exists s',
    onCardMouseMove card ev s = Some (tt, s') /\
    lookup card s' <> None /\
    style_of "transform" card s' = Some (CssText "translateY(-4px)") /\
    style_of "boxShadow" card s' = Some (CssText (card_glow (elem n))) /\
    style_of "transition" card s' = Some (CssText card_transition).
Proof.
  intros HD Hid Hl. unfold onCardMouseMove. unfold bind at 1.
  rewrite (deref_lookup N s card n HD Hid Hl). cbv zeta.
  pose proof (card_glow_computed (elem n)) as Hg. cbv zeta in Hg. rewrite Hg.
  unfold bind, modify. eexists. split; [reflexivity|].
  assert (H0 : lookup card s <> None) by congruence.
  pose proof (lookup_update_found card card
                (set_style "transform" (CssText "translateY(-4px)")) s
                (fun _ => eq_refl) H0) as H1.
  pose proof (lookup_update_found card card
                (set_style "boxShadow" (CssText (card_glow (elem n)))) _
                (fun _ => eq_refl) H1) as H2.
  split; [apply lookup_update_found; [reflexivity|exact H2]|].
  split; [|split].
  - rewrite !style_of_set_other by discriminate.
    apply style_of_set; [reflexivity|exact H0].
  - rewrite style_of_set_other by discriminate.
    apply style_of_set; [|exact H1].
    unfold card_glow.
    destruct (contains "student-portal" (elem n)); [reflexivity|].
    destruct (contains "examiner-portal" (elem n)); reflexivity.
  - apply style_of_set; [reflexivity|exact H2].
Qed.

Lemma onCardMouseLeave_spec s card ev :
  lookup card s <> None ->
  exists s',
    onCardMouseLeave card ev s = Some (tt, s') /\
    style_of "transform" card s' = Some (CssText "") /\
    forall k, k <> "transform" -> style_of k card s' = style_of k card s.
Proof.
  intro Hl. unfold onCardMouseLeave, modify. eexists. split; [reflexivity|].
  split; [apply style_of_cleared; [reflexivity|exact Hl]|].
  intros k Hk. now apply style_of_set_other.
Qed.

(** * Timers on the page *)

Lemma lastChild_connected id s c :
  lastChild id s = Some c -> connected (nid (elem c)) s = true.
Proof.
  unfold lastChild, lookup, lookup_in. intro H.
  destruct (find (fun k => NodeId_eqb (nid (elem k)) id) (subtrees (document s)))
    as [n|] eqn:E; [|discriminate H].
  apply find_some in E. destruct E as [Hn _].
  apply connected_in, subtree_ids.
  apply (subtrees_trans n (document s) Hn).
  destruct n as [e ks]. cbn [kids] in H. cbn [subtrees]. right.
  apply in_flat_map. exists c. split; [|apply subtrees_self].
  apply in_rev. destruct (rev ks) as [|c' l]; [discriminate H|].
  injection H as ->. now left.
Qed.

Lemma lastChild_appendChild p c s :
  lookup p s <> None -> lastChild p (onDom (appendChild p c) s) = Some c.
Proof.
  intro H. unfold lastChild. rewrite lookup_appendChild.
  destruct (lookup p s) as [k|]; [|congruence].
  cbn [option_map kids]. now rewrite rev_app_distr.
Qed.

Lemma style_of_appendChild k p c s :
  style_of k p (onDom (appendChild p c) s) = style_of k p s.
Proof.
  unfold style_of. rewrite lookup_appendChild. now destruct (lookup p s).
Qed.

Lemma lookup_appendChild_found p c s :
  lookup p s <> None -> lookup p (onDom (appendChild p c) s) <> None.
Proof. intro H. rewrite lookup_appendChild. now destruct (lookup p s). Qed.

Lemma removeNode_gone r n : nid (elem n) <> r -> ~ In r (ids (removeNode r n)).
Proof.
  induction n as [e ks IH] using Node_induction. cbn [elem]. intro Hr.
  rewrite removeNode_El, ids_El. intros [E|Hin]; [contradiction|].
  apply in_flat_map in Hin. destruct Hin as [k' [Hk' Hin]].
  apply in_map_iff in Hk'. destruct Hk' as [k [<- Hk]].
  apply filter_In in Hk. destruct Hk as [Hk Hne].
  rewrite Forall_forall in IH. apply (IH k Hk); [|exact Hin].
  apply NodeId_eqb_neq. now destruct (NodeId_eqb (nid (elem k)) r).
Qed.

Section PageTimers.

Variable rv : nat -> float.
Variable sq : float -> float.
Variable pw : float -> float -> float.
Variable at2 : float -> float -> float.

Local Abbreviation Inv := (Inv sq pw at2).

Lemma onButtonHover_spec N fz ev s :
  Inv N fz s -> page_id (ev_target ev) = true -> lookup (ev_target ev) s <> None ->
  exists s',
    onButtonHover ev s = Some (tt, s') /\ Inv N fz s' /\
    lookup (ev_target ev) s' <> None /\
    style_of "transform" (ev_target ev) s' = Some (CssText "translateY(-4px)") /\
    lastChild (ev_target ev) s' = Some (leaf (new_ripple ev s)) /\
    timers s' = timers s ++ [mkTimer (nextTimer s) (clock s + 600)
                                     (RemoveRipple (Created SRipple (nextSerial s)))].
Proof.
  intros HI Ht Hl. unfold onButtonHover, createRippleEffect. js_page.
  fold (new_ripple ev s).
  eexists. split; [reflexivity|].
  set (s1 := onDom (update (ev_target ev)
                      (set_style "transform" (CssText "translateY(-4px)"))) s).
  set (s2 := onDom (update (ev_target ev) (set_style "position" (CssText "relative")))
                   (set_nextSerial (S (nextSerial s)) s1)).
  set (s3 := onDom (update (ev_target ev) (set_style "overflow" (CssText "hidden"))) s2).
  assert (H1 : lookup (ev_target ev) s1 <> None)
    by (apply lookup_update_found; [reflexivity|exact Hl]).
  assert (H2 : lookup (ev_target ev) s2 <> None)
    by (apply lookup_update_found; [reflexivity|exact H1]).
  assert (H3 : lookup (ev_target ev) s3 <> None)
    by (apply lookup_update_found; [reflexivity|exact H2]).
  split; [|split; [|split; [|split; [|reflexivity]]]].
  - apply Inv_set_timers.
    + apply Forall_app. split; [exact (Inv_timers _ _ _ _ _ _ HI)|repeat constructor].
    + apply Inv_append; [exact Ht|reflexivity|].
      apply Inv_update; [exact Ht|reflexivity|].
      apply Inv_update; [exact Ht|reflexivity|].
      apply Inv_set_nextSerial; [unfold s1; cbn; lia|].
      apply Inv_update; [exact Ht|reflexivity|exact HI].
  - apply (lookup_appendChild_found _ _ s3 H3).
  - change (style_of "transform" (ev_target ev)
              (onDom (appendChild (ev_target ev) (leaf (new_ripple ev s))) s3)
            = Some (CssText "translateY(-4px)")).
    rewrite style_of_appendChild. unfold s3, s2.
    rewrite !style_of_set_other by discriminate.
    apply (style_of_set "transform" _ (ev_target ev) s); [reflexivity|exact Hl].
  - apply (lastChild_appendChild _ _ s3 H3).
Qed.

Lemma onButtonLeave_spec ev s :
  lookup (ev_target ev) s <> None ->
  exists s',
    onButtonLeave ev s = Some (tt, s') /\
    style_of "transform" (ev_target ev) s' = Some (CssText "").
Proof.
  intro Hl. unfold onButtonLeave, modify. eexists. split; [reflexivity|].
  apply style_of_cleared; [reflexivity|exact Hl].
Qed.

(** What a timer's callback does to the page. *)
Lemma run_task_body N fz tm s :
  timer_ok tm -> Inv N fz s ->
  exists s',
    run_task rv sq pw at2 (task tm) s = Some (tt, s') /\ Inv N fz s' /\
    body s' = match task tm with
              | RevealSibling x => update x (classList_add "in-view") (body s)
              | RemoveRipple r => removeNode r (body s)
              | ResizeDebounced => body s
              end.
Proof.
  unfold timer_ok, run_task. intros Hok HI. destruct (task tm) as [sib|r|].
  - unfold modify. eexists. split; [reflexivity|]. split; [|reflexivity].
    apply Inv_update; [exact Hok|apply nid_classList_add|exact HI].
  - exact (element_remove_page sq pw at2 N fz r s Hok HI).
  - destruct (handleResize_Inv rv sq pw at2 N fz s HI) as [s' [E [HI' [Hw _]]]].
    exists s'. split; [exact E|]. split; [exact HI'|]. rewrite Hw. reflexivity.
Qed.

Lemma run_task_ids N fz tm s :
  timer_ok tm -> Inv N fz s ->
  exists s',
    run_task rv sq pw at2 (task tm) s = Some (tt, s') /\ Inv N fz s' /\
    incl (ids (body s')) (ids (body s)) /\
    forall r, task tm = RemoveRipple r -> (forall i, r <> Static i) ->
              ~ In r (ids (body s')).
Proof.
  intros Hok HI. destruct (run_task_body N fz tm s Hok HI) as [s' [E [HI' Hb]]].
  exists s'. split; [exact E|]. split; [exact HI'|]. rewrite Hb. split.
  - intros x Hx. destruct (task tm) as [sib|r|]; [| |exact Hx].
    + now rewrite ids_update in Hx by apply nid_classList_add.
    + now apply ids_removeNode in Hx.
  - intros r -> Hr. apply removeNode_gone.
    destruct HI as [HD _]. destruct (dom_root HD) as [i Hi]. rewrite Hi. intro E'.
    now apply (Hr i).
Qed.

(** Once its time has come, the task that removes [r] has run, and [r]
    is out of the page. *)
Lemma elapse_removes N fz t tm r s :
  Inv N fz s -> In tm (timers s) -> task tm = RemoveRipple r -> (due tm <= t)%Z ->
  (forall i, r <> Static i) ->
  exists s', elapse rv sq pw at2 t s = Some (tt, s') /\ Inv N fz s' /\
             ~ In r (ids (body s')).
Proof.
  intros HI Hin Htask Hdue Hr. unfold elapse. js_page.
  assert (Htm : Forall timer_ok (timers s)) by exact (Inv_timers _ _ _ _ _ _ HI).
  match goal with
  | |- exists s', forEach ?l ?f ?s1 = _ /\ _ =>
      destruct (total_forEach
                  (fun done s2 => Inv N fz s2 /\
                                  (In tm done -> ~ In r (ids (body s2)))) f l)
        with (s := s1) as [[] [s' [E [HI' Hgone]]]]
  end.
  - intros done a rest El s1 [HI1 Hg1].
    assert (Ha : timer_ok a).
    { rewrite Forall_forall in Htm. apply Htm.
      assert (Hal : In a (sort_by_due (filter (fun tm0 => (due tm0 <=? t)%Z) (timers s)))).
      { rewrite El. apply in_or_app. right. now left. }
      apply sort_by_due_In, filter_In in Hal. tauto. }
    destruct (run_task_ids N fz a s1 Ha HI1) as [s2 [E2 [HI2 [Hincl Hrm]]]].
    exists tt, s2. split; [exact E2|]. split; [exact HI2|].
    intro Hd. apply in_app_or in Hd. destruct Hd as [Hd|[->|[]]].
    + intro Hx. apply (Hg1 Hd). now apply Hincl.
    + now apply Hrm.
  - split.
    + apply Inv_set_clock. apply Inv_set_timers; [|exact HI].
      apply incl_Forall with (l1 := timers s); [apply incl_filter|exact Htm].
    + intros [].
  - exists s'. split; [exact E|]. split; [exact HI'|]. apply Hgone.
    apply sort_by_due_In, filter_In. split; [exact Hin|]. now apply Z.leb_le.
Qed.

End PageTimers.

(** * Scroll reveals *)

Lemma contains_classList_add c e : contains c (classList_add c e) = true.
Proof.
  unfold classList_add. destruct (contains c e) eqn:E; [exact E|].
  unfold contains. cbn [classList]. rewrite existsb_app. simpl.
  rewrite String.eqb_refl. now rewrite orb_true_r.
Qed.

Lemma elements_removeNode e id n :
  In e (elements (removeNode id n)) -> In e (elements n).
Proof.
  induction n as [e0 ks IH] using Node_induction. rewrite removeNode_El.
  unfold elements. cbn [subtrees map]. intros [E|Hin]; [now left|right].
  induction IH as [|k ks Hk Hks IHks]; simpl in *; [contradiction|].
  rewrite map_app. apply in_or_app.
  destruct (NodeId_eqb (nid (elem k)) id); simpl in Hin.
  - right. now apply IHks.
  - rewrite map_app in Hin. apply in_app_or in Hin.
    destruct Hin as [Hin|Hin]; [left; now apply Hk|right; now apply IHks].
Qed.

Lemma has_class_document cls id s : has_class cls id s = classed cls id (document s).
Proof. reflexivity. Qed.

Lemma classed_update_other cls id x f n :
  (forall e, nid (f e) = nid e) -> x <> id ->
  classed cls id (update x f n) = classed cls id n.
Proof.
  intros Hf Hx. unfold classed. rewrite elements_update.
  induction (elements n) as [|e l IH]; simpl; [reflexivity|].
  rewrite IH. f_equal.
  destruct (NodeId_eqb (nid e) x) eqn:E; [|reflexivity].
  apply NodeId_eqb_eq in E. rewrite Hf.
  assert (H : NodeId_eqb (nid e) id = false) by (apply NodeId_eqb_neq; congruence).
  now rewrite H.
Qed.

Lemma classed_update_self c id n :
  In id (ids n) -> classed c id (update id (classList_add c) n) = true.
Proof.
  intro Hin. unfold classed. rewrite elements_update. apply existsb_exists.
  unfold ids in Hin. apply in_map_iff in Hin. destruct Hin as [e [Ee He]].
  exists (classList_add c e). split.
  - apply in_map_iff. exists e. split; [|exact He].
    now rewrite Ee, NodeId_eqb_refl.
  - rewrite nid_classList_add, Ee, NodeId_eqb_refl, contains_classList_add.
    reflexivity.
Qed.

Lemma classed_removeNode cls id r n :
  classed cls id n = false -> classed cls id (removeNode r n) = false.
Proof.
  unfold classed. intro H.
  destruct (existsb _ (elements (removeNode r n))) eqn:E; [|reflexivity].
  apply existsb_exists in E. destruct E as [e [He Ht]].
  apply elements_removeNode in He.
  assert (Hex : existsb (fun e => NodeId_eqb (nid e) id && contains cls e)
                        (elements n) = true)
    by (apply existsb_exists; now exists e).
  congruence.
Qed.

Lemma has_class_body N s cls id :
  Dom N s -> page_id id = true -> has_class cls id s = classed cls id (body s).
Proof.
  intros HD Hid. destruct (dom_overlay HD) as [nk [sk [ps Hov]]].
  unfold has_class, classed, document. rewrite (ov_bg Hov).
  destruct (body s) as [e ks]. destruct (attached s); [|reflexivity].
  unfold elements. cbn [subtrees map flat_map existsb elem]. f_equal.
  rewrite map_app, existsb_app.
  replace (existsb _ (map elem (subtrees (overlay nk sk ps)))) with false;
    [reflexivity|].
  symmetry. apply not_true_is_false. intro Hex.
  apply existsb_exists in Hex. destruct Hex as [x [Hx Ht]].
  apply andb_true_iff in Ht. destruct Ht as [Ht _]. apply NodeId_eqb_eq in Ht.
  apply (page_id_not_in_overlay id nk sk ps (Overlay_ok_Kids _ _ _ _ _ Hov) Hid).
  unfold ids, elements. apply in_map_iff. now exists x.
Qed.

Lemma stagger_nth l : forall k n c i x,
  nth_error l i = Some x ->
  In (mkTimer (n + i) (c + Z.of_nat (k + i) * 200) (RevealSibling (nid (elem x))))
     (stagger l k n c).
Proof.
  induction l as [|a l IH]; intros k n c i x Hi; [now destruct i|].
  destruct i as [|i]; simpl in Hi.
  - injection Hi as ->. left. now rewrite !Nat.add_0_r.
  - right. specialize (IH (S k) (S n) c i x Hi).
    replace (n + S i) with (S n + i) by lia.
    now replace (k + S i) with (S k + i) by lia.
Qed.

Lemma stagger_In l : forall k n c tm,
  In tm (stagger l k n c) ->
  exists j x, nth_error l j = Some x /\
              due tm = (c + Z.of_nat (k + j) * 200)%Z /\
              task tm = RevealSibling (nid (elem x)).
Proof.
  induction l as [|a l IH]; intros k n c tm Hin; [contradiction|].
  destruct Hin as [<-|Hin].
  - exists 0, a. rewrite Nat.add_0_r. now repeat split.
  - destruct (IH _ _ _ _ Hin) as [j [x [Hj [Hd Ht]]]].
    exists (S j), x. split; [exact Hj|]. split; [|exact Ht].
    rewrite Hd. now replace (S k + j) with (k + S j) by lia.
Qed.


Lemma reveal_siblings_spec l : forall k s,
  forEach_from l k
    (fun sibling index =>
       setTimeout (RevealSibling (nid (elem sibling))) (Z.of_nat index * 200) ;;
       ret tt) s
  = Some (tt, set_timers (timers s ++ stagger l k (nextTimer s) (clock s))
                         (nextTimer s + List.length l) s).
Proof.
  induction l as [|a l IH]; intros k s.
  - cbn [forEach_from stagger List.length]. unfold ret.
    rewrite app_nil_r, Nat.add_0_r. now destruct s.
  - cbn [forEach_from]. unfold bind at 1. unfold bind at 1. unfold setTimeout, ret at 1.
    rewrite IH. unfold set_timers. cbn. rewrite <- app_assoc. cbn [app].
    now replace (S (nextTimer s + List.length l))
      with (nextTimer s + S (List.length l)) by lia.
Qed.

(** The observer's callback on one intersecting entry. *)
Lemma observe_group target container s :
  closest [ByClass "hero-cta"; ByClass "grid"] target (document s) = Some container ->
  observerCallback [(target, true)] s =
  Some (tt, let siblings := querySelectorAll [ByClass "fade-in-element"] container in
            set_timers (timers s ++ stagger siblings 0 (nextTimer s) (clock s))
                       (nextTimer s + List.length siblings) s).
Proof.
  intro Hc. unfold observerCallback, forEach. cbn [forEach_from fst snd].
  unfold bind at 1. unfold bind at 1, gets at 1. rewrite Hc.
  unfold forEach. rewrite reveal_siblings_spec. reflexivity.
Qed.


Section Reveals.

Variable rv : nat -> float.
Variable sq : float -> float.
Variable pw : float -> float -> float.
Variable at2 : float -> float -> float.

Local Abbreviation Inv := (Inv sq pw at2).

(** No timer that fires by [t] reveals [sib]: it is as hidden after [t]
    as before. *)
Lemma elapse_hidden N fz t cls sib s :
  Inv N fz s -> page_id sib = true ->
  has_class cls sib s = false ->
  (forall tm, In tm (timers s) -> (due tm <= t)%Z -> task tm <> RevealSibling sib) ->
  exists s', elapse rv sq pw at2 t s = Some (tt, s') /\ Inv N fz s' /\
             has_class cls sib s' = false.
Proof.
  intros HI Hid Hh Hno. unfold elapse. js_page.
  assert (Htm : Forall timer_ok (timers s)) by exact (Inv_timers _ _ _ _ _ _ HI).
  match goal with
  | |- exists s', forEach ?l ?f ?s1 = _ /\ _ =>
      destruct (total_forEach_inv
                  (fun s2 => Inv N fz s2 /\ classed cls sib (body s2) = false)
                  (fun tm => timer_ok tm /\ task tm <> RevealSibling sib) f l)
        with (s := s1) as [[] [s' [E [HI' Hh']]]]
  end.
  - apply Forall_forall. intros tm Hin.
    apply sort_by_due_In, filter_In in Hin. destruct Hin as [Hin Hd].
    rewrite Forall_forall in Htm. split; [now apply Htm|].
    apply Hno; [exact Hin|now apply Z.leb_le].
  - intros tm j [Hok Hne] s1 [HI1 Hh1].
    destruct (run_task_body rv sq pw at2 N fz tm s1 Hok HI1) as [s2 [E2 [HI2 Hb]]].
    exists tt, s2. split; [exact E2|]. split; [exact HI2|]. rewrite Hb.
    destruct (task tm) as [x|r|]; [| |exact Hh1].
    + rewrite classed_update_other; [exact Hh1|apply nid_classList_add|congruence].
    + now apply classed_removeNode.
  - split.
    + apply Inv_set_clock. apply Inv_set_timers; [|exact HI].
      apply incl_Forall with (l1 := timers s); [apply incl_filter|exact Htm].
    + destruct HI as [HD _]. cbn [body set_clock set_timers].
      rewrite <- (has_class_body N s cls sib HD Hid). exact Hh.
  - exists s'. split; [exact E|]. split; [exact HI'|].
    destruct HI' as [HD' _]. now rewrite (has_class_body N s' cls sib HD' Hid).
Qed.

End Reveals.

(** * The properties of the specification *)

Section Properties.

Variable rv : nat -> float.
Variable sq : float -> float.
Variable pw : float -> float -> float.
Variable at2 : float -> float -> float.

Local Abbreviation Inv := (Inv sq pw at2).

(** What the invariant says of the overlay, in terms of what a query of
    the overlay returns. *)
Lemma Inv_observed N fz s :
  Inv N fz s ->
  exists ne ce sk ps pairs,
    Overlay_ok N s (ne ++ ce) sk ps /\
    in_overlay "neural-node" s = map leaf ne /\
    in_overlay "neural-connection" s = map leaf ce /\
    in_overlay "hex-shape" s = map leaf sk /\
    in_overlay "particle" s = map leaf ps /\
    map nid ne = map element (neuralNodes s) /\
    near_pairs sq pw (neuralNodes s) pairs /\
    map (fun e => Some (geometry e)) ce =
      map (line_of_pair sq pw at2 (neuralNodes s)) pairs.
Proof.
  intros [HD [_ HN]]. destruct (dom_overlay HD) as [nk [sk [ps Hov]]].
  destruct (HN nk sk ps (ov_bg Hov)) as [ne [ce [pairs [-> [Hne [Hid [Hce [Hnear Hgeo]]]]]]]].
  pose proof (Overlay_ok_Kids _ _ _ _ _ Hov) as HK.
  destruct (filter_nodes ne ce Hne Hce) as [Fn Fc].
  exists ne, ce, sk, ps, pairs. split; [exact Hov|].
  rewrite (in_overlay_nodes s _ sk ps (ov_bg Hov) HK), Fn.
  rewrite (in_overlay_connections s _ sk ps (ov_bg Hov) HK), Fc.
  rewrite (in_overlay_shapes s _ sk ps (ov_bg Hov) HK).
  rewrite (in_overlay_particles s _ sk ps (ov_bg Hov) HK).
  tauto.
Qed.

(** C1: in every state a session reaches, the connection elements of the
    overlay are, in order, one line for each pair of positions [i < j] of
    [this.neuralNodes] whose distance [sqrt((x1-x2)^2 + (y1-y2)^2)] is
    below 30, and no other: the line starts at the earlier node, its width
    is that distance and its angle [atan2(y2-y1, x2-x1)]. *)
Theorem connections_are_the_near_pairs page w reduced trace :
  exists s pairs,
    session rv sq pw at2 page w reduced trace = Some (tt, s) /\
    map node_id (in_overlay "neural-node" s) = map element (neuralNodes s) /\
    near_pairs sq pw (neuralNodes s) pairs /\
    map (fun n => Some (geometry (elem n))) (in_overlay "neural-connection" s) =
      map (line_of_pair sq pw at2 (neuralNodes s)) pairs.
Proof.
  destruct (session_Inv rv sq pw at2 page w reduced trace) as [s [E HI]].
  destruct (Inv_observed _ _ _ HI)
    as [ne [ce [sk [ps [pairs [_ [En [Ec [_ [_ [Hid [Hnear Hgeo]]]]]]]]]]]].
  exists s, pairs. split; [exact E|]. rewrite En, Ec, !map_map. cbn [leaf elem node_id].
  unfold node_id. cbn [leaf elem]. tauto.
Qed.

(** C2: the script leaves 8 shapes, 20 particles and 12 nodes on a
    viewport narrower than 768, and 15, 40 and 20 otherwise. *)
Theorem init_counts page w reduced :
  exists s,
    boot rv sq pw at2 page w reduced = Some (tt, s) /\
    count_in_overlay "hex-shape" s = (if (w <? 768)%Z then 8 else 15) /\
    count_in_overlay "particle" s = (if (w <? 768)%Z then 20 else 40) /\
    count_in_overlay "neural-node" s = (if (w <? 768)%Z then 12 else 20) /\
    List.length (neuralNodes s) = (if (w <? 768)%Z then 12 else 20).
Proof.
  destruct (boot_spec rv sq pw at2 page w reduced) as [s [E H]].
  exists s. split; [exact E|].
  split; [exact (bd_shapes _ _ _ _ _ _ _ H)|].
  split; [exact (bd_particles _ _ _ _ _ _ _ H)|].
  split; [exact (bd_nodes _ _ _ _ _ _ _ H)|exact (bd_entries _ _ _ _ _ _ _ H)].
Qed.

(** C7: with the reduced-motion preference set, the script installs a
    sheet that holds every animation and transition duration to 0.01ms at
    most. *)
Theorem reduced_motion_override page w :
  exists s sheet,
    boot rv sq pw at2 page w true = Some (tt, s) /\
    isReducedMotion s = true /\
    In sheet (headStyles s) /\ collapses_durations sheet.
Proof.
  destruct (boot_spec rv sq pw at2 page w true) as [s [E H]].
  destruct (bd_head _ _ _ _ _ _ _ H) as [serial Hh].
  exists s, (reducedMotionSheet serial). split; [exact E|].
  split; [exact (bd_reduced _ _ _ _ _ _ _ H)|].
  split; [rewrite Hh; right; now left|].
  eexists. split; [left; reflexivity|].
  intros prop [-> | ->]; exists (1 # 100)%Q; (split; [simpl; tauto|apply Qle_refl]).
Qed.

Lemma map_node_id_leaves (l : list Elem) : map node_id (map leaf l) = map nid l.
Proof. rewrite map_map. reflexivity. Qed.

(** C3: the particles of the overlay are as many as the script made,
    whatever the page has gone through; and while the overlay is attached,
    the end of a particle's animation takes that particle out and puts
    exactly one new particle in. *)
Theorem particle_population_is_constant page w reduced trace :
  exists s,
    session rv sq pw at2 page w reduced trace = Some (tt, s) /\
    count_in_overlay "particle" s = (if (w <? 768)%Z then 20 else 40) /\
    forall ev,
      ev_type ev = animationend -> attached s = true ->
      In (ev_target ev) (map node_id (in_overlay "particle" s)) ->
      exists s',
        step rv sq pw at2 (Dispatch ev) s = Some (tt, s') /\
        map node_id (in_overlay "particle" s') =
          filter (fun i => negb (NodeId_eqb i (ev_target ev)))
                 (map node_id (in_overlay "particle" s))
          ++ [Created SParticle (nextSerial s)] /\
        ~ In (Created SParticle (nextSerial s))
             (map node_id (in_overlay "particle" s)) /\
        count_in_overlay "particle" s' = count_in_overlay "particle" s.
Proof.
  destruct (session_Inv rv sq pw at2 page w reduced trace) as [s [E HI]].
  destruct (Inv_observed _ _ _ HI)
    as [ne [ce [sk [ps [pairs [Hov [_ [_ [_ [Ep _]]]]]]]]]].
  exists s. split; [exact E|].
  unfold count_in_overlay. rewrite Ep, length_map.
  split; [exact (ov_count Hov)|].
  intros ev Ety Hat Hin. rewrite map_node_id_leaves in Hin.
  destruct (animationend_spec rv sq pw at2 _ _ s _ sk ps ev HI Hov Ety Hat Hin)
    as [s' [q [E' [HI' [Hov' Hq]]]]].
  exists s'. split; [exact E'|].
  rewrite (in_overlay_particles s' _ _ _ (ov_bg Hov') (Overlay_ok_Kids _ _ _ _ _ Hov')).
  rewrite !map_node_id_leaves, map_app, map_filter_nid. cbn [map]. rewrite Hq.
  split; [reflexivity|]. split.
  - intro Hfresh. apply in_map_iff in Hfresh. destruct Hfresh as [e [Ee He]].
    pose proof (ov_serials Hov) as Hs. rewrite Forall_forall in Hs.
    assert (He' : In e ((ne ++ ce) ++ sk ++ ps)).
    { apply in_or_app. right. apply in_or_app. now right. }
    specialize (Hs e He'). rewrite Ee in Hs. simpl in Hs. lia.
  - rewrite !length_map. now rewrite (ov_count Hov'), (ov_count Hov).
Qed.

Lemma window_resize_spec w' s :
  exists s',
    step rv sq pw at2 (WindowResize w') s = Some (tt, s') /\
    innerWidth s' = w' /\ resizeTimeout s' = Some (nextTimer s) /\
    In (mkTimer (nextTimer s) (clock s + 250) ResizeDebounced) (timers s').
Proof.
  cbn [step]. unfold on_resize. js_page.
  destruct (resizeTimeout s) as [i|]; js_page;
    (eexists; split; [reflexivity|]; split; [reflexivity|]; split; [reflexivity|];
     apply in_or_app; right; now left).
Qed.

(** C4: when the debounced resize handler runs, the shapes and the
    network are made anew, all of them, as many as the new width asks
    for, and the particles are left as they were.  A resize schedules the
    handler 250ms ahead. *)
Theorem resize_regenerates page w reduced trace w' :
  exists s s',
    session rv sq pw at2 page w reduced (trace ++ [WindowResize w']) = Some (tt, s) /\
    (exists id, resizeTimeout s = Some id /\
                In (mkTimer id (clock s + 250) ResizeDebounced) (timers s)) /\
    run_task rv sq pw at2 ResizeDebounced s = Some (tt, s') /\
    count_in_overlay "hex-shape" s' = (if (w' <? 768)%Z then 8 else 15) /\
    count_in_overlay "neural-node" s' = (if (w' <? 768)%Z then 12 else 20) /\
    List.length (neuralNodes s') = (if (w' <? 768)%Z then 12 else 20) /\
    Forall (fun n => serial_of (node_id n) < nextSerial s)
      (in_overlay "hex-shape" s ++ in_overlay "neural-node" s ++
       in_overlay "neural-connection" s) /\
    Forall (fun n => nextSerial s <= serial_of (node_id n))
      (in_overlay "hex-shape" s' ++ in_overlay "neural-node" s' ++
       in_overlay "neural-connection" s') /\
    in_overlay "particle" s' = in_overlay "particle" s.
Proof.
  rewrite session_app.
  destruct (session_Inv rv sq pw at2 page w reduced trace) as [s0 [E0 HI0]].
  rewrite E0, run_cons.
  destruct (window_resize_spec w' s0) as [s [Es [Hw [Hrt Htm]]]].
  destruct (step_Inv rv sq pw at2 _ _ (WindowResize w') s0 HI0) as [s_ [Es' HI]].
  rewrite Es in Es'. injection Es' as <-. rewrite Es.
  assert (Hck : clock s = clock s0).
  { revert Es. cbn [step]. unfold on_resize. js_page.
    destruct (resizeTimeout s0); js_page; intro Es; injection Es as <-; reflexivity. }
  destruct (Inv_observed _ _ _ HI)
    as [ne [ce [sk [ps [pairs [Hov [En [Ec [Es0 [Ep _]]]]]]]]]].
  pose proof HI as [HD _].
  destruct (handleResize_spec rv sq pw at2 _ s _ sk ps HD Hov)
    as [s' [new [ne' [ce' [pairs' [E' [HD' [Hov' [_ [_ [Hlen [Hne' [Hid' [Hlen'
         [Hce' [_ [_ [_ Hfresh]]]]]]]]]]]]]]]]]].
  pose proof (Overlay_ok_Kids _ _ _ _ _ Hov') as HK'.
  destruct (filter_nodes ne' ce' Hne' Hce') as [Fn Fc].
  exists s, s'. split; [reflexivity|].
  split; [exists (nextTimer s0); rewrite Hck; tauto|].
  split; [exact E'|].
  unfold count_in_overlay.
  rewrite (in_overlay_shapes s' _ _ _ (ov_bg Hov') HK').
  rewrite (in_overlay_nodes s' _ _ _ (ov_bg Hov') HK'), Fn.
  rewrite (in_overlay_connections s' _ _ _ (ov_bg Hov') HK'), Fc.
  rewrite (in_overlay_particles s' _ _ _ (ov_bg Hov') HK').
  rewrite En, Ec, Es0, Ep, !length_map, Hw in *.
  split; [exact Hlen|]. split; [exact Hlen'|].
  split; [rewrite <- (length_map element), <- Hid', length_map; exact Hlen'|].
  rewrite <- !map_app. split; [|split; [|reflexivity]].
  - apply Forall_map. pose proof (ov_serials Hov) as Hs.
    rewrite Forall_forall in *. intros e He. apply Hs.
    rewrite !in_app_iff in *. tauto.
  - apply Forall_map. exact Hfresh.
Qed.

Lemma frame_idle time s :
  rafPending s = [] -> frame time s = Some (tt, s).
Proof.
  intro H. unfold frame. js_page. rewrite H. destruct s. simpl in H. subst.
  reflexivity.
Qed.

(** C8: once [destroy] has run, whatever follows, no element of the
    overlay is in the document, no frame callback is pending, a frame
    does nothing, and the fields the frame loop writes stay as [destroy]
    left them. *)
Theorem destroy_is_final page w reduced before after :
  exists s1 s bg,
    session rv sq pw at2 page w reduced (before ++ [Destroy]) = Some (tt, s1) /\
    session rv sq pw at2 page w reduced (before ++ Destroy :: after) = Some (tt, s) /\
    bgContainer s = Some bg /\
    Forall (fun id => connected id s = false) (ids bg) /\
    rafPending s = [] /\
    (forall time, step rv sq pw at2 (Frame time) s = Some (tt, s)) /\
    lastTime s = lastTime s1 /\ animationFrameId s = animationFrameId s1.
Proof.
  replace (before ++ Destroy :: after) with ((before ++ [Destroy]) ++ after)
    by (rewrite <- app_assoc; reflexivity).
  rewrite (session_app rv sq pw at2 page w reduced (before ++ [Destroy]) after).
  rewrite session_app.
  destruct (session_Inv rv sq pw at2 page w reduced before) as [s0 [E0 HI0]].
  rewrite E0, run_cons. cbn [step].
  destruct (destroy_Inv rv sq pw at2 _ _ s0 HI0) as [s1 [E1 [_ [HI1 _]]]].
  rewrite E1. cbn [run ret].
  destruct (run_Inv rv sq pw at2 _ _ after s1 HI1) as [s [E HI]].
  rewrite E. destruct HI as [HD [HR _]].
  destruct (dom_overlay HD) as [nk [sk [ps Hov]]].
  destruct (raf_frozen HR) as [Hp [Hat [Hlt Haf]]].
  exists s1, s, (overlay nk sk ps).
  split; [reflexivity|]. split; [reflexivity|]. split; [exact (ov_bg Hov)|].
  split; [|split; [exact Hp|split; [intro time; now apply frame_idle|now split]]].
  apply Forall_forall. intros id Hid.
  destruct (connected id s) eqn:Hc; [exfalso|reflexivity].
  apply connected_in, ids_document in Hc.
  destruct Hc as [Hc|[Hat' _]]; [|congruence].
  pose proof (dom_body HD) as Hb. rewrite Forall_forall in Hb. specialize (Hb id Hc).
  pose proof (overlay_not_page nk sk ps (Overlay_ok_Kids _ _ _ _ _ Hov)) as Ho.
  rewrite Forall_forall in Ho. specialize (Ho id Hid). congruence.
Qed.

End Properties.

Section PointerProperties.

Variable rv : nat -> float.
Variable sq : float -> float.
Variable pw : float -> float -> float.
Variable at2 : float -> float -> float.

Local Abbreviation Inv := (Inv sq pw at2).

(** C6: the glow outlives the pointer.  After pointer-enter and then
    pointer-leave on a card, the raise is reset, and the glow and the
    transition that pointer-enter wrote are still in the inline style:
    [onCardMouseLeave] clears [transform] only. *)
Theorem card_leave_keeps_the_glow page w reduced trace card enter leave :
  exists s,
    session rv sq pw at2 page w reduced trace = Some (tt, s) /\
    forall n,
      page_id card = true -> lookup card s = Some n ->
      exists s1 s2,
        onCardMouseMove card enter s = Some (tt, s1) /\
        onCardMouseLeave card leave s1 = Some (tt, s2) /\
        style_of "transform" card s2 = Some (CssText "") /\
        style_of "boxShadow" card s2 = Some (CssText (card_glow (elem n))) /\
        style_of "transition" card s2 = Some (CssText card_transition).
Proof.
  destruct (session_Inv rv sq pw at2 page w reduced trace) as [s [E [HD _]]].
  exists s. split; [exact E|]. intros n Hid Hl.
  destruct (onCardMouseMove_spec _ s card enter n HD Hid Hl)
    as [s1 [E1 [Hl1 [_ [Hb Ht]]]]].
  destruct (onCardMouseLeave_spec s1 card leave Hl1) as [s2 [E2 [Hx Hk]]].
  exists s1, s2. split; [exact E1|]. split; [exact E2|]. split; [exact Hx|].
  rewrite !Hk by discriminate. now split.
Qed.

(** C10: pointer-enter on a card of the page never fails, whatever the
    classes of the card: the card is raised, the transition is set, and
    the glow is cyan for a student portal, else blue for an examiner
    portal, else amber. *)
Theorem card_hover_is_total page w reduced trace card ev :
  exists s,
    session rv sq pw at2 page w reduced trace = Some (tt, s) /\
    forall n,
      page_id card = true -> lookup card s = Some n ->
      exists s',
        onCardMouseMove card ev s = Some (tt, s') /\
        style_of "transform" card s' = Some (CssText "translateY(-4px)") /\
        style_of "transition" card s' = Some (CssText card_transition) /\
        style_of "boxShadow" card s' =
          Some (CssText
            (if contains "student-portal" (elem n)
             then "0 8px 25px rgba(6, 182, 212, 0.25), 0 0 20px rgba(6, 182, 212, 0.1)"
             else if contains "examiner-portal" (elem n)
             then "0 8px 25px rgba(59, 130, 246, 0.25), 0 0 20px rgba(59, 130, 246, 0.1)"
             else "0 8px 25px rgba(245, 158, 11, 0.25), 0 0 20px rgba(245, 158, 11, 0.1)")).
Proof.
  destruct (session_Inv rv sq pw at2 page w reduced trace) as [s [E [HD _]]].
  exists s. split; [exact E|]. intros n Hid Hl.
  destruct (onCardMouseMove_spec _ s card ev n HD Hid Hl)
    as [s1 [E1 [_ [Hx [Hb Ht]]]]].
  exists s1. split; [exact E1|]. split; [exact Hx|]. split; [exact Ht|exact Hb].
Qed.

(** C9: pointer-enter on a button of the page raises the button and
    appends a ripple to it: a square whose side is the larger of the
    width and the height of the button's box, centred on the pointer
    (relative to the box).  The ripple is in the document, a timer is set
    to remove it 600ms later, and once that time has come the ripple is
    out of the document.  Pointer-leave resets the raise. *)
Theorem button_hover_ripple page w reduced trace ev :
  exists s,
    session rv sq pw at2 page w reduced trace = Some (tt, s) /\
    (page_id (ev_target ev) = true -> lookup (ev_target ev) s <> None ->
     let button := ev_target ev in
     let rect := ev_rect ev in
     let size := Math_max (rect_width rect) (rect_height rect) in
     exists s' ripple,
       onButtonHover ev s = Some (tt, s') /\
       style_of "transform" button s' = Some (CssText "translateY(-4px)") /\
       lastChild button s' = Some (leaf ripple) /\
       nid ripple = Created SRipple (nextSerial s) /\
       style_get "width" (style ripple) = CssNum size "px" /\
       style_get "height" (style ripple) = CssNum size "px" /\
       style_get "left" (style ripple) =
         CssNum (clientX ev - rect_left rect - size / 2) "px" /\
       style_get "top" (style ripple) =
         CssNum (clientY ev - rect_top rect - size / 2) "px" /\
       connected (nid ripple) s' = true /\
       In (mkTimer (nextTimer s) (clock s + 600) (RemoveRipple (nid ripple)))
          (timers s') /\
       (forall t, (clock s + 600 <= t)%Z ->
          exists s'', step rv sq pw at2 (Elapse t) s' = Some (tt, s'') /\
                      connected (nid ripple) s'' = false) /\
       exists s'', onButtonLeave ev s' = Some (tt, s'') /\
                   style_of "transform" button s'' = Some (CssText "")).
Proof.
  destruct (session_Inv rv sq pw at2 page w reduced trace) as [s [E HI]].
  exists s. split; [exact E|]. intros Hid Hl button rect size.
  destruct (onButtonHover_spec sq pw at2 _ _ ev s HI Hid Hl)
    as [s' [E' [HI' [Hl' [Hx [Hlast Htm]]]]]].
  exists s', (new_ripple ev s). split; [exact E'|]. split; [exact Hx|].
  split; [exact Hlast|]. do 5 (split; [reflexivity|]).
  split; [exact (lastChild_connected _ _ _ Hlast)|].
  assert (Hin : In (mkTimer (nextTimer s) (clock s + 600)
                      (RemoveRipple (nid (new_ripple ev s)))) (timers s')).
  { rewrite Htm. apply in_or_app. right. now left. }
  split; [exact Hin|]. split.
  - intros t Ht.
    destruct (elapse_removes rv sq pw at2 _ _ t _ (nid (new_ripple ev s)) s' HI' Hin
                eq_refl Ht) as [s'' [E'' [HI'' Hgone]]]; [discriminate|].
    exists s''. split; [exact E''|].
    destruct (connected (nid (new_ripple ev s)) s'') eqn:Hc; [exfalso|reflexivity].
    destruct HI'' as [HD'' _].
    exact (Hgone (connected_page _ s'' _ HD'' Hc eq_refl)).
  - exact (onButtonLeave_spec ev s' Hl').
Qed.


End PointerProperties.

(** * The properties at work on a page *)

Lemma sample_session_runs : sample_session [] = Some (tt, sample_state).
Proof. vm_compute. reflexivity. Qed.

Lemma sample_state_reached s : sample_session [] = Some (tt, s) -> s = sample_state.
Proof. rewrite sample_session_runs. intro E. apply Some_tt_inj in E. now symmetry. Qed.

(** The animation of the first particle ends. *)
Lemma particle_population_witness :
  exists s',
    step sample_random PrimFloat.sqrt sample_pow sample_atan2
         (Dispatch (mkEvent animationend (Created SParticle 20) 0 0 (mkRect 0 0 0 0)))
         sample_state = Some (tt, s') /\
    count_in_overlay "particle" s' = 40 /\
    hd_error (rev (map node_id (in_overlay "particle" s'))) =
      Some (Created SParticle (nextSerial sample_state)).
Proof.
  destruct (particle_population_is_constant sample_random PrimFloat.sqrt sample_pow
              sample_atan2 sample_page 1024 false []) as [s [E [Hc Hr]]].
  apply sample_state_reached in E. subst s.
  destruct (Hr (mkEvent animationend (Created SParticle 20) 0 0 (mkRect 0 0 0 0)))
    as [s' [E' [Hids [_ Hcount]]]].
  - reflexivity.
  - vm_compute; reflexivity.
  - vm_compute; left; reflexivity.
  - exists s'. split; [exact E'|]. split; [rewrite Hcount; exact Hc|].
    rewrite Hids. rewrite rev_app_distr. reflexivity.
Defined.

(** The pointer enters and leaves the student card. *)
Lemma card_leave_witness :
  exists s1 s2,
    onCardMouseMove (Static 6) (sample_enter (Static 6)) sample_state = Some (tt, s1) /\
    onCardMouseLeave (Static 6) (sample_leave (Static 6)) s1 = Some (tt, s2) /\
    style_of "transform" (Static 6) s2 = Some (CssText "") /\
    style_of "boxShadow" (Static 6) s2 =
      Some (CssText "0 8px 25px rgba(6, 182, 212, 0.25), 0 0 20px rgba(6, 182, 212, 0.1)").
Proof.
  destruct (card_leave_keeps_the_glow sample_random PrimFloat.sqrt sample_pow
              sample_atan2 sample_page 1024 false [] (Static 6)
              (sample_enter (Static 6)) (sample_leave (Static 6))) as [s [E H]].
  apply sample_state_reached in E. subst s.
  destruct (H (load (Tag 6 "div" ["portal-card"; "student-portal"; "fade-in-element"] [] [])))
    as [s1 [s2 [E1 [E2 [Hx [Hb _]]]]]].
  - reflexivity.
  - vm_compute. reflexivity.
  - exists s1, s2. split; [exact E1|]. split; [exact E2|]. split; [exact Hx|exact Hb].
Defined.

(** The pointer enters the card that has no type. *)
Lemma card_hover_witness :
  exists s',
    onCardMouseMove (Static 8) (sample_enter (Static 8)) sample_state = Some (tt, s') /\
    style_of "boxShadow" (Static 8) s' =
      Some (CssText "0 8px 25px rgba(245, 158, 11, 0.25), 0 0 20px rgba(245, 158, 11, 0.1)").
Proof.
  destruct (card_hover_is_total sample_random PrimFloat.sqrt sample_pow
              sample_atan2 sample_page 1024 false [] (Static 8)
              (sample_enter (Static 8))) as [s [E H]].
  apply sample_state_reached in E. subst s.
  destruct (H (load (Tag 8 "div" ["portal-card"; "fade-in-element"] [] [])))
    as [s' [E' [_ [_ Hb]]]].
  - reflexivity.
  - vm_compute. reflexivity.
  - exists s'. split; [exact E'|exact Hb].
Defined.

(** The pointer enters the first button. *)
Lemma button_hover_witness :
  exists s' s'' ripple,
    onButtonHover (sample_enter (Static 2)) sample_state = Some (tt, s') /\
    lastChild (Static 2) s' = Some (leaf ripple) /\
    style_get "width" (style ripple) = CssNum 120 "px" /\
    style_get "left" (style ripple) = CssNum (-20) "px" /\
    style_get "top" (style ripple) = CssNum (-50) "px" /\
    connected (nid ripple) s' = true /\
    step sample_random PrimFloat.sqrt sample_pow sample_atan2 (Elapse 600) s'
      = Some (tt, s'') /\
    connected (nid ripple) s'' = false.
Proof.
  destruct (button_hover_ripple sample_random PrimFloat.sqrt sample_pow
              sample_atan2 sample_page 1024 false [] (sample_enter (Static 2)))
    as [s [E H]].
  apply sample_state_reached in E. subst s.
  destruct H as [s' [ripple [E' [_ [Hlast [_ [Hw [_ [Hl [Ht [Hc [_ [Hrm _]]]]]]]]]]]]].
  - reflexivity.
  - vm_compute. discriminate.
  - destruct (Hrm 600%Z) as [s'' [E'' Hgone]].
    + vm_compute. discriminate.
    + exists s', s'', ripple. split; [exact E'|]. split; [exact Hlast|].
      split; [rewrite Hw; vm_compute; reflexivity|].
      split; [rewrite Hl; vm_compute; reflexivity|].
      split; [rewrite Ht; vm_compute; reflexivity|].
      split; [exact Hc|]. split; [exact E''|exact Hgone].
Defined.

(** The same through the listeners the script registered: after
    [mouseenter] and [mouseleave] on the student card, the glow is still
    in its inline style. *)
Lemma sample_glow_persists :
  option_map (fun r => (style_of "transform" (Static 6) (snd r),
                        style_of "boxShadow" (Static 6) (snd r)))
    (sample_session [Dispatch (sample_enter (Static 6));
                     Dispatch (sample_leave (Static 6))])
  = Some (Some (CssText ""),
          Some (CssText
            "0 8px 25px rgba(6, 182, 212, 0.25), 0 0 20px rgba(6, 182, 212, 0.1)")).
Proof. vm_compute. reflexivity. Qed.

(** * What stays as the set-up left it *)

#[export] Instance Still_FrameRel : FrameRel Still.
Proof.
  split.
  - intro s. unfold Still. tauto.
  - intros a b c. unfold Still. intuition congruence.
Qed.

Lemma Quiet_Still s s' : Quiet s s' -> Still s s'.
Proof. unfold Quiet, Still. tauto. Qed.

#[export] Instance Looping_FrameRel : FrameRel Looping.
Proof.
  split.
  - intro s. unfold Looping. tauto.
  - intros a b c. unfold Looping. intuition congruence.
Qed.

Lemma Quiet_Looping s s' : Quiet s s' -> Looping s s'.
Proof. unfold Quiet, Looping. tauto. Qed.

#[export] Instance Debounce_FrameRel : FrameRel Debounce.
Proof.
  split.
  - intro s. unfold Debounce. tauto.
  - intros a b c. unfold Debounce. intuition congruence.
Qed.

Lemma Quiet_Debounce s s' : Quiet s s' -> Debounce s s'.
Proof. unfold Quiet, Debounce. tauto. Qed.

Section Frames.

Variable rv : nat -> float.
Variable sq : float -> float.
Variable pw : float -> float -> float.
Variable at2 : float -> float -> float.

Lemma Still_dispatchEvent ev : keeps Still (dispatchEvent rv ev).
Proof. exact (keeps_weaken _ _ _ Quiet_Still (Quiet_dispatchEvent rv ev)). Qed.

Lemma Still_observerCallback entries : keeps Still (observerCallback entries).
Proof. exact (keeps_weaken _ _ _ Quiet_Still (Quiet_observerCallback entries)). Qed.

Lemma Still_run_task t : keeps Still (run_task rv sq pw at2 t).
Proof. exact (keeps_weaken _ _ _ Quiet_Still (Quiet_run_task rv sq pw at2 t)). Qed.

#[local] Hint Resolve Still_dispatchEvent Still_observerCallback Still_run_task : keeps.

Lemma Still_step st : keeps Still (step rv sq pw at2 st).
Proof.
  destruct st; cbn [step];
    unfold frame, animate, updateAnimations, on_resize, elapse, destroy; keeps_go.
Qed.

Lemma Still_run trace : keeps Still (run rv sq pw at2 trace).
Proof.
  induction trace as [|st trace IH]; cbn [run].
  - apply keeps_ret.
  - apply keeps_bind; [apply Still_step|intro; exact IH].
Qed.

Lemma Looping_dispatchEvent ev : keeps Looping (dispatchEvent rv ev).
Proof. exact (keeps_weaken _ _ _ Quiet_Looping (Quiet_dispatchEvent rv ev)). Qed.

Lemma Looping_observerCallback entries : keeps Looping (observerCallback entries).
Proof. exact (keeps_weaken _ _ _ Quiet_Looping (Quiet_observerCallback entries)). Qed.

Lemma Looping_run_task t : keeps Looping (run_task rv sq pw at2 t).
Proof. exact (keeps_weaken _ _ _ Quiet_Looping (Quiet_run_task rv sq pw at2 t)). Qed.

#[local] Hint Resolve Looping_dispatchEvent Looping_observerCallback
  Looping_run_task : keeps.

(** Every stimulus but a frame and [destroy] leaves the frame loop
    alone. *)
Lemma Looping_step st :
  match st with Frame _ | Destroy => False | _ => True end ->
  keeps Looping (step rv sq pw at2 st).
Proof.
  destruct st; intro Hst; try contradiction; cbn [step];
    unfold on_resize, elapse; keeps_go.
Qed.

Lemma Debounce_dispatchEvent ev : keeps Debounce (dispatchEvent rv ev).
Proof. exact (keeps_weaken _ _ _ Quiet_Debounce (Quiet_dispatchEvent rv ev)). Qed.

Lemma Debounce_observerCallback entries : keeps Debounce (observerCallback entries).
Proof. exact (keeps_weaken _ _ _ Quiet_Debounce (Quiet_observerCallback entries)). Qed.

Lemma Debounce_run_task t : keeps Debounce (run_task rv sq pw at2 t).
Proof. exact (keeps_weaken _ _ _ Quiet_Debounce (Quiet_run_task rv sq pw at2 t)). Qed.

#[local] Hint Resolve Debounce_dispatchEvent Debounce_observerCallback
  Debounce_run_task : keeps.

(** Every stimulus but a resize and the passing of time leaves the
    debounce alone. *)
Lemma Debounce_step st :
  match st with WindowResize _ | Elapse _ => False | _ => True end ->
  keeps Debounce (step rv sq pw at2 st).
Proof.
  destruct st; intro Hst; try contradiction; cbn [step];
    unfold frame, animate, updateAnimations, destroy; keeps_go.
Qed.

End Frames.

(** * Further properties of the script *)

Lemma classed_update_keep cls id x c n :
  classed cls id n = true -> classed cls id (update x (classList_add c) n) = true.
Proof.
  unfold classed. rewrite elements_update. intro H.
  apply existsb_exists in H. destruct H as [e [He Ht]].
  apply andb_true_iff in Ht. destruct Ht as [Hid Hc].
  apply existsb_exists.
  exists (if NodeId_eqb (nid e) x then classList_add c e else e). split.
  - apply in_map_iff. now exists e.
  - destruct (NodeId_eqb (nid e) x); [|now rewrite Hid, Hc].
    rewrite nid_classList_add, Hid. cbn [andb].
    unfold classList_add. destruct (contains c e); [exact Hc|].
    unfold contains in *. cbn [classList]. rewrite existsb_app, Hc. reflexivity.
Qed.

Lemma ids_bounce icons b : ids (bounce icons b) = ids b.
Proof.
  revert b. induction icons as [|i l IH]; intro b; [reflexivity|].
  unfold bounce in *. cbn [fold_left]. rewrite IH.
  apply ids_update, nid_classList_add.
Qed.

Lemma classed_bounce icons : forall b icon,
  In icon icons -> In (node_id icon) (ids b) ->
  classed "icon-bounce" (node_id icon) (bounce icons b) = true.
Proof.
  induction icons as [|i l IH]; intros b icon Hin Hb; [contradiction|].
  unfold bounce. cbn [fold_left]. fold (bounce l (update (node_id i) (classList_add "icon-bounce") b)).
  destruct Hin as [->|Hin].
  - assert (H : classed "icon-bounce" (node_id icon)
                  (update (node_id icon) (classList_add "icon-bounce") b) = true)
      by now apply classed_update_self.
    revert H. generalize (update (node_id icon) (classList_add "icon-bounce") b).
    clear. induction l as [|i l IH]; intros b H; [exact H|].
    unfold bounce. cbn [fold_left]. apply IH. now apply classed_update_keep.
  - apply IH; [exact Hin|].
    now rewrite ids_update by apply nid_classList_add.
Qed.

Lemma document_querySelectorAll_ids sels n x :
  In x (document_querySelectorAll sels n) -> In (node_id x) (ids n).
Proof.
  unfold document_querySelectorAll. intro H. apply filter_In in H.
  destruct H as [H _]. now apply subtree_ids.
Qed.

Section FurtherProperties.

Variable rv : nat -> float.
Variable sq : float -> float.
Variable pw : float -> float -> float.
Variable at2 : float -> float -> float.

Local Abbreviation Inv := (Inv sq pw at2).

(** A session in two parts: the set-up, then the trace. *)
Lemma session_states page w reduced trace :
  exists s0 s,
    boot rv sq pw at2 page w reduced = Some (tt, s0) /\
    Booted sq pw at2 page w reduced s0 /\
    run rv sq pw at2 trace s0 = Some (tt, s) /\
    session rv sq pw at2 page w reduced trace = Some (tt, s) /\
    Inv (particleCount w) None s /\ Still s0 s.
Proof.
  destruct (boot_spec rv sq pw at2 page w reduced) as [s0 [E0 H0]].
  destruct (run_Inv rv sq pw at2 _ _ trace s0 (bd_inv _ _ _ _ _ _ _ H0)) as [s [E HI]].
  exists s0, s. split; [exact E0|]. split; [exact H0|]. split; [exact E|].
  split; [rewrite session_boot, E0; exact E|]. split; [exact HI|].
  exact (Still_run rv sq pw at2 trace s0 tt s E).
Qed.

(** The observer watches the elements of the served page that carry
    [fade-in-element], [portal-card] or [hero-cta], [<body>] among them
    if it carries one, each once, in document order, and no element of
    the overlay; nothing is ever added to or taken from its targets. *)
Theorem observer_targets page w reduced trace :
  exists s,
    session rv sq pw at2 page w reduced trace = Some (tt, s) /\
    observed s =
      map node_id
        (document_querySelectorAll
           [ByClass "fade-in-element"; ByClass "portal-card"; ByClass "hero-cta"]
           (load page)).
Proof.
  destruct (session_states page w reduced trace) as [s0 [s [_ [H0 [_ [E [_ HS]]]]]]].
  exists s. split; [exact E|].
  destruct HS as [_ [_ [_ [_ [Ho _]]]]]. rewrite Ho.
  exact (wd_observed _ _ _ _ (bd_wired _ _ _ _ _ _ _ H0)).
Qed.

(** The pointer listeners are those of the set-up, for good: hover and
    leave on every button of the served page, then enter and leave on
    every portal card, in document order; [<body>] is wired like any
    element if it carries the class. *)
Theorem pointer_listeners_fixed page w reduced trace :
  exists s,
    session rv sq pw at2 page w reduced trace = Some (tt, s) /\
    filter (fun l => negb (EventType_eqb (l_type l) animationend)) (listeners s) =
      flat_map (fun b => [mkListener (node_id b) mouseenter OnButtonHover;
                          mkListener (node_id b) mouseleave OnButtonLeave])
        (document_querySelectorAll
           [ByClass "btn-primary"; ByClass "btn-secondary"] (load page)) ++
      flat_map (fun c => [mkListener (node_id c) mouseenter OnCardMouseMove;
                          mkListener (node_id c) mouseleave OnCardMouseLeave])
        (document_querySelectorAll [ByClass "portal-card"] (load page)).
Proof.
  destruct (session_states page w reduced trace) as [s0 [s [_ [H0 [_ [E [_ HS]]]]]]].
  exists s. split; [exact E|].
  destruct HS as [_ [_ [_ [_ [_ Hp]]]]]. unfold pointer_listeners in Hp. rewrite Hp.
  exact (wd_pointer _ _ _ _ (bd_wired _ _ _ _ _ _ _ H0)).
Qed.

(** After the set-up every [svg] of the served page carries
    [icon-bounce]. *)
Theorem icons_bounce page w reduced :
  exists s,
    boot rv sq pw at2 page w reduced = Some (tt, s) /\
    Forall (fun icon => has_class "icon-bounce" (node_id icon) s = true)
           (document_querySelectorAll [ByTag "svg"] (load page)).
Proof.
  destruct (boot_spec rv sq pw at2 page w reduced) as [s [E H]].
  exists s. split; [exact E|]. apply Forall_forall. intros icon Hin.
  pose proof (bd_inv _ _ _ _ _ _ _ H) as [HD _].
  assert (Hid : In (node_id icon) (ids (load page)))
    by now apply (document_querySelectorAll_ids [ByTag "svg"]).
  assert (Hp : page_id (node_id icon) = true).
  { pose proof (load_static page) as Hs. rewrite Forall_forall in Hs. now apply Hs. }
  rewrite (has_class_body _ s _ _ HD Hp).
  rewrite (wd_body _ _ _ _ (bd_wired _ _ _ _ _ _ _ H)).
  now apply classed_bounce.
Qed.

(** The style sheets of the head are those of the set-up, for good: the
    ripple keyframes, and after them the reduced-motion override if and
    only if the preference was set when the controller was built. *)
Theorem head_styles_fixed page w reduced trace :
  exists s serial,
    session rv sq pw at2 page w reduced trace = Some (tt, s) /\
    headStyles s =
      mkStyleElement (Created SStyle 0)
        [Keyframes "ripple"
           [("to", [mkDecl "transform" (DText "scale(2)") false;
                    mkDecl "opacity" (DText "0") false])]]
      :: (if reduced then [reducedMotionSheet serial] else []) /\
    (reduced = false ->
     forall sheet, In sheet (headStyles s) -> ~ collapses_durations sheet).
Proof.
  destruct (session_states page w reduced trace) as [s0 [s [_ [H0 [_ [E [_ HS]]]]]]].
  destruct (bd_head _ _ _ _ _ _ _ H0) as [serial Hh].
  destruct HS as [_ [_ [Hs _]]]. rewrite <- Hs in Hh.
  exists s, serial. split; [exact E|]. split; [exact Hh|].
  intros -> sheet Hin [decls [Hr _]]. rewrite Hh in Hin.
  destruct Hin as [<-|[]]. cbn in Hr. destruct Hr as [Hr|[]]. discriminate Hr.
Qed.

(** [this.particles] is never written after the constructor: it is empty
    in every state, and [this.isReducedMotion] stays what the media query
    answered when the controller was built. *)
Theorem controller_fields_fixed page w reduced trace :
  exists s,
    session rv sq pw at2 page w reduced trace = Some (tt, s) /\
    particles s = [] /\ isReducedMotion s = reduced.
Proof.
  destruct (session_states page w reduced trace) as [s0 [s [_ [H0 [_ [E [_ HS]]]]]]].
  exists s. split; [exact E|].
  destruct HS as [Hp [Hr _]]. rewrite Hp, Hr. split.
  - exact (wd_particles _ _ _ _ (bd_wired _ _ _ _ _ _ _ H0)).
  - exact (bd_reduced _ _ _ _ _ _ _ H0).
Qed.

End FurtherProperties.

(** * The frame loop, the debounce and the teardown *)

Section Schedulers.

Variable rv : nat -> float.
Variable sq : float -> float.
Variable pw : float -> float -> float.
Variable at2 : float -> float -> float.

Local Abbreviation Inv := (Inv sq pw at2).

(** A frame with one callback pending: [animate] runs once, moves
    [lastTime] if 16ms have passed, and requests the next frame. *)
Lemma frame_spec time h s :
  rafPending s = [h] ->
  exists s',
    frame time s = Some (tt, s') /\
    lastTime s' = (if (16 <=? time - lastTime s)%float then time else lastTime s) /\
    rafPending s' = [nextRaf s] /\ animationFrameId s' = Some (nextRaf s) /\
    nextRaf s' = S (nextRaf s).
Proof.
  intro Hp. unfold frame. js_page. rewrite Hp.
  unfold forEach. cbn [forEach_from]. unfold animate, updateAnimations. js_page.
  destruct (16 <=? time - lastTime s)%float; js_page;
    (eexists; split; [reflexivity|]; now repeat split).
Qed.

Lemma Live_step st s s' :
  st <> Destroy -> Live s -> step rv sq pw at2 st s = Some (tt, s') -> Live s'.
Proof.
  intros Hst [h [Ha Hp]] E.
  destruct st as [time|ev|entries|w|t|]; try contradiction.
  - cbn [step] in E. destruct (frame_spec time h s Hp) as [s1 [E1 [_ [Hp1 [Ha1 _]]]]].
    rewrite E1 in E. apply Some_tt_inj in E. subst s1. now exists (nextRaf s).
  - destruct (Looping_step rv sq pw at2 (Dispatch ev) I s tt s' E) as [Ha' [Hp' _]].
    exists h. now rewrite Ha', Hp'.
  - destruct (Looping_step rv sq pw at2 (Intersect entries) I s tt s' E) as [Ha' [Hp' _]].
    exists h. now rewrite Ha', Hp'.
  - destruct (Looping_step rv sq pw at2 (WindowResize w) I s tt s' E) as [Ha' [Hp' _]].
    exists h. now rewrite Ha', Hp'.
  - destruct (Looping_step rv sq pw at2 (Elapse t) I s tt s' E) as [Ha' [Hp' _]].
    exists h. now rewrite Ha', Hp'.
Qed.

Lemma Live_run trace : forall s s',
  no_destroy trace = true -> Live s ->
  run rv sq pw at2 trace s = Some (tt, s') -> Live s'.
Proof.
  induction trace as [|st trace IH]; intros s s' Hnd HL E.
  - apply Some_tt_inj in E. now subst.
  - rewrite run_cons in E. cbn [no_destroy forallb] in Hnd.
    apply andb_true_iff in Hnd. destruct Hnd as [Hst Hnd].
    destruct (step rv sq pw at2 st s) as [[[] s1]|] eqn:E1; [|discriminate E].
    apply (IH s1 s' Hnd); [|exact E].
    apply (Live_step st s s1); [|exact HL|exact E1].
    intros ->. discriminate Hst.
Qed.

(** Until [destroy], the loop has exactly one callback pending, and
    [this.animationFrameId] is its handle.  A frame then runs [animate]
    once: [lastTime] moves to the frame's time if at least 16ms have
    passed since [lastTime] and stays otherwise, and the next frame is
    requested under a new handle. *)
Theorem frame_loop page w reduced trace time :
  no_destroy trace = true ->
  exists s h s',
    session rv sq pw at2 page w reduced trace = Some (tt, s) /\
    animationFrameId s = Some h /\ rafPending s = [h] /\
    step rv sq pw at2 (Frame time) s = Some (tt, s') /\
    lastTime s' = (if (16 <=? time - lastTime s)%float then time else lastTime s) /\
    rafPending s' = [nextRaf s] /\ animationFrameId s' = Some (nextRaf s).
Proof.
  intro Hnd.
  destruct (session_states rv sq pw at2 page w reduced trace)
    as [s0 [s [_ [H0 [Er [E [HI _]]]]]]].
  assert (HL0 : Live s0).
  { pose proof (bd_inv _ _ _ _ _ _ _ H0) as [_ [HR _]].
    destruct (raf_handle HR) as [h [Ha _]].
    exists h. split; [exact Ha|].
    pose proof (bd_pending _ _ _ _ _ _ _ H0) as Hp. rewrite Hp.
    destruct (raf_handle HR) as [h' [Ha' [_ [Hp'|Hp']]]]; rewrite Hp in Hp';
      [|discriminate Hp'].
    congruence. }
  destruct (Live_run trace s0 s Hnd HL0 Er) as [h [Ha Hp]].
  destruct (frame_spec time h s Hp) as [s' [E' [Hlt [Hp' [Ha' _]]]]].
  exists s, h, s'. split; [exact E|]. split; [exact Ha|]. split; [exact Hp|].
  split; [exact E'|]. split; [exact Hlt|]. split; [exact Hp'|exact Ha'].
Qed.

Lemma Debounced_Debounce s s' : Debounce s s' -> Debounced s -> Debounced s'.
Proof. intros [Hr Hd] [H1 H2]. unfold Debounced. rewrite Hr, Hd. now split. Qed.

Lemma filter_filter_nil {A} (f g : A -> bool) (l : list A) :
  (forall x, In x l -> f x = true -> g x = false) -> filter f (filter g l) = [].
Proof.
  induction l as [|a l IH]; intro H; simpl; [reflexivity|].
  destruct (g a) eqn:Eg; simpl.
  - destruct (f a) eqn:Ef.
    + rewrite (H a (or_introl eq_refl) Ef) in Eg. discriminate Eg.
    + apply IH. intros x Hx. apply H. now right.
  - apply IH. intros x Hx. apply H. now right.
Qed.

Lemma filter_filter_length {A} (f g : A -> bool) (l : list A) :
  List.length (filter f (filter g l)) <= List.length (filter f l).
Proof.
  induction l as [|a l IH]; simpl; [lia|].
  destruct (g a), (f a) eqn:Ef; simpl; rewrite ?Ef; simpl; lia.
Qed.

(** A resize cancels the pending run and schedules one 250ms ahead. *)
Lemma window_resize_debounced w' s :
  Debounced s ->
  exists s',
    step rv sq pw at2 (WindowResize w') s = Some (tt, s') /\
    debounced s' = [mkTimer (nextTimer s) (clock s + 250) ResizeDebounced] /\
    resizeTimeout s' = Some (nextTimer s) /\ innerWidth s' = w'.
Proof.
  intros [_ Hid]. cbn [step]. unfold on_resize. js_page.
  destruct (resizeTimeout s) as [i|] eqn:Er; js_page;
    (eexists; split; [reflexivity|]; split; [|now split]);
    unfold debounced; js_page; rewrite filter_app; cbn [filter is_debounced task].
  - rewrite filter_filter_nil; [reflexivity|].
    intros tm Htm Hd.
    assert (Hin : In tm (debounced s)) by (apply filter_In; now split).
    specialize (Hid tm Hin). injection Hid as ->. now rewrite Nat.eqb_refl.
  - destruct (filter is_debounced (timers s)) as [|tm l] eqn:Ef; [reflexivity|].
    assert (Hin : In tm (debounced s)) by (unfold debounced; rewrite Ef; now left).
    specialize (Hid tm Hin). discriminate Hid.
Qed.

Lemma Debounced_step st s s' :
  Debounced s -> step rv sq pw at2 st s = Some (tt, s') -> Debounced s'.
Proof.
  intros HD E. destruct st as [time|ev|entries|w|t|].
  - exact (Debounced_Debounce s s' (Debounce_step rv sq pw at2 (Frame time) I s tt s' E) HD).
  - exact (Debounced_Debounce s s' (Debounce_step rv sq pw at2 (Dispatch ev) I s tt s' E) HD).
  - exact (Debounced_Debounce s s'
             (Debounce_step rv sq pw at2 (Intersect entries) I s tt s' E) HD).
  - destruct (window_resize_debounced w s HD) as [s1 [E1 [Hd [Hr _]]]].
    rewrite E1 in E. apply Some_tt_inj in E. subst s1.
    unfold Debounced. rewrite Hd, Hr. split; [simpl; lia|].
    intros tm [<-|[]]. reflexivity.
  - cbn [step] in E. unfold elapse in E.
    unfold bind at 1, gets at 1 in E. unfold bind at 1, gets at 1 in E.
    unfold bind at 1, modify at 1 in E. unfold bind at 1, modify at 1 in E.
    match type of E with
    | forEach ?l ?f ?s1 = _ =>
        apply (Debounced_Debounce s1 s');
          [apply (keeps_forEach (R := Debounce) l f
                    (fun a j => Debounce_run_task rv sq pw at2 (task a)) s1 tt s' E)|]
    end.
    destruct HD as [H1 H2]. unfold Debounced, debounced in *. cbn. split.
    + etransitivity; [apply filter_filter_length|exact H1].
    + intros tm Htm. apply H2. apply filter_In in Htm. destruct Htm as [Htm Hd].
      apply filter_In in Htm. apply filter_In. tauto.
  - exact (Debounced_Debounce s s' (Debounce_step rv sq pw at2 Destroy I s tt s' E) HD).
Qed.

Lemma Debounced_run trace : forall s s',
  Debounced s -> run rv sq pw at2 trace s = Some (tt, s') -> Debounced s'.
Proof.
  induction trace as [|st trace IH]; intros s s' HD E.
  - apply Some_tt_inj in E. now subst.
  - rewrite run_cons in E.
    destruct (step rv sq pw at2 st s) as [[[] s1]|] eqn:E1; [|discriminate E].
    apply (IH s1 s'); [|exact E]. exact (Debounced_step st s s1 HD E1).
Qed.

(** The resize handler is debounced: at any time at most one run of it
    is pending; a resize drops the pending run and schedules one 250ms
    ahead, so that a burst of resizes leads to one regeneration. *)
Theorem resize_is_debounced page w reduced trace w' :
  exists s s',
    session rv sq pw at2 page w reduced trace = Some (tt, s) /\
    List.length (filter is_debounced (timers s)) <= 1 /\
    step rv sq pw at2 (WindowResize w') s = Some (tt, s') /\
    filter is_debounced (timers s') =
      [mkTimer (nextTimer s) (clock s + 250) ResizeDebounced] /\
    resizeTimeout s' = Some (nextTimer s) /\ innerWidth s' = w'.
Proof.
  destruct (session_states rv sq pw at2 page w reduced trace)
    as [s0 [s [_ [H0 [Er [E _]]]]]].
  assert (HD0 : Debounced s0).
  { unfold Debounced, debounced. rewrite (bd_timers _ _ _ _ _ _ _ H0). simpl.
    split; [lia|intros tm []]. }
  pose proof (Debounced_run trace s0 s HD0 Er) as HD.
  destruct (window_resize_debounced w' s HD) as [s' [E' H']].
  exists s, s'. split; [exact E|]. split; [exact (proj1 HD)|]. split; [exact E'|exact H'].
Qed.

(** [destroy] on a state of the invariant: the pending frame is
    cancelled and the overlay detached; the overlay itself and the page
    are as they were. *)
Lemma destroy_exact N fz s :
  Inv N fz s ->
  destroy s =
  Some (tt, set_attached false
              (set_trees (bgContainer s) (body s) (set_raf [] (nextRaf s) s))).
Proof.
  intro HI. pose proof HI as [HD [HR HN]].
  destruct (raf_handle HR) as [h [Eh [Hh Hp]]].
  destruct (dom_overlay HD) as [nk [sk [ps Hov]]].
  unfold destroy. unfold bind at 1, gets at 1. rewrite Eh.
  destruct (Nat.eqb h 0) eqn:E0; [apply Nat.eqb_eq in E0; contradiction|].
  js_page. rewrite (ov_bg Hov). unfold element_remove. js_page. rewrite (ov_bg Hov).
  change (NodeId_eqb (nid (elem (overlay nk sk ps))) (nid (elem (overlay nk sk ps))))
    with true. cbv iota. cbn [option_map].
  change (nid (elem (overlay nk sk ps))) with (nid bgElem).
  assert (Hnil : filter (fun h' => negb (Nat.eqb h' h)) (rafPending s) = []).
  { destruct Hp as [Hp|Hp]; rewrite Hp; simpl; [|reflexivity].
    now rewrite Nat.eqb_refl. }
  rewrite Hnil. unfold onDom. js_page. rewrite (ov_bg Hov). cbn [option_map].
  rewrite (overlay_remove_bg nk sk ps (Overlay_ok_Kids _ _ _ _ _ Hov)).
  rewrite (removeNode_absent (nid bgElem) (body s))
    by (apply overlay_id_not_in_body; [apply HD|reflexivity]).
  reflexivity.
Qed.

(** [destroy] takes the overlay out of the document and stops the loop,
    and that is all: the timers, the listeners, the observer's targets
    and the overlay the controller holds are as before; and a second
    [destroy] changes nothing. *)
Theorem destroy_is_idempotent page w reduced trace :
  exists s s',
    session rv sq pw at2 page w reduced trace = Some (tt, s) /\
    destroy s = Some (tt, s') /\
    destroy s' = Some (tt, s') /\
    timers s' = timers s /\ listeners s' = listeners s /\
    observed s' = observed s /\ resizeTimeout s' = resizeTimeout s /\
    headStyles s' = headStyles s /\
    bgContainer s' = bgContainer s /\ body s' = body s.
Proof.
  destruct (session_Inv rv sq pw at2 page w reduced trace) as [s [E HI]].
  destruct (destroy_Inv rv sq pw at2 _ _ s HI) as [s' [E' [HI' _]]].
  pose proof (destroy_exact _ _ s HI) as X. rewrite E' in X. apply Some_tt_inj in X.
  exists s, s'. split; [exact E|]. split; [exact E'|].
  split; [|rewrite X; now repeat split].
  rewrite (destroy_exact _ _ s' HI'). rewrite X. reflexivity.
Qed.

(** The resize handler rebuilds the overlay and nothing else: the page,
    the timers, the listeners and the frame loop are as before, and the
    overlay is neither attached nor detached by it. *)
Theorem resize_leaves_the_page page w reduced trace :
  exists s s',
    session rv sq pw at2 page w reduced trace = Some (tt, s) /\
    handleResize rv sq pw at2 s = Some (tt, s') /\
    body s' = body s /\ attached s' = attached s /\
    timers s' = timers s /\ listeners s' = listeners s /\
    rafPending s' = rafPending s /\ innerWidth s' = innerWidth s.
Proof.
  destruct (session_Inv rv sq pw at2 page w reduced trace) as [s [E HI]].
  destruct (handleResize_Inv rv sq pw at2 _ _ s HI) as [s' [E' [_ [Hw Hl]]]].
  exists s, s'. split; [exact E|]. split; [exact E'|].
  split; [now rewrite Hw|]. split; [now rewrite Hw|]. split; [now rewrite Hw|].
  split; [exact Hl|]. split; now rewrite Hw.
Qed.

End Schedulers.

(** * The overlay and the network *)

Lemma all_pairs_In n i j : i < j < n -> In (i, j) (all_pairs n).
Proof.
  induction n as [|n IH]; intro H; [lia|]. cbn [all_pairs]. apply in_or_app.
  destruct (Nat.eq_dec j n) as [->|Hne].
  - right. apply in_map_iff. exists i. split; [reflexivity|]. apply in_seq. lia.
  - left. apply IH. lia.
Qed.

Lemma all_pairs_length n : 2 * List.length (all_pairs n) = n * (n - 1).
Proof.
  induction n as [|n IH]; [reflexivity|]. cbn [all_pairs].
  rewrite length_app, length_map, length_seq.
  replace (S n - 1) with n by lia. destruct n as [|n]; [reflexivity|].
  replace (S n - 1) with n in IH by lia. nia.
Qed.

Section OverlayProperties.

Variable rv : nat -> float.
Variable sq : float -> float.
Variable pw : float -> float -> float.
Variable at2 : float -> float -> float.

Local Abbreviation Inv := (Inv sq pw at2).

(** The overlay keeps its shape: the grid, the network layer, the shapes
    layer, then the particles.  The network layer holds nodes and
    connections only, the shapes layer hex shapes only, and every one of
    them is a [div] with that one class and no child. *)
Theorem overlay_layers page w reduced trace :
  exists s nk sk ps,
    session rv sq pw at2 page w reduced trace = Some (tt, s) /\
    bgContainer s =
      Some (El (mkElem (Created SBackground 1) "div" ["futuristic-bg"] [])
              (leaf (mkElem (Created SLayer 2) "div" ["digital-grid"] [])
               :: El (mkElem (Created SLayer 3) "div" ["neural-network"] []) (map leaf nk)
               :: El (mkElem (Created SLayer 4) "div" ["floating-shapes"] []) (map leaf sk)
               :: map leaf ps)) /\
    Forall (fun e => tagName e = "div" /\
                     (classList e = ["neural-node"] \/
                      classList e = ["neural-connection"])) nk /\
    Forall (fun e => tagName e = "div" /\ classList e = ["hex-shape"]) sk /\
    Forall (fun e => tagName e = "div" /\ classList e = ["particle"]) ps.
Proof.
  destruct (session_Inv rv sq pw at2 page w reduced trace) as [s [E [HD _]]].
  destruct (dom_overlay HD) as [nk [sk [ps Hov]]].
  exists s, nk, sk, ps. split; [exact E|]. split; [exact (ov_bg Hov)|].
  split; [|split].
  - eapply Forall_impl; [|exact (ov_net Hov)].
    intros e [[_ [Ht Hc]]|[_ [Ht Hc]]]; (split; [exact Ht|]); [now left|now right].
  - eapply Forall_impl; [|exact (ov_shapes Hov)]. intros e [_ H]. exact H.
  - eapply Forall_impl; [|exact (ov_particles Hov)]. intros e [_ H]. exact H.
Qed.

(** Every particle of the overlay has one [animationend] listener, its
    own: the end of its animation respawns it once. *)
Theorem particle_listener_is_unique page w reduced trace :
  exists s,
    session rv sq pw at2 page w reduced trace = Some (tt, s) /\
    Forall (fun p =>
              filter (fun l => NodeId_eqb (l_target l) (node_id p)
                               && EventType_eqb (l_type l) animationend)
                     (listeners s)
              = [mkListener (node_id p) animationend (OnParticleEnd (node_id p))])
           (in_overlay "particle" s).
Proof.
  destruct (session_Inv rv sq pw at2 page w reduced trace) as [s [E [HD _]]].
  destruct (dom_overlay HD) as [nk [sk [ps Hov]]].
  exists s. split; [exact E|].
  rewrite (in_overlay_particles s _ _ _ (ov_bg Hov) (Overlay_ok_Kids _ _ _ _ _ Hov)).
  apply Forall_map. pose proof (ov_listening Hov) as Hl.
  eapply Forall_impl; [|exact Hl]. intros e He. cbn [node_id leaf elem].
  apply (single_listener (nextSerial s)); [exact (dom_listeners HD)|exact (dom_targets HD)|].
  unfold particle_targets. apply in_map_iff.
  eexists. split; [|apply filter_In; split; [exact He|reflexivity]]. reflexivity.
Qed.

(** The network never has more connections than pairs of nodes:
    [n (n - 1) / 2] for [n] nodes. *)
Theorem connection_count_bound page w reduced trace :
  exists s,
    session rv sq pw at2 page w reduced trace = Some (tt, s) /\
    2 * count_in_overlay "neural-connection" s <=
      count_in_overlay "neural-node" s * (count_in_overlay "neural-node" s - 1).
Proof.
  destruct (session_Inv rv sq pw at2 page w reduced trace) as [s [E HI]].
  exists s. split; [exact E|].
  destruct (Inv_observed rv sq pw at2 _ _ _ HI)
    as [ne [ce [sk [ps [pairs [_ [En [Ec [_ [_ [Hid [[Hnd Hin] Hgeo]]]]]]]]]]]].
  unfold count_in_overlay. rewrite En, Ec, !length_map.
  assert (Hn : List.length ne = List.length (neuralNodes s)).
  { rewrite <- (length_map nid ne), Hid. apply length_map. }
  assert (Hc : List.length ce = List.length pairs).
  { rewrite <- (length_map (fun e => Some (geometry e)) ce), Hgeo. apply length_map. }
  rewrite Hn, Hc, <- all_pairs_length.
  apply Nat.mul_le_mono_l. apply NoDup_incl_length; [exact Hnd|].
  intros [i j] Hp. apply all_pairs_In. apply Hin in Hp.
  destruct Hp as [Hlt [a [b [_ [Hb _]]]]]. split; [exact Hlt|].
  apply nth_error_Some. congruence.
Qed.

End OverlayProperties.

(** * Buttons, and the slide-up trigger *)

Lemma classList_add_idem c e : classList_add c (classList_add c e) = classList_add c e.
Proof.
  unfold classList_add at 1. now rewrite contains_classList_add.
Qed.

Lemma contains_classList_add_keep c c' e :
  contains c e = true -> contains c (classList_add c' e) = true.
Proof.
  intro H. unfold classList_add. destruct (contains c' e); [exact H|].
  unfold contains in *. cbn [classList]. now rewrite existsb_app, H.
Qed.

Lemma update_idem id f n :
  (forall e, nid (f e) = nid e) -> (forall e, f (f e) = f e) ->
  update id f (update id f n) = update id f n.
Proof.
  intros Hn Hf. induction n as [e ks IH] using Node_induction.
  cbn [update]. f_equal.
  - destruct (NodeId_eqb (nid e) id) eqn:E; [|now rewrite E].
    now rewrite Hn, E, Hf.
  - rewrite map_map. apply map_ext_in. intros k Hk.
    rewrite Forall_forall in IH. now apply IH.
Qed.

Lemma onDom_update_idem id f s :
  (forall e, nid (f e) = nid e) -> (forall e, f (f e) = f e) ->
  onDom (update id f) (onDom (update id f) s) = onDom (update id f) s.
Proof.
  intros Hn Hf. unfold onDom, set_trees. cbn.
  rewrite (update_idem id f (body s) Hn Hf).
  destruct (bgContainer s) as [bg|]; cbn; [|reflexivity].
  now rewrite (update_idem id f bg Hn Hf).
Qed.

Section ButtonsAndTrigger.

Variable rv : nat -> float.
Variable sq : float -> float.
Variable pw : float -> float -> float.
Variable at2 : float -> float -> float.

Local Abbreviation Inv := (Inv sq pw at2).

Lemma onButtonHover_layout ev s :
  lookup (ev_target ev) s <> None ->
  exists s',
    onButtonHover ev s = Some (tt, s') /\
    lookup (ev_target ev) s' <> None /\
    style_of "position" (ev_target ev) s' = Some (CssText "relative") /\
    style_of "overflow" (ev_target ev) s' = Some (CssText "hidden").
Proof.
  intro Hl. unfold onButtonHover, createRippleEffect. js_page.
  fold (new_ripple ev s).
  eexists. split; [reflexivity|].
  set (s1 := set_nextSerial (S (nextSerial s))
               (onDom (update (ev_target ev)
                         (set_style "transform" (CssText "translateY(-4px)"))) s)).
  set (s2 := onDom (update (ev_target ev) (set_style "position" (CssText "relative"))) s1).
  set (s3 := onDom (update (ev_target ev) (set_style "overflow" (CssText "hidden"))) s2).
  assert (H1 : lookup (ev_target ev) s1 <> None).
  { change (lookup (ev_target ev) s1)
      with (lookup (ev_target ev)
              (onDom (update (ev_target ev)
                        (set_style "transform" (CssText "translateY(-4px)"))) s)).
    apply lookup_update_found; [reflexivity|exact Hl]. }
  assert (H2 : lookup (ev_target ev) s2 <> None)
    by (apply lookup_update_found; [reflexivity|exact H1]).
  assert (H3 : lookup (ev_target ev) s3 <> None)
    by (apply lookup_update_found; [reflexivity|exact H2]).
  split; [exact (lookup_appendChild_found _ _ s3 H3)|]. split.
  - change (style_of "position" (ev_target ev)
              (onDom (appendChild (ev_target ev) (leaf (new_ripple ev s))) s3)
            = Some (CssText "relative")).
    rewrite style_of_appendChild. unfold s3.
    rewrite style_of_set_other by discriminate.
    apply style_of_set; [reflexivity|exact H1].
  - change (style_of "overflow" (ev_target ev)
              (onDom (appendChild (ev_target ev) (leaf (new_ripple ev s))) s3)
            = Some (CssText "hidden")).
    rewrite style_of_appendChild.
    apply style_of_set; [reflexivity|exact H2].
Qed.

(** Pointer-leave on a button resets the raise and nothing else: the
    [position: relative] and [overflow: hidden] that pointer-enter wrote
    on the button stay in its inline style. *)
Theorem button_leave_keeps_the_layout page w reduced trace enter leave :
  exists s,
    session rv sq pw at2 page w reduced trace = Some (tt, s) /\
    (lookup (ev_target enter) s <> None -> ev_target leave = ev_target enter ->
     exists s1 s2,
       onButtonHover enter s = Some (tt, s1) /\
       onButtonLeave leave s1 = Some (tt, s2) /\
       style_of "transform" (ev_target enter) s2 = Some (CssText "") /\
       style_of "position" (ev_target enter) s2 = Some (CssText "relative") /\
       style_of "overflow" (ev_target enter) s2 = Some (CssText "hidden")).
Proof.
  destruct (session_Inv rv sq pw at2 page w reduced trace) as [s [E _]].
  exists s. split; [exact E|]. intros Hl Ht.
  destruct (onButtonHover_layout enter s Hl) as [s1 [E1 [Hl1 [Hp Ho]]]].
  exists s1. unfold onButtonLeave, modify. rewrite Ht.
  eexists. split; [exact E1|]. split; [reflexivity|].
  split; [apply style_of_cleared; [reflexivity|exact Hl1]|].
  rewrite !style_of_set_other by discriminate. now split.
Qed.

(** [triggerElementAnimation] on an element of the page never fails; it
    adds [animate-slide-up] to a portal card or a hero call-to-action and
    leaves any other element alone; and triggering again changes
    nothing. *)
Theorem trigger_animation_is_idempotent page w reduced trace id :
  exists s,
    session rv sq pw at2 page w reduced trace = Some (tt, s) /\
    forall n,
      page_id id = true -> lookup id s = Some n ->
      exists s',
        triggerElementAnimation id s = Some (tt, s') /\
        triggerElementAnimation id s' = Some (tt, s') /\
        (if contains "portal-card" (elem n) || contains "hero-cta" (elem n)
         then has_class "animate-slide-up" id s' = true
         else s' = s).
Proof.
  destruct (session_Inv rv sq pw at2 page w reduced trace) as [s [E HI]].
  exists s. split; [exact E|]. intros n Hid Hl.
  pose proof HI as [HD _].
  assert (Hin : In id (ids (document s))).
  { unfold lookup, lookup_in in Hl. apply find_some in Hl. destruct Hl as [Hn Hm].
    apply NodeId_eqb_eq in Hm. rewrite <- Hm. now apply subtree_ids. }
  assert (Hstep : forall e,
    contains "portal-card" e || contains "hero-cta" e = true ->
    (if contains "portal-card" e
     then modify (onDom (update id (classList_add "animate-slide-up")))
     else if contains "hero-cta" e
          then modify (onDom (update id (classList_add "animate-slide-up")))
          else ret tt) s
    = Some (tt, onDom (update id (classList_add "animate-slide-up")) s) /\
    forall s0,
    (if contains "portal-card" (classList_add "animate-slide-up" e)
     then modify (onDom (update id (classList_add "animate-slide-up")))
     else if contains "hero-cta" (classList_add "animate-slide-up" e)
          then modify (onDom (update id (classList_add "animate-slide-up")))
          else ret tt) s0
    = Some (tt, onDom (update id (classList_add "animate-slide-up")) s0)).
  { intros e He. apply orb_true_iff in He.
    destruct (contains "portal-card" e) eqn:E1.
    - split; [reflexivity|]. intro s0.
      now rewrite (contains_classList_add_keep "portal-card" _ e E1).
    - destruct He as [He|He]; [discriminate He|]. rewrite He.
      split; [reflexivity|]. intro s0.
      rewrite (contains_classList_add_keep "hero-cta" _ e He).
      now destruct (contains "portal-card" (classList_add "animate-slide-up" e)). }
  unfold triggerElementAnimation. unfold bind at 1.
  rewrite (deref_lookup _ s id n HD Hid Hl).
  destruct (contains "portal-card" (elem n) || contains "hero-cta" (elem n)) eqn:Hc.
  - destruct (Hstep (elem n) Hc) as [H1 H2]. rewrite H1.
    eexists. split; [reflexivity|]. split.
    + assert (HD' : Dom (particleCount w)
                      (onDom (update id (classList_add "animate-slide-up")) s)).
      { apply Dom_update; [exact Hid|apply nid_classList_add|exact HD]. }
      assert (Hl' : lookup id (onDom (update id (classList_add "animate-slide-up")) s)
                    = Some (update id (classList_add "animate-slide-up") n)).
      { rewrite lookup_update by apply nid_classList_add. now rewrite Hl. }
      unfold bind at 1. rewrite (deref_lookup _ _ id _ HD' Hid Hl').
      rewrite elem_update, (lookup_in_nid id _ n Hl), NodeId_eqb_refl.
      rewrite H2. f_equal. f_equal.
      apply onDom_update_idem; [apply nid_classList_add|apply classList_add_idem].
    + rewrite has_class_document, document_update. now apply classed_update_self.
  - apply orb_false_iff in Hc. destruct Hc as [H1 H2]. rewrite H1, H2.
    exists s. split; [reflexivity|]. split; [|reflexivity].
    unfold bind at 1. rewrite (deref_lookup _ s id n HD Hid Hl). now rewrite H1, H2.
Qed.

End ButtonsAndTrigger.

(** * The reveal of a group does happen *)

Lemma all_classed_update_self c id n :
  all_classed c id (update id (classList_add c) n).
Proof.
  unfold all_classed. rewrite elements_update. apply Forall_map.
  apply Forall_forall. intros e _.
  destruct (NodeId_eqb (nid e) id) eqn:E.
  - intros _. apply contains_classList_add.
  - intro H. apply NodeId_eqb_neq in E. contradiction.
Qed.

Lemma all_classed_update c id x c' n :
  all_classed c id n -> all_classed c id (update x (classList_add c') n).
Proof.
  unfold all_classed. rewrite elements_update. intro H. apply Forall_map.
  eapply Forall_impl; [|exact H]. intros e He.
  destruct (NodeId_eqb (nid e) x); [|exact He].
  rewrite nid_classList_add. intro Hid. apply contains_classList_add_keep. now apply He.
Qed.

Lemma all_classed_removeNode c id r n :
  all_classed c id n -> all_classed c id (removeNode r n).
Proof.
  unfold all_classed. intro H. apply Forall_forall. intros e He.
  apply elements_removeNode in He. rewrite Forall_forall in H. now apply H.
Qed.

Lemma all_classed_classed c id n :
  all_classed c id n -> In id (ids n) -> classed c id n = true.
Proof.
  unfold all_classed, classed, ids. intros H Hin.
  apply in_map_iff in Hin. destruct Hin as [e [Ee He]].
  apply existsb_exists. exists e. split; [exact He|].
  rewrite Forall_forall in H. rewrite (H e He Ee), Ee, NodeId_eqb_refl. reflexivity.
Qed.

Section RevealHappens.

Variable rv : nat -> float.
Variable sq : float -> float.
Variable pw : float -> float -> float.
Variable at2 : float -> float -> float.

Local Abbreviation Inv := (Inv sq pw at2).

(** Once its time has come, the task that reveals [sib] has run, and
    every element [sib] of the page carries [in-view]. *)
Lemma elapse_reveals N fz t tm sib s :
  Inv N fz s -> In tm (timers s) -> task tm = RevealSibling sib -> (due tm <= t)%Z ->
  exists s', elapse rv sq pw at2 t s = Some (tt, s') /\ Inv N fz s' /\
             all_classed "in-view" sib (body s').
Proof.
  intros HI Hin Htask Hdue. unfold elapse. js_page.
  assert (Htm : Forall timer_ok (timers s)) by exact (Inv_timers _ _ _ _ _ _ HI).
  match goal with
  | |- exists s', forEach ?l ?f ?s1 = _ /\ _ =>
      destruct (total_forEach
                  (fun done s2 => Inv N fz s2 /\
                                  (In tm done -> all_classed "in-view" sib (body s2))) f l)
        with (s := s1) as [[] [s' [E [HI' Hdone]]]]
  end.
  - intros done a rest El s1 [HI1 Hg1].
    assert (Ha : timer_ok a).
    { rewrite Forall_forall in Htm. apply Htm.
      assert (Hal : In a (sort_by_due (filter (fun tm0 => (due tm0 <=? t)%Z) (timers s)))).
      { rewrite El. apply in_or_app. right. now left. }
      apply sort_by_due_In, filter_In in Hal. tauto. }
    destruct (run_task_body rv sq pw at2 N fz a s1 Ha HI1) as [s2 [E2 [HI2 Hb]]].
    exists tt, s2. split; [exact E2|]. split; [exact HI2|].
    intro Hd. rewrite Hb. apply in_app_or in Hd. destruct Hd as [Hd|[->|[]]].
    + specialize (Hg1 Hd). destruct (task a) as [x|r|]; [| |exact Hg1].
      * now apply all_classed_update.
      * now apply all_classed_removeNode.
    + rewrite Htask. apply all_classed_update_self.
  - split.
    + apply Inv_set_clock. apply Inv_set_timers; [|exact HI].
      apply incl_Forall with (l1 := timers s); [apply incl_filter|exact Htm].
    + intros [].
  - exists s'. split; [exact E|]. split; [exact HI'|]. apply Hdone.
    apply sort_by_due_In, filter_In. split; [exact Hin|]. now apply Z.leb_le.
Qed.

(** When the observer reports [target] as intersecting and [target] sits
    in a [.hero-cta] or [.grid] container, the [i]-th fade-in element of
    the container is revealed once [i * 200]ms have passed: from then on,
    if it is in the document it carries [in-view]. *)
Theorem reveal_happens page w reduced trace target :
  exists s,
    session rv sq pw at2 page w reduced trace = Some (tt, s) /\
    forall container,
      closest [ByClass "hero-cta"; ByClass "grid"] target (document s) = Some container ->
      let siblings :=
        map node_id (querySelectorAll [ByClass "fade-in-element"] container) in
      exists s',
        observerCallback [(target, true)] s = Some (tt, s') /\
        forall i sib t,
          nth_error siblings i = Some sib ->
          (clock s + Z.of_nat i * 200 <= t)%Z ->
          exists s'',
            step rv sq pw at2 (Elapse t) s' = Some (tt, s'') /\
            (connected sib s'' = true -> has_class "in-view" sib s'' = true).
Proof.
  destruct (session_Inv rv sq pw at2 page w reduced trace) as [s [E HI]].
  exists s. split; [exact E|].
  intros container Hc siblings. rewrite (observe_group target container s Hc).
  cbv zeta.
  set (nodes := querySelectorAll [ByClass "fade-in-element"] container) in *.
  eexists. split; [reflexivity|].
  pose proof HI as [HD _].
  pose proof (siblings_page _ s [ByClass "fade-in-element"] _ target container
                HD eq_refl Hc) as Hpage.
  fold nodes in Hpage. rewrite Forall_forall in Hpage.
  intros i sib t Hi Ht. unfold siblings in Hi. rewrite nth_error_map in Hi.
  destruct (nth_error nodes i) as [x|] eqn:Hx; [|discriminate Hi].
  injection Hi as <-.
  assert (Hok : Forall timer_ok (timers s ++ stagger nodes 0 (nextTimer s) (clock s))).
  { apply Forall_app. split; [exact (Inv_timers _ _ _ _ _ _ HI)|].
    apply Forall_forall. intros tm Htm.
    destruct (stagger_In _ _ _ _ _ Htm) as [j [y [Hj [_ Hty]]]].
    unfold timer_ok. rewrite Hty. apply Hpage. now apply nth_error_In in Hj. }
  destruct (elapse_reveals (particleCount w) None t
              (mkTimer (nextTimer s + i) (clock s + Z.of_nat (0 + i) * 200)
                       (RevealSibling (node_id x)))
              (node_id x)
              (set_timers (timers s ++ stagger nodes 0 (nextTimer s) (clock s))
                          (nextTimer s + List.length nodes) s))
    as [s'' [E'' [HI'' Hall]]].
  - now apply Inv_set_timers.
  - cbn [timers set_timers]. apply in_or_app. right.
    exact (stagger_nth nodes 0 (nextTimer s) (clock s) i x Hx).
  - reflexivity.
  - cbn [due Nat.add]. exact Ht.
  - exists s''. split; [exact E''|]. intro Hcon.
    destruct HI'' as [HD'' _].
    assert (Hp : page_id (node_id x) = true)
      by (apply Hpage; now apply nth_error_In in Hx).
    rewrite (has_class_body _ s'' _ _ HD'' Hp).
    apply all_classed_classed; [exact Hall|].
    exact (connected_page _ s'' _ HD'' Hcon Hp).
Qed.

End RevealHappens.

(** * Ripples do not outlive their 600ms *)

#[export] Instance Page_FrameRel : FrameRel Page.
Proof.
  split.
  - intro s. unfold Page. repeat split; try lia; try apply incl_refl; auto.
  - intros a b c [A1 [A2 [A3 [A4 [A5 A6]]]]] [B1 [B2 [B3 [B4 [B5 B6]]]]].
    unfold Page. split; [lia|]. split; [congruence|]. split; [congruence|].
    split; [eapply incl_tran; eassumption|]. split.
    + intros tm Hc. destruct (B5 tm Hc) as [Hb|Hb]; [|right; lia].
      destruct (A5 tm Hb) as [Ha|Ha]; [now left|right; lia].
    + intros x Hc. destruct (B6 x Hc) as [Hb|Hb]; [|now right].
      destruct (A6 x Hb) as [Ha|[tm [Htm [Ht Hd]]]]; [now left|right].
      exists tm. split; [now apply B4|]. split; [exact Ht|]. now rewrite B3.
Qed.

Ltac page_close :=
  unfold Page; js_page;
  split; [lia|]; split; [reflexivity|]; split; [reflexivity|];
  split; [intros ? ?; try (apply in_or_app; left); assumption|];
  split;
  [ let Hin := fresh "Hin" in
    intros ? Hin; try (apply in_app_or in Hin; destruct Hin as [Hin|[<-|[]]]);
    first [left; exact Hin | right; cbn; lia]
  | let Hin := fresh "Hin" in
    intros ? Hin; left;
    rewrite ?ids_update in Hin
      by (first [intro; reflexivity | apply nid_classList_add]);
    exact Hin ].

Ltac page_leaf := keeps_open; page_close.

#[export] Instance Sched_FrameRel : FrameRel Sched.
Proof.
  split.
  - intro s. unfold Sched. tauto.
  - intros a b c. unfold Sched. intuition congruence.
Qed.

Lemma Page_createRippleEffect t ev : keeps Page (createRippleEffect t ev).
Proof.
  intros s [] s' E. unfold createRippleEffect in E. revert E. js_page.
  fold (new_ripple ev s). intro E. apply Some_tt_inj in E. subst s'.
  unfold Page. js_page.
  split; [lia|]. split; [reflexivity|]. split; [reflexivity|].
  split; [intros tm Htm; apply in_or_app; now left|]. split.
  - intros tm Htm. apply in_app_or in Htm. destruct Htm as [Htm|[<-|[]]]; [now left|].
    right. cbn. lia.
  - intros x Hx. apply ids_appendChild in Hx. destruct Hx as [Hx|Hx].
    + left. now rewrite !ids_update in Hx by reflexivity.
    + right. unfold ids, elements in Hx. simpl in Hx. destruct Hx as [<-|[]].
      eexists. split; [apply in_or_app; right; now left|].
      split; [reflexivity|]. cbn. lia.
Qed.

#[local] Hint Resolve Page_createRippleEffect : keeps.

Lemma Page_observerCallback entries : keeps Page (observerCallback entries).
Proof. unfold observerCallback. keeps_with page_leaf. Qed.

Lemma Page_frame time : keeps Page (frame time).
Proof. unfold frame, animate, updateAnimations. keeps_with page_leaf. Qed.

Lemma Page_overlay_write s s' : overlay_write s s' -> Page s s'.
Proof.
  intro H. unfold Page. rewrite H. cbn.
  repeat split; try lia; try apply incl_refl; auto.
Qed.

Section Hygiene.

Variable rv : nat -> float.
Variable sq : float -> float.
Variable pw : float -> float -> float.
Variable at2 : float -> float -> float.

Local Abbreviation Inv := (Inv sq pw at2).

Lemma Page_invoke l ev :
  is_mouse_handler (l_handler l) = true -> keeps Page (invoke rv l ev).
Proof.
  intro Hm. unfold invoke, onButtonHover, onButtonLeave, onCardMouseMove,
    onCardMouseLeave.
  destruct (l_handler l); try discriminate Hm; keeps_with page_leaf.
Qed.

Lemma Sched_random : keeps Sched (Math_random rv).
Proof.
  intros s a s' E. unfold Math_random in E. injection E as _ <-. repeat split.
Qed.

#[local] Hint Resolve Sched_random : keeps.

Lemma Sched_run_task t : keeps Sched (run_task rv sq pw at2 t).
Proof.
  unfold run_task, handleResize, createFloatingShapes, createNeuralNetwork,
    createNeuralConnections.
  keeps_go.
Qed.

Lemma dispatch_animationend_write N fz ev s s' :
  Inv N fz s -> ev_type ev = animationend ->
  dispatchEvent rv ev s = Some (tt, s') -> overlay_write s s'.
Proof.
  intros HI Ety E. pose proof HI as [HD [HR HN]].
  unfold dispatchEvent in E. unfold bind at 1, gets at 1 in E.
  destruct (connected (ev_target ev) s) eqn:Hc;
    [|apply Some_tt_inj in E; subst; apply overlay_write_refl].
  unfold bind at 1, gets at 1 in E. rewrite Ety in E.
  destruct (in_dec NodeId_eq_dec (ev_target ev) (particle_targets (listeners s)))
    as [Hin|Hnin].
  - rewrite (single_listener (nextSerial s) (listeners s) (ev_target ev)
               (dom_listeners HD) (dom_targets HD) Hin) in E.
    destruct (particle_target_serial _ _ _ (dom_listeners HD) Hin) as [k [Ek Hk]].
    destruct (dom_overlay HD) as [nk [sk [ps Hov]]].
    rewrite Ek in Hc.
    destruct (connected_particle N s nk sk ps k HD Hov Hc) as [Hps _].
    destruct (respawn_spec rv sq pw at2 N fz s nk sk ps k HI Hov Hps)
      as [s2 [q [E2 [_ [_ [_ Hw]]]]]].
    unfold forEach in E. simpl in E. unfold invoke in E. simpl in E. rewrite Ek in E.
    unfold bind at 1 in E. rewrite E2 in E. unfold ret in E.
    apply Some_tt_inj in E. now subst.
  - rewrite (no_particle_listener (listeners s) (ev_target ev) Hnin) in E.
    apply Some_tt_inj in E. subst. apply overlay_write_refl.
Qed.

Lemma dispatch_mouse_Page N ev s s' :
  Dom N s -> ev_type ev <> animationend ->
  dispatchEvent rv ev s = Some (tt, s') -> Page s s'.
Proof.
  intros HD Hty E. unfold dispatchEvent in E. unfold bind at 1, gets at 1 in E.
  destruct (connected (ev_target ev) s);
    [|apply Some_tt_inj in E; subst; apply rel_refl].
  unfold bind at 1, gets at 1 in E.
  refine (keeps_forEach_Forall Page _ _ _ s tt s' E).
  eapply Forall_impl; [|exact (mouse_listeners N s ev HD Hty)].
  intros l [Hm _] j. now apply Page_invoke.
Qed.

Lemma Hygiene_Page s s' : Page s s' -> Hygiene s -> Hygiene s'.
Proof.
  intros [P1 [P2 [P3 [P4 [P5 P6]]]]] [H1 [H2 H3]]. split; [|split].
  - intros tm Htm. destruct (P5 tm Htm) as [H|H]; [|lia].
    specialize (H1 tm H). lia.
  - intros id Hid. rewrite P2 in Hid. destruct (H2 id Hid) as [Hlt Hd].
    split; [lia|]. intros tm Htm Eid.
    destruct (P5 tm Htm) as [H|H]; [now apply Hd|lia].
  - intros k Hk. destruct (P6 _ Hk) as [H|H]; [|exact H].
    destruct (H3 k H) as [tm [Htm [Ht Hd]]].
    exists tm. split; [now apply P4|]. split; [exact Ht|]. now rewrite P3.
Qed.

(** The passing of time, in full: the timers that are due leave the
    queue and run, the page loses the ripples whose removal was due and
    gains no element. *)
Lemma elapse_effect N fz t s :
  Inv N fz s ->
  exists s',
    elapse rv sq pw at2 t s = Some (tt, s') /\ Inv N fz s' /\
    timers s' = filter (fun tm => negb (due tm <=? t)%Z) (timers s) /\
    nextTimer s' = nextTimer s /\ resizeTimeout s' = resizeTimeout s /\
    clock s' = Z.max (clock s) t /\
    incl (ids (body s')) (ids (body s)) /\
    forall tm x, In tm (timers s) -> (due tm <= t)%Z -> task tm = RemoveRipple x ->
                 (forall i, x <> Static i) -> ~ In x (ids (body s')).
Proof.
  intros HI. unfold elapse. js_page.
  assert (Htm : Forall timer_ok (timers s)) by exact (Inv_timers _ _ _ _ _ _ HI).
  set (s1 := set_clock (Z.max (clock s) t)
               (set_timers (filter (fun tm => negb (due tm <=? t)%Z) (timers s))
                           (nextTimer s) s)).
  match goal with
  | |- exists s', forEach ?l ?f s1 = _ /\ _ =>
      destruct (total_forEach
                  (fun done s2 =>
                     Inv N fz s2 /\ Sched s1 s2 /\
                     incl (ids (body s2)) (ids (body s)) /\
                     forall tm x, In tm done -> task tm = RemoveRipple x ->
                                  (forall i, x <> Static i) ->
                                  ~ In x (ids (body s2))) f l)
        with (s := s1) as [[] [s' [E [HI' [HS [Hincl Hgone]]]]]]
  end.
  - intros done a rest El s2 [HI2 [HS2 [Hincl2 Hg2]]].
    assert (Ha : timer_ok a).
    { rewrite Forall_forall in Htm. apply Htm.
      assert (Hal : In a (sort_by_due (filter (fun tm0 => (due tm0 <=? t)%Z) (timers s)))).
      { rewrite El. apply in_or_app. right. now left. }
      apply sort_by_due_In, filter_In in Hal. tauto. }
    destruct (run_task_ids rv sq pw at2 N fz a s2 Ha HI2) as [s3 [E3 [HI3 [Hincl3 Hrm]]]].
    exists tt, s3. split; [exact E3|]. split; [exact HI3|].
    split; [exact (rel_trans _ _ _ HS2 (Sched_run_task (task a) s2 tt s3 E3))|].
    split; [intros x Hx; apply Hincl2; now apply Hincl3|].
    intros tm x Hd Ht Hx. apply in_app_or in Hd. destruct Hd as [Hd|[->|[]]].
    + intro Hin. apply (Hg2 tm x Hd Ht Hx). now apply Hincl3.
    + now apply Hrm.
  - split.
    + apply Inv_set_clock. apply Inv_set_timers; [|exact HI].
      apply incl_Forall with (l1 := timers s); [apply incl_filter|exact Htm].
    + split; [apply rel_refl|]. split; [apply incl_refl|]. intros tm x [].
  - exists s'. split; [exact E|]. split; [exact HI'|].
    destruct HS as [S1 [S2 [S3 S4]]]. rewrite S1, S2, S3, S4.
    do 4 (split; [reflexivity|]). split; [exact Hincl|].
    intros tm x Hin Hdue Ht Hx. apply (Hgone tm x); [|exact Ht|exact Hx].
    apply sort_by_due_In, filter_In. split; [exact Hin|]. now apply Z.leb_le.
Qed.

Lemma Hygiene_step N fz st s s' :
  Inv N fz s -> Hygiene s -> step rv sq pw at2 st s = Some (tt, s') -> Hygiene s'.
Proof.
  intros HI HH E. destruct st as [time|ev|entries|w|t|]; cbn [step] in E.
  - exact (Hygiene_Page s s' (Page_frame time s tt s' E) HH).
  - destruct (EventType_eqb (ev_type ev) animationend) eqn:Ety.
    + apply EventType_eqb_eq in Ety. apply (Hygiene_Page s s'); [|exact HH].
      apply Page_overlay_write. exact (dispatch_animationend_write N fz ev s s' HI Ety E).
    + apply (Hygiene_Page s s'); [|exact HH]. destruct HI as [HD _].
      apply (dispatch_mouse_Page N ev s s' HD); [|exact E].
      intro H. rewrite H in Ety. discriminate Ety.
  - unfold bind at 1, gets at 1 in E. unfold bind at 1, gets at 1 in E.
    exact (Hygiene_Page s s' (Page_observerCallback _ s tt s' E) HH).
  - destruct HH as [H1 [H2 H3]]. revert E. unfold on_resize. js_page.
    destruct (resizeTimeout s) as [i|] eqn:Er; js_page; intro E;
      apply Some_tt_inj in E; subst s'; (split; [|split]); js_page.
    + intros tm Htm. apply in_app_or in Htm. destruct Htm as [Htm|[<-|[]]]; [|cbn; lia].
      apply filter_In in Htm. destruct Htm as [Htm _]. specialize (H1 tm Htm). lia.
    + intros id Hid. injection Hid as <-. split; [lia|]. intros tm Htm Eid.
      apply in_app_or in Htm. destruct Htm as [Htm|[<-|[]]]; [|reflexivity].
      apply filter_In in Htm. destruct Htm as [Htm _]. specialize (H1 tm Htm). lia.
    + intros k Hk. destruct (H3 k Hk) as [tm [Htm [Ht Hd]]].
      exists tm. split; [|split; [exact Ht|exact Hd]].
      js_page. apply in_or_app. left. apply filter_In. split; [exact Htm|].
      destruct (Nat.eqb (timerId tm) i) eqn:Ei; [|reflexivity].
      apply Nat.eqb_eq in Ei. destruct (H2 i eq_refl) as [_ Hdb].
      specialize (Hdb tm Htm Ei). unfold is_debounced in Hdb. rewrite Ht in Hdb.
      discriminate Hdb.
    + intros tm Htm. apply in_app_or in Htm. destruct Htm as [Htm|[<-|[]]]; [|cbn; lia].
      specialize (H1 tm Htm). lia.
    + intros id Hid. injection Hid as <-. split; [lia|]. intros tm Htm Eid.
      apply in_app_or in Htm. destruct Htm as [Htm|[<-|[]]]; [|reflexivity].
      specialize (H1 tm Htm). lia.
    + intros k Hk. destruct (H3 k Hk) as [tm [Htm [Ht Hd]]].
      exists tm. split; [|split; [exact Ht|exact Hd]].
      js_page. apply in_or_app. now left.
  - destruct (elapse_effect N fz t s HI)
      as [s1 [E1 [_ [Et [En [Er [Ec [Hincl Hrm]]]]]]]].
    rewrite E1 in E. apply Some_tt_inj in E. subst s1.
    destruct HH as [H1 [H2 H3]]. split; [|split].
    + intros tm Htm. rewrite Et in Htm. apply filter_In in Htm. rewrite En.
      now apply H1.
    + intros id Hid. rewrite Er in Hid. rewrite En.
      destruct (H2 id Hid) as [Hlt Hd]. split; [exact Hlt|].
      intros tm Htm. rewrite Et in Htm. apply filter_In in Htm. now apply Hd.
    + intros k Hk. destruct (H3 k (Hincl _ Hk)) as [tm [Htm [Ht Hd]]].
      destruct (due tm <=? t)%Z eqn:Ed.
      * exfalso. apply Z.leb_le in Ed.
        apply (Hrm tm (Created SRipple k) Htm Ed Ht); [discriminate|exact Hk].
      * exists tm. rewrite Et, Ec. split; [|split; [exact Ht|lia]].
        apply filter_In. split; [exact Htm|]. now rewrite Ed.
  - rewrite (destroy_exact sq pw at2 N fz s HI) in E. apply Some_tt_inj in E. subst s'.
    destruct HH as [H1 [H2 H3]]. split; [|split]; js_page; assumption.
Qed.

Lemma load_ids_static page x : In x (ids (load page)) -> exists i, x = Static i.
Proof.
  induction page as [i t cs st ch IH] using Markup_induction.
  simpl load. rewrite ids_El. intros [<-|Hin]; [now exists i|].
  induction IH as [|c ch Hc Hch IHch]; simpl in Hin; [contradiction|].
  apply in_app_or in Hin. destruct Hin as [Hin|Hin]; [now apply Hc|now apply IHch].
Qed.

Lemma Hygiene_boot page w reduced s :
  Booted sq pw at2 page w reduced s -> Hygiene s.
Proof.
  intro HB. pose proof (bd_wired _ _ _ _ _ _ _ HB) as HW.
  split; [|split].
  - intros tm Htm. rewrite (bd_timers _ _ _ _ _ _ _ HB) in Htm. contradiction.
  - intros id Hid. rewrite (wd_resize _ _ _ _ HW) in Hid. discriminate Hid.
  - intros k Hk. rewrite (wd_body _ _ _ _ HW) in Hk. unfold served in Hk.
    rewrite ids_bounce in Hk. apply load_ids_static in Hk.
    destruct Hk as [i Hk]. discriminate Hk.
Qed.

Lemma Hygiene_run N fz trace : forall s s',
  Inv N fz s -> Hygiene s -> run rv sq pw at2 trace s = Some (tt, s') -> Hygiene s'.
Proof.
  induction trace as [|st trace IH]; intros s s' HI HH E.
  - apply Some_tt_inj in E. now subst.
  - rewrite run_cons in E.
    destruct (step_Inv rv sq pw at2 N fz st s HI) as [s1 [E1 HI1]].
    rewrite E1 in E. apply (IH s1 s' HI1); [|exact E].
    exact (Hygiene_step N fz st s s1 HI HH E1).
Qed.

Lemma session_Hygiene page w reduced trace :
  exists s, session rv sq pw at2 page w reduced trace = Some (tt, s) /\
            Inv (particleCount w) None s /\ Hygiene s.
Proof.
  destruct (session_states rv sq pw at2 page w reduced trace)
    as [s0 [s [E0 [HB [Er [E [HI _]]]]]]].
  exists s. split; [exact E|]. split; [exact HI|].
  exact (Hygiene_run _ _ trace s0 s (bd_inv _ _ _ _ _ _ _ HB)
           (Hygiene_boot page w reduced s0 HB) Er).
Qed.

(** No ripple outlives its 600ms.  At any point of any session,
    every ripple in the document has its removal pending, due at most
    600ms from now; so once 600ms have passed, whatever the pointer did
    before, no ripple is left in the document. *)
Theorem ripples_are_short_lived page w reduced trace t :
  exists s s',
    session rv sq pw at2 page w reduced trace = Some (tt, s) /\
    step rv sq pw at2 (Elapse t) s = Some (tt, s') /\
    (forall k, connected (Created SRipple k) s = true ->
       exists tm, In tm (timers s) /\ task tm = RemoveRipple (Created SRipple k) /\
                  (due tm <= clock s + 600)%Z) /\
    ((clock s + 600 <= t)%Z ->
       forall k, connected (Created SRipple k) s' = false).
Proof.
  destruct (session_Hygiene page w reduced trace) as [s [E [HI [_ [_ H3]]]]].
  destruct (elapse_effect _ _ t s HI) as [s' [E' [HI' [_ [_ [_ [_ [Hincl Hrm]]]]]]]].
  exists s, s'. split; [exact E|]. split; [exact E'|]. split.
  - intros k Hc. destruct HI as [HD _].
    exact (H3 k (connected_page _ s _ HD Hc eq_refl)).
  - intros Ht k. destruct (connected (Created SRipple k) s') eqn:Hc; [exfalso|reflexivity].
    destruct HI' as [HD' _].
    pose proof (connected_page _ s' _ HD' Hc eq_refl) as Hin.
    destruct (H3 k (Hincl _ Hin)) as [tm [Htm [Htask Hdue]]].
    apply (Hrm tm (Created SRipple k) Htm); [lia|exact Htask|discriminate|exact Hin].
Qed.

(** A resize of the window cancels nothing but a pending run of the
    resize handler: every other timer (the removal of a ripple, the
    reveal of an element) is still pending after it.  [clearTimeout] is
    called with the identifier kept in [resizeTimeout], which no other
    timer bears. *)
Theorem resize_spares_the_other_timers page w reduced trace w' :
  exists s s',
    session rv sq pw at2 page w reduced trace = Some (tt, s) /\
    step rv sq pw at2 (WindowResize w') s = Some (tt, s') /\
    forall tm, In tm (timers s) -> is_debounced tm = false -> In tm (timers s').
Proof.
  destruct (session_Hygiene page w reduced trace) as [s [E [HI [H1 [H2 _]]]]].
  destruct (step_Inv rv sq pw at2 _ _ (WindowResize w') s HI) as [s' [E' _]].
  exists s, s'. split; [exact E|]. split; [exact E'|].
  intros tm Htm Hnd. revert E'. cbn [step]. unfold on_resize. js_page.
  destruct (resizeTimeout s) as [i|] eqn:Er; js_page; intro E';
    apply Some_tt_inj in E'; subst s'; js_page; apply in_or_app; left; [|exact Htm].
  apply filter_In. split; [exact Htm|].
  destruct (Nat.eqb (timerId tm) i) eqn:Ei; [|reflexivity].
  apply Nat.eqb_eq in Ei. destruct (H2 i eq_refl) as [_ Hdb].
  rewrite (Hdb tm Htm Ei) in Hnd. discriminate Hnd.
Qed.

End Hygiene.

(** * A hidden element stays hidden until its reveal is due *)

#[export] Instance Veil_FrameRel x : FrameRel (Veil x).
Proof.
  split.
  - intro s. split; auto.
  - intros a b c [A1 A2] [B1 B2]. split; auto.
Qed.

Lemma classed_leaf cls x e : contains cls e = false -> classed cls x (leaf e) = false.
Proof. intro H. unfold classed. cbn. now rewrite H, andb_false_r. Qed.

Lemma elements_appendChild e p c n :
  In e (elements (appendChild p c n)) -> In e (elements n) \/ In e (elements c).
Proof.
  induction n as [e0 ks IH] using Node_induction. simpl appendChild.
  unfold elements. cbn [subtrees map]. intros [E|Hin]; [left; now left|].
  assert (Hks : In e (map elem (flat_map subtrees (map (appendChild p c) ks))) ->
                In e (map elem (flat_map subtrees ks)) \/ In e (elements c)).
  { clear Hin. induction IH as [|k ks Hk Hks IHks]; simpl; [contradiction|].
    rewrite !map_app. intro H. apply in_app_or in H. destruct H as [H|H].
    - destruct (Hk H) as [H'|H']; [left; apply in_or_app; now left|now right].
    - destruct (IHks H) as [H'|H']; [left; apply in_or_app; now right|now right]. }
  destruct (NodeId_eqb (nid e0) p).
  - rewrite flat_map_app, map_app in Hin. apply in_app_or in Hin.
    destruct Hin as [Hin|Hin].
    + destruct (Hks Hin) as [H|H]; [left; now right|now right].
    + right. cbn [flat_map] in Hin. now rewrite app_nil_r in Hin.
  - destruct (Hks Hin) as [H|H]; [left; now right|now right].
Qed.

Lemma classed_appendChild cls x p c n :
  classed cls x c = false -> classed cls x n = false ->
  classed cls x (appendChild p c n) = false.
Proof.
  unfold classed. intros Hc Hn.
  destruct (existsb _ (elements (appendChild p c n))) eqn:E; [|reflexivity].
  apply existsb_exists in E. destruct E as [e [He Ht]].
  apply elements_appendChild in He. destruct He as [He|He].
  - rewrite <- Hn. symmetry. apply existsb_exists. now exists e.
  - rewrite <- Hc. symmetry. apply existsb_exists. now exists e.
Qed.

Lemma classed_update_same cls x y f n :
  (forall e, nid (f e) = nid e) -> (forall e, contains cls (f e) = contains cls e) ->
  classed cls x (update y f n) = classed cls x n.
Proof.
  intros Hid Hcl. unfold classed. rewrite elements_update.
  induction (elements n) as [|e l IH]; simpl; [reflexivity|].
  rewrite IH. f_equal. destruct (NodeId_eqb (nid e) y); [|reflexivity].
  now rewrite Hid, Hcl.
Qed.

(** The state a primitive leaves, under the veil. *)
Ltac veil_class H :=
  repeat first
    [ exact H
    | apply classed_removeNode
    | apply classed_appendChild; [apply classed_leaf; reflexivity|]
    | rewrite classed_update_same by (intro; reflexivity) ].

Ltac veil_timers :=
  let tm := fresh "tm" in
  let Hin := fresh "Hin" in
  let Ht := fresh "Ht" in
  intros tm Hin Ht;
  repeat (apply in_app_or in Hin; destruct Hin as [Hin|Hin]);
  try (apply filter_In in Hin; destruct Hin as [Hin _]);
  first [exact Hin | destruct Hin as [<-|[]]; discriminate Ht].

Ltac veil_close :=
  unfold Veil; js_page;
  split; [let H := fresh "H" in intro H; veil_class H | veil_timers].

Ltac veil_leaf := keeps_open; veil_close.

Section Veiled.

Variable rv : nat -> float.
Variable sq : float -> float.
Variable pw : float -> float -> float.
Variable at2 : float -> float -> float.

Local Abbreviation Inv := (Inv sq pw at2).

Variable x : NodeId.

Lemma Veil_random : keeps (Veil x) (Math_random rv).
Proof.
  intros s a s' E. unfold Math_random in E. injection E as _ <-. split; auto.
Qed.

#[local] Hint Resolve Veil_random : keeps.

Lemma Veil_createParticle : keeps (Veil x) (createParticle rv).
Proof. unfold createParticle. keeps_with veil_leaf. Qed.

Lemma Veil_createRippleEffect t ev : keeps (Veil x) (createRippleEffect t ev).
Proof.
  intros s [] s' E. unfold createRippleEffect in E. revert E. js_page.
  intro E. apply Some_tt_inj in E. subst s'. veil_close.
Qed.

#[local] Hint Resolve Veil_createParticle Veil_createRippleEffect : keeps.

Lemma Veil_invoke l ev : keeps (Veil x) (invoke rv l ev).
Proof.
  unfold invoke, onButtonHover, onButtonLeave, onCardMouseMove, onCardMouseLeave.
  keeps_with veil_leaf.
Qed.

#[local] Hint Resolve Veil_invoke : keeps.

Lemma Veil_dispatchEvent ev : keeps (Veil x) (dispatchEvent rv ev).
Proof. unfold dispatchEvent. keeps_with veil_leaf. Qed.

Lemma Veil_frame time : keeps (Veil x) (frame time).
Proof. unfold frame, animate, updateAnimations. keeps_with veil_leaf. Qed.

Lemma Veil_on_resize w : keeps (Veil x) (modify (set_innerWidth w) ;; on_resize).
Proof. unfold on_resize. keeps_with veil_leaf. Qed.

Lemma Veil_destroy : keeps (Veil x) destroy.
Proof. unfold destroy. keeps_with veil_leaf. Qed.

Lemma observerCallback_idle entries s :
  forallb (fun en : NodeId * bool => negb (snd en)) entries = true ->
  observerCallback entries s = Some (tt, s).
Proof.
  unfold observerCallback. unfold forEach at 1. generalize 0.
  induction entries as [|en l IH]; intros k H; [reflexivity|].
  cbn [forallb] in H. apply andb_true_iff in H. destruct H as [Hen Hl].
  cbn [forEach_from]. destruct (snd en); [discriminate Hen|].
  unfold bind at 1, ret at 1. now apply IH.
Qed.

Lemma forallb_filter {A} (f g : A -> bool) l :
  forallb f l = true -> forallb f (filter g l) = true.
Proof.
  induction l as [|a l IH]; intro H; [reflexivity|].
  cbn [forallb] in H. apply andb_true_iff in H. destruct H as [Ha Hl].
  cbn [filter]. destruct (g a); [cbn [forallb]; rewrite Ha|]; now apply IH.
Qed.

(** A step in which no intersection is reported and the clock stays
    before [T] leaves hidden what is hidden until [T]. *)
Lemma Hidden_step N fz T st s :
  Inv N fz s -> page_id x = true -> Hidden x T s -> untriggered T [st] = true ->
  exists s', step rv sq pw at2 st s = Some (tt, s') /\ Inv N fz s' /\ Hidden x T s'.
Proof.
  intros HI Hx [Hh Ht] Hst.
  destruct (step_Inv rv sq pw at2 N fz st s HI) as [s' [E HI']].
  exists s'. split; [exact E|]. split; [exact HI'|].
  assert (HV : Veil x s s' -> Hidden x T s').
  { intros [V1 V2]. split.
    - rewrite (has_class_body N s' _ _ (proj1 HI') Hx). apply V1.
      rewrite <- (has_class_body N s _ _ (proj1 HI) Hx). exact Hh.
    - intros tm Hin Htask. apply Ht; [now apply V2|exact Htask]. }
  cbn [untriggered forallb] in Hst. rewrite andb_true_r in Hst.
  destruct st as [time|ev|entries|w|t|]; cbn [step] in E.
  - apply HV. exact (Veil_frame time s tt s' E).
  - apply HV. exact (Veil_dispatchEvent ev s tt s' E).
  - unfold bind at 1, gets at 1 in E. unfold bind at 1, gets at 1 in E.
    rewrite observerCallback_idle in E by now apply forallb_filter.
    apply Some_tt_inj in E. subst s'. now split.
  - apply HV. exact (Veil_on_resize w s tt s' E).
  - apply Z.ltb_lt in Hst.
    destruct (elapse_hidden rv sq pw at2 N fz t "in-view" x s HI Hx Hh)
      as [s1 [E1 [_ Hh1]]].
    { intros tm Hin Hdue Htask. specialize (Ht tm Hin Htask). lia. }
    rewrite E in E1. apply Some_tt_inj in E1. subst s1.
    destruct (elapse_effect rv sq pw at2 N fz t s HI)
      as [s2 [E2 [_ [Htm _]]]].
    rewrite E in E2. apply Some_tt_inj in E2. subst s2.
    split; [exact Hh1|]. intros tm Hin Htask. rewrite Htm in Hin.
    apply filter_In in Hin. now apply Ht.
  - apply HV. exact (Veil_destroy s tt s' E).
Qed.

Lemma Hidden_run N fz T later : forall s,
  Inv N fz s -> page_id x = true -> Hidden x T s -> untriggered T later = true ->
  exists s', run rv sq pw at2 later s = Some (tt, s') /\ Inv N fz s' /\ Hidden x T s'.
Proof.
  induction later as [|st later IH]; intros s HI Hx HH Hq.
  - exists s. split; [reflexivity|]. split; assumption.
  - cbn [untriggered forallb] in Hq. apply andb_true_iff in Hq.
    destruct Hq as [Hst Hq].
    destruct (Hidden_step N fz T st s HI Hx HH) as [s1 [E1 [HI1 HH1]]].
    { cbn [untriggered forallb]. now rewrite Hst. }
    destruct (IH s1 HI1 Hx HH1 Hq) as [s2 [E2 [HI2 HH2]]].
    exists s2. rewrite run_cons, E1. split; [exact E2|]. split; assumption.
Qed.

End Veiled.

Section StaggeredReveal.

Variable rv : nat -> float.
Variable sq : float -> float.
Variable pw : float -> float -> float.
Variable at2 : float -> float -> float.

Local Abbreviation Inv := (Inv sq pw at2).


(** Nothing but a timer of the observer or a reported intersection
    reveals an element: in every state a session reaches, an element of
    the page that is without [in-view] stays without it until the
    earliest time one of its pending reveals is due, whatever frames,
    pointer events, resizes, other timers or [destroy] come meanwhile, as
    long as the observer reports no intersection. *)
Theorem hidden_until_due page w reduced trace x T later :
  exists s,
    session rv sq pw at2 page w reduced trace = Some (tt, s) /\
    (page_id x = true ->
     has_class "in-view" x s = false ->
     (forall tm, In tm (timers s) -> task tm = RevealSibling x -> (T <= due tm)%Z) ->
     untriggered T later = true ->
     exists s',
       run rv sq pw at2 later s = Some (tt, s') /\
       has_class "in-view" x s' = false).
Proof.
  destruct (session_Inv rv sq pw at2 page w reduced trace) as [s [E HI]].
  exists s. split; [exact E|]. intros Hx Hh Hdue Hlater.
  destruct (Hidden_run rv sq pw at2 x (particleCount w) None T later s HI Hx)
    as [s' [E' [_ [Hh' _]]]]; [now split|exact Hlater|].
  exists s'. split; [exact E'|exact Hh'].
Qed.

End StaggeredReveal.

(** * Further properties at work on the sample page *)

(** Two frames 10ms apart, a resize in between. *)
Lemma frame_loop_witness :
  exists s h s',
    sample_session [Frame 100; WindowResize 500; Frame 110] = Some (tt, s) /\
    rafPending s = [h] /\
    step sample_random PrimFloat.sqrt sample_pow sample_atan2 (Frame 120) s
      = Some (tt, s') /\
    lastTime s' = (if (16 <=? 120 - lastTime s)%float then 120%float else lastTime s).
Proof.
  destruct (frame_loop sample_random PrimFloat.sqrt sample_pow sample_atan2
              sample_page 1024 false [Frame 100; WindowResize 500; Frame 110] 120
              eq_refl)
    as [s [h [s' [E [_ [Hp [E' [Hlt _]]]]]]]].
  exists s, h, s'. split; [exact E|]. split; [exact Hp|]. split; [exact E'|exact Hlt].
Defined.

(** The pointer enters and leaves the first button. *)
Lemma button_leave_witness :
  exists s1 s2,
    onButtonHover (sample_enter (Static 2)) sample_state = Some (tt, s1) /\
    onButtonLeave (sample_leave (Static 2)) s1 = Some (tt, s2) /\
    style_of "position" (Static 2) s2 = Some (CssText "relative") /\
    style_of "overflow" (Static 2) s2 = Some (CssText "hidden").
Proof.
  destruct (button_leave_keeps_the_layout sample_random PrimFloat.sqrt sample_pow
              sample_atan2 sample_page 1024 false []
              (sample_enter (Static 2)) (sample_leave (Static 2))) as [s [E H]].
  apply sample_state_reached in E. subst s.
  destruct H as [s1 [s2 [E1 [E2 [_ [Hp Ho]]]]]].
  - vm_compute. discriminate.
  - reflexivity.
  - exists s1, s2. split; [exact E1|]. split; [exact E2|]. split; [exact Hp|exact Ho].
Defined.

(** The trigger on the student card, and on the paragraph. *)
Lemma trigger_animation_witness :
  exists s',
    triggerElementAnimation (Static 6) sample_state = Some (tt, s') /\
    triggerElementAnimation (Static 6) s' = Some (tt, s') /\
    has_class "animate-slide-up" (Static 6) s' = true.
Proof.
  destruct (trigger_animation_is_idempotent sample_random PrimFloat.sqrt sample_pow
              sample_atan2 sample_page 1024 false [] (Static 6)) as [s [E H]].
  apply sample_state_reached in E. subst s.
  destruct (H (load (Tag 6 "div" ["portal-card"; "student-portal"; "fade-in-element"] [] [])))
    as [s' [E1 [E2 Hc]]].
  - reflexivity.
  - vm_compute. reflexivity.
  - exists s'. split; [exact E1|]. split; [exact E2|exact Hc].
Defined.

(** The first card of the grid comes into view; 400ms later the third
    card is revealed. *)
Lemma reveal_happens_witness :
  exists s' s'',
    observerCallback [(Static 6, true)] sample_state = Some (tt, s') /\
    step sample_random PrimFloat.sqrt sample_pow sample_atan2 (Elapse 400) s'
      = Some (tt, s'') /\
    has_class "in-view" (Static 8) s'' = true.
Proof.
  destruct (reveal_happens sample_random PrimFloat.sqrt sample_pow sample_atan2
              sample_page 1024 false [] (Static 6)) as [s [E Hg]].
  apply sample_state_reached in E. subst s.
  destruct (Hg (load sample_grid)) as [s' [E' Hs]].
  - vm_compute. reflexivity.
  - destruct (Hs 2 (Static 8) 400%Z) as [s'' [E'' Hh]].
    + vm_compute. reflexivity.
    + vm_compute. discriminate.
    + exists s', s''. split; [exact E'|]. split; [exact E''|].
      apply Hh. clear Hh Hs Hg.
      vm_compute in E'. apply Some_tt_inj in E'. subst s'.
      vm_compute in E''. apply Some_tt_inj in E''. subst s''.
      vm_compute. reflexivity.
Defined.

(** The pointer enters the first button; 600ms later the ripple is gone,
    and no other is there. *)
Lemma ripples_witness :
  exists s s',
    sample_session [Dispatch (sample_enter (Static 2))] = Some (tt, s) /\
    connected (Created SRipple (nextSerial sample_state)) s = true /\
    step sample_random PrimFloat.sqrt sample_pow sample_atan2 (Elapse 600) s
      = Some (tt, s') /\
    forall k, connected (Created SRipple k) s' = false.
Proof.
  destruct (ripples_are_short_lived sample_random PrimFloat.sqrt sample_pow
              sample_atan2 sample_page 1024 false
              [Dispatch (sample_enter (Static 2))] 600)
    as [s [s' [E [E' [_ Hg]]]]].
  exists s, s'. split; [exact E|]. split; [|split; [exact E'|]].
  - clear E' Hg. vm_compute in E. apply Some_tt_inj in E. subst s.
    vm_compute. reflexivity.
  - apply Hg. clear E' Hg. vm_compute in E. apply Some_tt_inj in E. subst s.
    vm_compute. discriminate.
Defined.



(** The search of the document has [<body>] among its candidates: a body
    that carries the classes is observed and wired like any element. *)
Lemma body_is_a_candidate :
  option_map (fun r => (observed (snd r), map l_target (pointer_listeners (snd r))))
    (boot sample_random PrimFloat.sqrt sample_pow sample_atan2
       (Tag 0 "body" ["fade-in-element"; "btn-secondary"; "portal-card"] []
          [Tag 1 "p" ["fade-in-element"] [] []]) 1024 false)
  = Some ([Static 0; Static 1], [Static 0; Static 0; Static 0; Static 0]).
Proof. vm_compute. reflexivity. Qed.

(** The first card of the grid is reported twice, at 0 and at 300ms: up
    to 399ms the third card, whose first reveal is due at 400ms, is
    hidden. *)
Lemma hidden_until_due_witness :
  exists s s',
    sample_session [Intersect [(Static 6, true)]; Elapse 300;
                    Intersect [(Static 6, true)]] = Some (tt, s) /\
    run sample_random PrimFloat.sqrt sample_pow sample_atan2
        [Dispatch (sample_enter (Static 6)); Elapse 399] s = Some (tt, s') /\
    has_class "in-view" (Static 8) s' = false.
Proof.
  destruct (hidden_until_due sample_random PrimFloat.sqrt sample_pow sample_atan2
              sample_page 1024 false
              [Intersect [(Static 6, true)]; Elapse 300; Intersect [(Static 6, true)]]
              (Static 8) 400 [Dispatch (sample_enter (Static 6)); Elapse 399])
    as [s [E H]].
  destruct H as [s' [E' Hh]].
  - reflexivity.
  - vm_compute in E. apply Some_tt_inj in E. subst s. vm_compute. reflexivity.
  - vm_compute in E. apply Some_tt_inj in E. subst s.
    intros tm Htm Htask. vm_compute in Htm.
    repeat (destruct Htm as [<-|Htm];
            [first [discriminate Htask | vm_compute; discriminate]|]).
    contradiction.
  - reflexivity.
  - exists s, s'. split; [exact E|]. split; [exact E'|exact Hh].
Defined.
